(** * PodAgent-OS: pipeline state machine and edit-decision timeline engine

    A shallow embedding of the Python sources under [src/podagent] and the
    properties of the specification proved (or refuted) over it.

    Conventions of the embedding.
    - Python [float] has two readings. Where a property rests on the
      comparisons the code makes and on the values it copies, seconds and
      confidences are the rational numbers the floats denote ([Q]); sums
      are then compared with [==] (the equality of [Q]), copied positions
      with [=]. Where a property depends on how a sum or a product rounds
      (the budget of the auto-cut cap, the edited duration of the timeline,
      the frame count of a timecode), the code is embedded over the float
      operations themselves ([Fp.Arith]), of which nothing is assumed, and
      evaluated in binary64 ([Fp.binary64]).
    - [str] is [string]; a [str] that is sliced is the list of its code
      points ([pystr]). [None]-able fields are [option]; [dict] is [gmap].
    - Objects mutated in place through a second reference (the edits in
      [sorted(all_cuts)], the [StageStatus] held in [stage]) are modelled by
      their position in the owning container, which is updated in place.
    - Exceptions are values of [PyExn]; fallible code returns [Result].
    - What the code asks of the outside (the clock, the prompt, the stage
      modules, [pathlib], the file system, FFmpeg, float formatting) is a
      parameter. *)

From Stdlib Require Import QArith Lqa ZArith List String Sorted.
From Stdlib Require Floats.PrimFloat Floats.FloatOps Floats.SpecFloat Uint63.
From stdpp Require Import gmap strings list pretty sorting.
Import ListNotations.

Local Open Scope string_scope.

(** ** Rational helpers (Python comparison operators on floats) *)

Definition Qlt_bool (x y : Q) : bool := negb (Qle_bool y x).

(** [x or 0] for an optional float: [None] and zero both give [0]. *)
Definition q_or_0 (o : option Q) : Q :=
  match o with
  | Some q => if Qeq_bool q 0 then 0%Q else q
  | None => 0%Q
  end.

(** [sum(...)]: left fold from [0]. *)
Definition qsum (l : list Q) : Q := fold_left Qplus l 0%Q.

(** [sorted(l)]: a stable sort, ascending in the order [le]. Every stable
    sort returns the same list; this one inserts from the right. *)
Section StableSort.
Context {A : Type} (le : A -> A -> bool).

Fixpoint insert_sorted (x : A) (l : list A) : list A :=
  match l with
  | [] => [x]
  | y :: ys => if le x y then x :: y :: ys else y :: insert_sorted x ys
  end.

Fixpoint stable_sort (l : list A) : list A :=
  match l with
  | [] => []
  | x :: xs => insert_sorted x (stable_sort xs)
  end.
End StableSort.

(** [sorted(l, key=key)] for a numeric key. *)
Definition sorted_by {A : Type} (key : A -> Q) (l : list A) : list A :=
  stable_sort (fun x y => Qle_bool (key x) (key y)) l.

(** ** Floating-point arithmetic

    Where a result depends on how a sum or a product rounds, the code is
    embedded over the operations of Python's [float], of which nothing is
    assumed: what is proved of such code holds of IEEE 754 binary64
    arithmetic as of any other. [binary64] are those operations on the
    primitive floats of the kernel; the counterexamples are computed
    with them. *)

Module Fp.

Class Arith (F : Type) := mkArith {
  zero : F;                  (* 0.0, also for the integer 0 *)
  half : F;                  (* 0.5 *)
  add : F -> F -> F;
  sub : F -> F -> F;
  mul : F -> F -> F;
  div : F -> F -> F;         (* the code divides by positive numbers only *)
  le : F -> F -> bool;       (* x <= y *)
  lt : F -> F -> bool;       (* x < y *)
  fsum : list F -> F;        (* the builtin sum(...) *)
  of_int : Z -> F;           (* float(n) *)
  trunc : F -> option Z      (* int(x); None: OverflowError, ValueError *)
}.

Section Binary64.
Import PrimFloat SpecFloat FloatOps.

(** The rational number a float denotes; none for infinities and NaN. *)
Definition value (x : float) : option Q :=
  match Prim2SF x with
  | S754_zero _ => Some 0%Q
  | S754_finite s m e =>
      Some ((if s then -1 else 1) * inject_Z (Zpos m) * 2 ^ e)%Q
  | _ => None
  end.

(** [float(n)] for [|n| < 2^63]. *)
Definition float_of_Z (z : Z) : float :=
  match z with
  | Z0 => 0%float
  | Zpos _ => of_uint63 (Uint63.of_Z z)
  | Zneg p => opp (of_uint63 (Uint63.of_Z (Zpos p)))
  end.

(** [int(x)]: truncation towards zero. *)
Definition float_trunc (x : float) : option Z :=
  option_map (fun q => Z.quot (Qnum q) (Zpos (Qden q))) (value x).

(** [sum(...)] as CPython adds up to version 3.11: from left to right,
    starting from 0. (From 3.12 on [sum] compensates the rounding
    errors.) *)
Definition plain_sum (l : list float) : float :=
  fold_left PrimFloat.add l 0%float.

#[global] Instance binary64 : Arith float :=
  mkArith float 0%float 0.5%float PrimFloat.add PrimFloat.sub
    PrimFloat.mul PrimFloat.div PrimFloat.leb PrimFloat.ltb plain_sum
    float_of_Z float_trunc.
End Binary64.

End Fp.

(** ** models/edl.py *)

Module Edl.

Record Edit := mkEdit {
  edit_id : string;
  edit_type : string;               (* keep | cut *)
  source_track : string;
  source_start : Q;
  source_end : Q;
  record_start : option Q;
  record_end : option Q;
  transition : string;              (* cut | crossfade *)
  speaker : option string;
  description : string;
  reason : option string;
  confidence : option Q;
  rationale : option string;
  segments : list string;
  auto_applied : bool;
  review_flag : option string
}.

(** [Edit.duration] *)
Definition duration (e : Edit) : Q := (source_end e - source_start e)%Q.

(** [edit.auto_applied = b] *)
Definition set_auto_applied (b : bool) (e : Edit) : Edit :=
  mkEdit (edit_id e) (edit_type e) (source_track e) (source_start e)
    (source_end e) (record_start e) (record_end e) (transition e)
    (speaker e) (description e) (reason e) (confidence e) (rationale e)
    (segments e) b (review_flag e).

(** [edit.review_flag = f] *)
Definition set_review_flag (f : option string) (e : Edit) : Edit :=
  mkEdit (edit_id e) (edit_type e) (source_track e) (source_start e)
    (source_end e) (record_start e) (record_end e) (transition e)
    (speaker e) (description e) (reason e) (confidence e) (rationale e)
    (segments e) (auto_applied e) f.

Record Transition := mkTransition {
  between : list string;
  transition_type : string;
  duration_ms : Z
}.

Record EDLSidecar := mkEDLSidecar {
  version : string;
  episode_id : string;
  original_duration_seconds : Q;
  edited_duration_seconds : Q;
  time_removed_seconds : Q;
  time_removed_percent : Q;
  edl_frame_rate : Z;
  edl_mode : string;
  edits : list Edit;
  transitions : list Transition
}.

(** [EDLSidecar.keep_edits] *)
Definition keep_edits (s : EDLSidecar) : list Edit :=
  List.filter (fun e => String.eqb (edit_type e) "keep") (edits s).

(** [EDLSidecar.cut_edits] *)
Definition cut_edits (s : EDLSidecar) : list Edit :=
  List.filter (fun e => String.eqb (edit_type e) "cut") (edits s).

End Edl.

(** ** editing/module.py: the auto-cut safety cap of [EditingModule.run]

    Over exact seconds; which edits the cap demotes at the edge of the
    budget depends on the rounding, for which see [FloatEditingModule]. *)

Module EditingModule.
Import Edl.

Definition BUDGET_FLAG : string :=
  "Auto-cut budget exceeded (>50% of episode)".

(** [sum(e.duration for e in all_cuts if e.auto_applied)] *)
Definition auto_cut_time (all_cuts : list Edit) : Q :=
  qsum (map duration (List.filter auto_applied all_cuts)).

(** [-(e.confidence or 0)] *)
Definition neg_confidence (e : Edit) : Q :=
  (- q_or_0 (confidence e))%Q.

(** The key of the object that reference [r] points to. *)
Definition ref_key (all_cuts : list Edit) (r : nat) : Q :=
  match all_cuts !! r with Some e => neg_confidence e | None => 0%Q end.

(** [sorted(all_cuts, key=lambda e: -(e.confidence or 0))] as a list of
    references (positions in [all_cuts]) to the same objects. *)
Definition sorted_refs (all_cuts : list Edit) : list nat :=
  sorted_by (ref_key all_cuts) (seq 0 (length all_cuts)).

(** The [for edit in sorted(...)] loop; [all_cuts] is the store of edit
    objects, updated in place. *)
Fixpoint cap_loop (budget : Q) (refs : list nat) (used : Q)
    (all_cuts : list Edit) : Q * list Edit :=
  match refs with
  | [] => (used, all_cuts)
  | r :: rest =>
      match all_cuts !! r with
      | None => cap_loop budget rest used all_cuts
      | Some edit =>
          if auto_applied edit then
            if Qle_bool (used + duration edit) budget then
              cap_loop budget rest (used + duration edit)%Q all_cuts
            else
              cap_loop budget rest used
                (<[r := set_review_flag (Some BUDGET_FLAG)
                          (set_auto_applied false edit)]> all_cuts)
          else cap_loop budget rest used all_cuts
      end
  end.

(** Lines 104-122 of [EditingModule.run]: [all_cuts] after the cap. *)
Definition cap_auto_cuts (total_duration : Q) (all_cuts : list Edit)
    : list Edit :=
  if Qlt_bool 0 total_duration
     && Qlt_bool (1#2) (auto_cut_time all_cuts / total_duration)
  then
    let budget := (total_duration * (1#2))%Q in
    snd (cap_loop budget (sorted_refs all_cuts) 0%Q all_cuts)
  else all_cuts.

End EditingModule.

(** ** models/transcript.py *)

Module Transcript.

Record Word := mkWord {
  word : string;
  word_start : Q;
  word_end : Q;
  word_confidence : Q
}.

Record Segment := mkSegment {
  seg_id : string;
  seg_speaker : string;
  seg_start : Q;
  seg_end : Q;
  seg_text : string;
  seg_words : list Word;
  seg_source_track : option string
}.

(** [Segment.duration] *)
Definition seg_duration (s : Segment) : Q := (seg_end s - seg_start s)%Q.

End Transcript.

(** ** editing/edl_builder.py *)

Module EdlBuilder.
Import Edl Transcript.

(** [f"{n:03d}"] *)
Definition fmt_03d (n : nat) : string :=
  let d := pretty n in
  match String.length d with
  | 1%nat => "00" ++ d
  | 2%nat => "0" ++ d
  | _ => d
  end.

Section WithFormatting.
(** Python's float formatting [f"{x:.0f}"] and [round(x, 1)]; they only
    feed the [description] and [time_removed_percent] fields. *)
Variable fmt_0f : Q -> string.
Variable round1 : Q -> Q.

(** [_summarize_region] *)
Definition _summarize_region (segs : list Segment) : string :=
  match segs with
  | [] => ""
  | s0 :: rest =>
      let speakers :=
        stable_sort String.leb (remove_dups (map seg_speaker segs)) in
      let duration :=
        match rest with
        | [] => seg_duration s0
        | _ => (seg_end (List.last segs s0) - seg_start s0)%Q
        end in
      String.concat ", " speakers ++ " (" ++ fmt_0f duration ++ "s)"
  end.

(** [region_segments[0].speaker if region_segments else ""] *)
Definition first_speaker (region_segments : list Segment) : string :=
  match region_segments with s :: _ => seg_speaker s | [] => "" end.

(** The local variables of the [for cut in cuts] loop. *)
Record LoopState := mkLoopState {
  ls_keep_edits : list Edit;
  ls_keep_counter : nat;
  ls_current_pos : Q;
  ls_record_pos : Q
}.

(** The keep edit appended by either branch. *)
Definition make_keep (keep_counter : nat) (src_start src_end rec_pos : Q)
    (trans : string) (region_segments : list Segment) : Edit :=
  mkEdit ("keep-" ++ fmt_03d keep_counter) "keep" ""
    src_start src_end
    (Some rec_pos) (Some (rec_pos + (src_end - src_start))%Q)
    trans
    (Some (first_speaker region_segments))
    (_summarize_region region_segments)
    None None None
    (map seg_id region_segments)
    false None.

(** One iteration of [for cut in cuts]. *)
Definition cut_step (segs : list Segment) (st : LoopState) (cut : Edit)
    : LoopState :=
  if Qlt_bool (ls_current_pos st) (source_start cut) then
    let keep_counter := S (ls_keep_counter st) in
    let region_segments :=
      List.filter
        (fun s => Qle_bool (ls_current_pos st) (seg_start s)
                  && Qle_bool (seg_end s) (source_start cut)) segs in
    let keep :=
      make_keep keep_counter (ls_current_pos st) (source_start cut)
        (ls_record_pos st)
        (if Nat.eqb keep_counter 1 then "cut" else "crossfade")
        region_segments in
    mkLoopState (ls_keep_edits st ++ [keep])%list keep_counter
      (source_end cut)
      (ls_record_pos st + (source_start cut - ls_current_pos st))%Q
  else
    mkLoopState (ls_keep_edits st) (ls_keep_counter st)
      (source_end cut) (ls_record_pos st).

(** The final keep region after the last cut. *)
Definition final_step (segs : list Segment) (total_duration : Q)
    (st : LoopState) : LoopState :=
  if Qlt_bool (ls_current_pos st) total_duration then
    let keep_counter := S (ls_keep_counter st) in
    let region_segments :=
      List.filter (fun s => Qle_bool (ls_current_pos st) (seg_start s))
        segs in
    let keep :=
      make_keep keep_counter (ls_current_pos st) total_duration
        (ls_record_pos st) "crossfade" region_segments in
    mkLoopState (ls_keep_edits st ++ [keep])%list keep_counter
      (ls_current_pos st)
      (ls_record_pos st + (total_duration - ls_current_pos st))%Q
  else st.

(** [for i in range(len(keep_edits) - 1)] *)
Fixpoint build_transitions (crossfade_duration_ms : Z)
    (keeps : list Edit) : list Transition :=
  match keeps with
  | a :: (b :: _) as rest =>
      mkTransition [edit_id a; edit_id b] "crossfade"
        crossfade_duration_ms
      :: build_transitions crossfade_duration_ms rest
  | _ => []
  end.

(** [segments[-1].end if segments else 0] *)
Definition total_duration_of (segs : list Segment) : Q :=
  match List.rev segs with s :: _ => seg_end s | [] => 0%Q end.

(** The keep edits and cursors after both phases. *)
Definition keep_phase (segs : list Segment) (cut_edits : list Edit)
    : LoopState :=
  let cuts := sorted_by source_start cut_edits in
  final_step segs (total_duration_of segs)
    (fold_left (cut_step segs) cuts (mkLoopState [] 0 0%Q 0%Q)).

(** [build_edl] *)
Definition build_edl (segs : list Segment) (cut_edits : list Edit)
    (episode_id : string) (frame_rate : Z) (crossfade_duration_ms : Z)
    : EDLSidecar :=
  let total_duration := total_duration_of segs in
  let cuts := sorted_by source_start cut_edits in
  let st := keep_phase segs cut_edits in
  let keep_edits := ls_keep_edits st in
  let transitions := build_transitions crossfade_duration_ms keep_edits in
  let all_edits := (keep_edits ++ cuts)%list in
  let edited_duration := ls_record_pos st in
  let time_removed := (total_duration - edited_duration)%Q in
  let time_removed_pct :=
    if Qlt_bool 0 total_duration
    then (time_removed / total_duration * 100)%Q else 0%Q in
  mkEDLSidecar "1.0" episode_id total_duration edited_duration
    time_removed (round1 time_removed_pct) frame_rate "NON-DROP FRAME"
    all_edits transitions.

End WithFormatting.
End EdlBuilder.

(** ** editing/chapters.py *)

Module Chapters.
Import Edl.

(** The [for edit in cut_edits] loop of [_map_to_edited_timeline];
    [None] is the early [return None]. *)
Fixpoint map_loop (original_time : Q) (cut_edits : list Edit) (offset : Q)
    : option Q :=
  match cut_edits with
  | [] => Some (original_time - offset)%Q
  | edit :: rest =>
      if Qle_bool (source_end edit) original_time then
        map_loop original_time rest (offset + duration edit)%Q
      else if Qlt_bool (source_start edit) original_time
              && Qlt_bool original_time (source_end edit) then None
      else map_loop original_time rest offset
  end.

(** [_map_to_edited_timeline] *)
Definition _map_to_edited_timeline (original_time : Q)
    (cut_edits : list Edit) : option Q :=
  map_loop original_time cut_edits 0%Q.

End Chapters.

(** ** Python strings that are sliced

    A [str] whose length or slices matter is kept as the list of its code
    points; [chars] is the [str] of a literal. *)

Definition pystr : Type := list N.

Definition chars (s : string) : pystr :=
  map Ascii.N_of_ascii (String.list_ascii_of_string s).

(** ** models/manifest.py *)

Module ManifestModel.

(** An instant, as returned by [datetime.now(timezone.utc)]. *)
Definition datetime : Type := Z.

Record Participant := mkParticipant {
  participant_name : string;
  participant_role : string;
  participant_track : string
}.

Record Project := mkProject {
  project_name : string;
  episode_number : Z;
  title : string;
  recording_date : string;
  participants : list Participant
}.

Record StageError := mkStageError {
  error_type : pystr;
  message : pystr;
  step : option string
}.

Record StageStatus := mkStageStatus {
  status : string;           (* pending | in_progress | completed | failed *)
  started_at : option datetime;
  completed_at : option datetime;
  gate_approved : option bool;
  gate_approved_at : option datetime;
  gate_notes : option string;
  error : option StageError;
  last_completed_step : option string;
  artifact_checksums : gmap string string
}.

(** [StageStatus()] *)
Definition default_stage : StageStatus :=
  mkStageStatus "pending" None None None None None None None ∅.

Record Pipeline := mkPipeline {
  current_stage : string;
  stages : gmap string StageStatus
}.

(** [Pipeline()] *)
Definition default_pipeline : Pipeline :=
  mkPipeline "ingestion"
    (<["ingestion" := default_stage]>
     (<["editing" := default_stage]>
      (<["mixing" := default_stage]>
       (<["mastering" := default_stage]> ∅)))).

(** The [files] path table and the per-module [config] are carried along
    untouched by the orchestrator and the gate controller; their types
    are parameters. *)
Record Manifest (Files Config : Type) := mkManifest {
  version : string;
  project : Project;
  files : Files;
  pipeline : Pipeline;
  config : Config
}.
Arguments mkManifest {Files Config}.
Arguments version {Files Config}.
Arguments project {Files Config}.
Arguments files {Files Config}.
Arguments pipeline {Files Config}.
Arguments config {Files Config}.

(** Field assignments on a [StageStatus]. *)
Definition set_status (v : string) (s : StageStatus) : StageStatus :=
  mkStageStatus v (started_at s) (completed_at s) (gate_approved s)
    (gate_approved_at s) (gate_notes s) (error s) (last_completed_step s)
    (artifact_checksums s).
Definition set_started_at (v : option datetime) (s : StageStatus) :=
  mkStageStatus (status s) v (completed_at s) (gate_approved s)
    (gate_approved_at s) (gate_notes s) (error s) (last_completed_step s)
    (artifact_checksums s).
Definition set_completed_at (v : option datetime) (s : StageStatus) :=
  mkStageStatus (status s) (started_at s) v (gate_approved s)
    (gate_approved_at s) (gate_notes s) (error s) (last_completed_step s)
    (artifact_checksums s).
Definition set_gate_approved (v : option bool) (s : StageStatus) :=
  mkStageStatus (status s) (started_at s) (completed_at s) v
    (gate_approved_at s) (gate_notes s) (error s) (last_completed_step s)
    (artifact_checksums s).
Definition set_gate_approved_at (v : option datetime) (s : StageStatus) :=
  mkStageStatus (status s) (started_at s) (completed_at s) (gate_approved s)
    v (gate_notes s) (error s) (last_completed_step s)
    (artifact_checksums s).
Definition set_gate_notes (v : option string) (s : StageStatus) :=
  mkStageStatus (status s) (started_at s) (completed_at s) (gate_approved s)
    (gate_approved_at s) v (error s) (last_completed_step s)
    (artifact_checksums s).
Definition set_error (v : option StageError) (s : StageStatus) :=
  mkStageStatus (status s) (started_at s) (completed_at s) (gate_approved s)
    (gate_approved_at s) (gate_notes s) v (last_completed_step s)
    (artifact_checksums s).
Definition set_last_completed_step (v : option string) (s : StageStatus) :=
  mkStageStatus (status s) (started_at s) (completed_at s) (gate_approved s)
    (gate_approved_at s) (gate_notes s) (error s) v
    (artifact_checksums s).

Section Accessors.
Context {Files Config : Type}.
Implicit Type m : Manifest Files Config.

(** [stage.<field> = ...] where [stage = manifest.get_stage(name)]: the
    object stored under [name] is changed in place. *)
Definition update_stage (name : string) (f : StageStatus -> StageStatus)
    m : Manifest Files Config :=
  mkManifest (version m) (project m) (files m)
    (mkPipeline (current_stage (pipeline m))
       (alter f name (stages (pipeline m))))
    (config m).

(** [manifest.pipeline.current_stage = name] *)
Definition set_current_stage (name : string) m : Manifest Files Config :=
  mkManifest (version m) (project m) (files m)
    (mkPipeline name (stages (pipeline m)))
    (config m).

(** The stage record stored under [name], if any. *)
Definition stage_of m (name : string) : option StageStatus :=
  stages (pipeline m) !! name.
End Accessors.

End ManifestModel.

(** ** Exceptions, results and the effects of the pipeline commands *)

Module Runtime.
Import ManifestModel.

(** A raised exception: [type(e).__name__], [str(e)], and whether the
    class derives from [Exception], so that [except Exception] catches it
    ([KeyboardInterrupt], [SystemExit] and [GeneratorExit] derive from
    [BaseException] only). *)
Record PyExn := mkPyExn {
  exn_type : pystr;
  exn_str : pystr;
  exn_is_exception : bool
}.

(** An exception of a class derived from [Exception], by name and
    message. *)
Definition mkExn (type_name msg : string) : PyExn :=
  mkPyExn (chars type_name) (chars msg) true.

Definition KeyError (key : string) : PyExn :=
  mkExn "KeyError" ("'" ++ key ++ "'").
Definition ValueError (msg : string) : PyExn := mkExn "ValueError" msg.
Definition RuntimeError (msg : string) : PyExn := mkExn "RuntimeError" msg.

Inductive Result (A : Type) : Type :=
| Ok (a : A)
| Raise (e : PyExn).
Arguments Ok {A}.
Arguments Raise {A}.

(** What a stage module's [run] does: the last value it wrote to its own
    stage's [last_completed_step] (if it wrote any) and the exception it
    raised (if it raised). *)
Record ModuleResult := mkModuleResult {
  checkpoint : option string;
  raised : option PyExn
}.

Section WithManifest.
Context {Files Config : Type}.
Abbreviation Mf := (Manifest Files Config).

(** Interactions with the outside, in order. *)
Inductive Event :=
| EvSave (m : Mf)                       (* write_yaml(manifest_path, ...) *)
| EvGate (stage_name : string) (m : Mf) (* present_gate(...) *)
| EvValidate (stage_name : string) (m : Mf)
| EvRun (stage_name : string) (m : Mf). (* module.run(project_root, manifest) *)

(** The manifest file, the number of clock readings so far, and the
    interactions so far (oldest first). *)
Record World := mkWorld {
  disk : Mf;
  clock : nat;
  trace : list Event
}.

(** The collaborators outside the core. *)
Record Env := mkEnv {
  now : nat -> datetime;                 (* the n-th clock reading *)
  present_gate : string -> Mf -> bool;   (* the answer at the prompt *)
  validate_inputs : string -> Mf -> list string;
  run : string -> Mf -> ModuleResult
}.

Definition M (A : Type) : Type := World -> Result A * World.

Definition ret {A} (a : A) : M A := fun w => (Ok a, w).
Definition raise {A} (e : PyExn) : M A := fun w => (Raise e, w).
Definition bind {A B} (c : M A) (k : A -> M B) : M B :=
  fun w => match c w with
           | (Ok a, w') => k a w'
           | (Raise e, w') => (Raise e, w')
           end.
Definition lift {A} (r : Result A) : M A := fun w => (r, w).

Definition emit (ev : Event) : M unit :=
  fun w => (Ok tt, mkWorld (disk w) (clock w) (trace w ++ [ev])).

(** [read_yaml(manifest_path)] parsed into a [Manifest] *)
Definition load_manifest : M Mf := fun w => (Ok (disk w), w).

(** [write_yaml(manifest_path, manifest.model_dump(mode="json"))] *)
Definition save_manifest (m : Mf) : M unit :=
  fun w => (Ok tt, mkWorld m (clock w) (trace w ++ [EvSave m])).

(** [datetime.now(timezone.utc)] *)
Definition read_clock (env : Env) : M datetime :=
  fun w => (Ok (now env (clock w)),
            mkWorld (disk w) (S (clock w)) (trace w)).

(** [manifest.get_stage(name)]: [self.pipeline.stages[name]] *)
Definition get_stage (m : Mf) (name : string) : Result StageStatus :=
  match stage_of m name with
  | Some s => Ok s
  | None => Raise (KeyError name)
  end.
End WithManifest.

Arguments Event : clear implicits.
Arguments World : clear implicits.
Arguments Env : clear implicits.
Arguments M : clear implicits.
End Runtime.

Declare Scope pipeline_scope.
Delimit Scope pipeline_scope with pipeline.
Notation "'let!' x ':=' c 'in' k" := (Runtime.bind c (fun x => k))
  (at level 10, x name, c at level 100, k at level 200) : pipeline_scope.

(** ** pipeline/orchestrator.py *)

Module Orchestrator.
Import ManifestModel Runtime.
Local Open Scope pipeline_scope.

Definition STAGE_ORDER : list string :=
  ["ingestion"; "editing"; "mixing"; "mastering"].

(** [l.index(x)]; [None] stands for the [ValueError]. *)
Fixpoint index_of (x : string) (l : list string) : option nat :=
  match l with
  | [] => None
  | y :: ys => if String.eqb x y then Some 0%nat
               else option_map S (index_of x ys)
  end.

(** [_next_stage] *)
Definition _next_stage (current : string) : Result string :=
  match index_of current STAGE_ORDER with
  | None => Raise (ValueError ("'" ++ current ++ "' is not in list"))
  | Some idx =>
      if (idx + 1 <? length STAGE_ORDER)%nat
      then match STAGE_ORDER !! (idx + 1)%nat with
           | Some n => Ok n
           | None => Raise (mkExn "IndexError" "list index out of range")
           end
      else Ok "complete"
  end.

(** [_load_module]: the module is identified by its stage name. *)
Definition _load_module (stage_name : string) : Result string :=
  if String.eqb stage_name "ingestion" then Ok stage_name
  else if String.eqb stage_name "editing" then Ok stage_name
  else if String.eqb stage_name "mixing" then Ok stage_name
  else if String.eqb stage_name "mastering" then Ok stage_name
  else Raise (ValueError ("Unknown stage: " ++ stage_name)).

(** [stage.status == "completed" and stage.gate_approved is True] *)
Definition completed_and_approved (stage : StageStatus) : bool :=
  String.eqb (status stage) "completed"
  && match gate_approved stage with Some true => true | _ => false end.

(** [stage.status == "completed" and stage.gate_approved is None] *)
Definition completed_awaiting_gate (stage : StageStatus) : bool :=
  String.eqb (status stage) "completed"
  && match gate_approved stage with None => true | _ => false end.

(** [str(e)[:500]]: the first 500 code points. *)
Definition truncate_500 (s : pystr) : pystr := take 500 s.

Section WithManifest.
Context {Files Config : Type}.
Abbreviation Mf := (Manifest Files Config).
Abbreviation Cmd := (M Files Config).
Variable env : Env Files Config.

(** The approval branch shared by both gate presentations:
    [gate_approved = True], stamp, advance [current_stage], save. *)
Definition approve_stage (stage_name : string) (manifest : Mf) : Cmd Mf :=
  let! t := read_clock env in
  let manifest :=
    update_stage stage_name
      (fun s => set_gate_approved_at (Some t)
                  (set_gate_approved (Some true) s)) manifest in
  let! nxt := lift (_next_stage stage_name) in
  let manifest := set_current_stage nxt manifest in
  let! _ := save_manifest manifest in
  ret manifest.

(** [present_gate(project_root, manifest, stage_name)] *)
Definition ask_gate (stage_name : string) (manifest : Mf) : Cmd bool :=
  let! _ := emit (EvGate stage_name manifest) in
  ret (present_gate env stage_name manifest).

(** Lines 106-159: run one stage that is neither approved nor awaiting
    review. The result tells whether the loop goes on ([Some manifest])
    or the function returns ([None]). *)
Definition run_stage (stage_name : string) (manifest : Mf)
    : Cmd (option Mf) :=
  let! _ := lift (_load_module stage_name) in
  let! _ := emit (EvValidate stage_name manifest) in
  match validate_inputs env stage_name manifest with
  | _ :: _ =>
      raise (RuntimeError ("Input validation failed for " ++ stage_name))
  | [] =>
      (* Mark as in_progress *)
      let! t := read_clock env in
      let manifest :=
        set_current_stage stage_name
          (update_stage stage_name
             (fun s => set_error None
                         (set_started_at (Some t)
                            (set_status "in_progress" s))) manifest) in
      let! _ := save_manifest manifest in
      let! _ := emit (EvRun stage_name manifest) in
      let res := run env stage_name manifest in
      let manifest :=
        match checkpoint res with
        | Some c =>
            update_stage stage_name (set_last_completed_step (Some c))
              manifest
        | None => manifest
        end in
      match raised res with
      | Some e =>
          if exn_is_exception e then
            (* except Exception as e: *)
            let manifest :=
              update_stage stage_name
                (fun s =>
                   set_error
                     (Some (mkStageError (exn_type e)
                              (truncate_500 (exn_str e))
                              (last_completed_step s)))
                     (set_status "failed" s)) manifest in
            let! _ := save_manifest manifest in
            raise e
          else
            (* not caught: the exception leaves [run_pipeline] *)
            raise e
      | None =>
          (* Mark completed *)
          let! t := read_clock env in
          let manifest :=
            update_stage stage_name
              (fun s => set_completed_at (Some t)
                          (set_status "completed" s)) manifest in
          let! _ := save_manifest manifest in
          (* Present gate *)
          let! approved := ask_gate stage_name manifest in
          if approved then
            let! manifest := approve_stage stage_name manifest in
            ret (Some manifest)
          else
            let! _ := save_manifest manifest in
            ret None
      end
  end.

(** The body of [for stage_name in STAGE_ORDER[start_idx:]]:
    [Some manifest] when the loop goes on to the next stage, [None]
    when the function returns. *)
Definition loop_body (stage_name : string) (manifest : Mf)
    : Cmd (option Mf) :=
  let! stage := lift (get_stage manifest stage_name) in
  (* Skip completed + approved stages *)
  if completed_and_approved stage then ret (Some manifest)
  (* Present gate for completed but unapproved stages *)
  else if completed_awaiting_gate stage then
    let! approved := ask_gate stage_name manifest in
    if approved then
      let! manifest := approve_stage stage_name manifest in
      ret (Some manifest)
    else
      let! _ := save_manifest manifest in
      ret None
  (* Run the stage *)
  else run_stage stage_name manifest.

(** [for stage_name in STAGE_ORDER[start_idx:]] *)
Fixpoint run_stages (names : list string) (manifest : Mf) : Cmd unit :=
  match names with
  | [] => ret tt
  | stage_name :: rest =>
      let! next := loop_body stage_name manifest in
      match next with
      | Some manifest => run_stages rest manifest
      | None => ret tt
      end
  end.

(** [run_pipeline(manifest_path, from_stage=...)] *)
Definition run_pipeline (from_stage : option string) : Cmd unit :=
  let! manifest := load_manifest in
  let! start_idx :=
    match from_stage with
    | None | Some "" => ret 0%nat
    | Some stage =>
        match index_of stage STAGE_ORDER with
        | None => raise (ValueError ("Unknown stage: " ++ stage))
        | Some idx => ret idx
        end
    end in
  run_stages (drop start_idx STAGE_ORDER) manifest.
End WithManifest.
End Orchestrator.

(** ** pipeline/gate.py: [approve_gate] and [reject_gate] *)

Module Gate.
Import ManifestModel Runtime.
Local Open Scope pipeline_scope.

Definition GATE_ORDER : list string :=
  ["ingestion"; "editing"; "mixing"; "mastering"].

(** [if notes: stage.gate_notes = notes] *)
Definition record_notes (notes : option string) (s : StageStatus)
    : StageStatus :=
  match notes with
  | None | Some "" => s
  | Some n => set_gate_notes (Some n) s
  end.

Section WithManifest.
Context {Files Config : Type}.
Abbreviation Mf := (Manifest Files Config).
Abbreviation Cmd := (M Files Config).
Variable env : Env Files Config.

(** The [for stage_name in [...]] loop of [approve_gate]. *)
Fixpoint approve_loop (notes : option string) (names : list string)
    (manifest : Mf) : Cmd unit :=
  match names with
  | [] => raise (RuntimeError "No gate pending approval")
  | stage_name :: rest =>
      let! stage := lift (get_stage manifest stage_name) in
      if Orchestrator.completed_awaiting_gate stage then
        let! t := read_clock env in
        let manifest :=
          update_stage stage_name
            (fun s => record_notes notes
                        (set_gate_approved_at (Some t)
                           (set_gate_approved (Some true) s))) manifest in
        let! nxt := lift (Orchestrator._next_stage stage_name) in
        let manifest := set_current_stage nxt manifest in
        save_manifest manifest
      else approve_loop notes rest manifest
  end.

(** [approve_gate(manifest_path, notes=...)] *)
Definition approve_gate (notes : option string) : Cmd unit :=
  let! manifest := load_manifest in
  approve_loop notes GATE_ORDER manifest.

(** The [for stage_name in [...]] loop of [reject_gate]. *)
Fixpoint reject_loop (notes : option string) (names : list string)
    (manifest : Mf) : Cmd unit :=
  match names with
  | [] => raise (RuntimeError "No gate pending review")
  | stage_name :: rest =>
      let! stage := lift (get_stage manifest stage_name) in
      if Orchestrator.completed_awaiting_gate stage then
        let manifest :=
          update_stage stage_name
            (fun s => record_notes notes
                        (set_gate_approved None
                           (set_completed_at None
                              (set_started_at None
                                 (set_status "pending" s))))) manifest in
        let manifest := set_current_stage stage_name manifest in
        save_manifest manifest
      else reject_loop notes rest manifest
  end.

(** [reject_gate(manifest_path, notes=...)] *)
Definition reject_gate (notes : option string) : Cmd unit :=
  let! manifest := load_manifest in
  reject_loop notes GATE_ORDER manifest.
End WithManifest.
End Gate.

(** ** models/alignment.py *)

Module Alignment.

Record AlignedTrack := mkAlignedTrack {
  path : string;
  offset_ms : Q;
  duration_ms : Q;
  sample_rate : Z;
  channels : Z;
  is_reference : bool;
  alignment_confidence : option Q;
  alignment_method : option string
}.

Record CommonTimeline := mkCommonTimeline { start_ms : Q; end_ms : Q }.

Record AlignmentMap := mkAlignmentMap {
  version : string;
  reference_track : string;
  tracks : list AlignedTrack;
  common_timeline : CommonTimeline
}.

(** The loop of [AlignmentMap.get_track_offset]. *)
Fixpoint offset_in (ts : list AlignedTrack) (p : string) : Q :=
  match ts with
  | [] => 0%Q
  | track :: rest =>
      if String.eqb (path track) p then offset_ms track
      else offset_in rest p
  end.

(** [AlignmentMap.get_track_offset] *)
Definition get_track_offset (a : AlignmentMap) (p : string) : Q :=
  offset_in (tracks a) p.

End Alignment.

(** ** mixing/timeline.py *)

Module Timeline.

Record AudioRegion := mkAudioRegion {
  edit_id : string;
  track_path : string;
  source_start : Q;
  source_end : Q;
  record_start : Q;
  record_end : Q;
  speaker : string;
  offset_ms : Q
}.

(** [AudioRegion.duration] *)
Definition duration (r : AudioRegion) : Q :=
  (source_end r - source_start r)%Q.

(** [edit.speaker or ""] *)
Definition speaker_or_empty (e : Edl.Edit) : string :=
  match Edl.speaker e with Some s => s | None => "" end.

(** The body of [for edit in edl.keep_edits]. *)
Definition region_of (alignment : Alignment.AlignmentMap)
    (track_map : gmap string string) (edit : Edl.Edit) : AudioRegion :=
  let speaker := speaker_or_empty edit in
  let track_path :=
    match track_map !! speaker with Some p => p | None => "" end in
  let offset_ms :=
    if String.eqb track_path "" then 0%Q
    else Alignment.get_track_offset alignment track_path in
  mkAudioRegion (Edl.edit_id edit) track_path
    (Edl.source_start edit) (Edl.source_end edit)
    (q_or_0 (Edl.record_start edit)) (q_or_0 (Edl.record_end edit))
    speaker offset_ms.

(** [build_timeline] *)
Definition build_timeline (edl : Edl.EDLSidecar)
    (alignment : Alignment.AlignmentMap) (track_map : gmap string string)
    : list AudioRegion :=
  sorted_by record_start
    (map (region_of alignment track_map) (Edl.keep_edits edl)).

End Timeline.

(** ** mixing/extract.py *)

Module Extract.
Import Runtime.

(** The arguments of one [extract_region] call (one FFmpeg run). *)
Record ExtractCall := mkExtractCall {
  input_path : string;
  output_path : string;
  start : Q;
  call_duration : Q;
  sample_rate : Z;
  channels : Z;
  bit_depth : Z
}.

(** [f"{n:04d}"] *)
Definition fmt_04d (n : nat) : string :=
  let d := pretty n in
  match String.length d with
  | 1%nat => "000" ++ d
  | 2%nat => "00" ++ d
  | 3%nat => "0" ++ d
  | _ => d
  end.

(** The local state of the loop: the [extracted] dict and the FFmpeg runs
    made so far (oldest first). *)
Record ExtractState := mkExtractState {
  extracted : gmap string string;
  calls : list ExtractCall
}.

Section WithFilesystem.
(** [dir / name] of [pathlib], as the [str] of the resulting path (an
    absolute [name] replaces [dir], and the result is normalised);
    [Path.exists] on such a path; and the outcome of an FFmpeg run
    ([Some e]: it raised). *)
Variable path_join : string -> string -> string.
Variable path_exists : string -> bool.
Variable ffmpeg : ExtractCall -> option PyExn.
Variables (project_root tmp_dir : string) (rate depth : Z).

(** One iteration of [for i, region in enumerate(regions)]: the state
    after it and the exception it raised, if any. *)
Definition extract_step (st : ExtractState)
    (i : nat) (region : Timeline.AudioRegion)
    : ExtractState * option PyExn :=
  if String.eqb (Timeline.track_path region) "" then (st, None)
  else
    let track_path := path_join project_root (Timeline.track_path region) in
    if negb (path_exists track_path) then
      (st, Some (mkExn "FileNotFoundError"
                   ("Source track not found: " ++ track_path)))
    else
      let output_path :=
        path_join tmp_dir ("region-" ++ fmt_04d i ++ ".wav") in
      let adjusted_start :=
        (Timeline.source_start region
         + Timeline.offset_ms region / 1000)%Q in
      let adjusted_start :=
        if Qlt_bool adjusted_start 0 then 0%Q else adjusted_start in
      let call :=
        mkExtractCall track_path output_path adjusted_start
          (Timeline.duration region) rate 1 depth in
      match ffmpeg call with
      | Some e =>
          (mkExtractState (extracted st) (calls st ++ [call]), Some e)
      | None =>
          (mkExtractState
             (<[Timeline.edit_id region := output_path]> (extracted st))
             (calls st ++ [call]), None)
      end.

(** The loop over [enumerate(regions)], from index [i] on. *)
Fixpoint extract_loop (st : ExtractState) (i : nat)
    (regions : list Timeline.AudioRegion)
    : ExtractState * option PyExn :=
  match regions with
  | [] => (st, None)
  | region :: rest =>
      match extract_step st i region with
      | (st', None) => extract_loop st' (S i) rest
      | (st', Some e) => (st', Some e)
      end
  end.

(** [extract_regions]: the returned dict is [extracted] of the final
    state when nothing was raised. *)
Definition extract_regions (regions : list Timeline.AudioRegion)
    : ExtractState * option PyExn :=
  extract_loop (mkExtractState ∅ []) 0 regions.
End WithFilesystem.
End Extract.

(** ** models/context.py *)

Module Context.

Record Topic := mkTopic {
  topic_name : string;
  start_segment : option string;
  end_segment : option string;
  start_time : Q;
  end_time : Q;
  topic_description : string
}.

Record ProperNoun := mkProperNoun {
  noun_text : string;
  category : string;
  occurrences : Z
}.

Record StructuralSegment := mkStructuralSegment {
  structural_type : string;
  label : option string;
  structural_start_time : Q;
  structural_end_time : Q;
  structural_confidence : option Q
}.

Record KeyQuote := mkKeyQuote {
  quote_speaker : string;
  quote_text : string;
  quote_time : Q;
  quote_segment : option string
}.

Record ContextMetadata := mkContextMetadata {
  llm_model : string;
  prompt_tokens : Z;
  completion_tokens : Z;
  processing_time_seconds : Q
}.

Record ContextDocument := mkContextDocument {
  version : string;
  episode_summary : string;
  topics : list Topic;
  proper_nouns : list ProperNoun;
  structural_segments : list StructuralSegment;
  key_quotes : list KeyQuote;
  metadata : ContextMetadata
}.

End Context.

(** ** editing/chapters.py: [generate_chapters] *)

Module ChapterMarkers.
Import Edl Context.

(** A chapter marker, [{"title": ..., "time": ...}]. *)
Record Chapter := mkChapter { ch_title : string; ch_time : Q }.

Definition INTRODUCTION : Chapter := mkChapter "Introduction" 0.

(** The [for topic in context.topics] loop: the markers appended after the
    introduction. *)
Fixpoint topic_chapters (tps : list Topic) (cut_edits : list Edit)
    : list Chapter :=
  match tps with
  | [] => []
  | topic :: rest =>
      match Chapters._map_to_edited_timeline (start_time topic) cut_edits with
      | Some edited_time =>
          if Qlt_bool 0 edited_time
          then mkChapter (topic_name topic) edited_time
               :: topic_chapters rest cut_edits
          else topic_chapters rest cut_edits
      | None => topic_chapters rest cut_edits
      end
  end.

(** The [for ch in chapters[1:]] loop; [last] is [deduped[-1]] and the
    result is what the loop appends to [deduped]. *)
Fixpoint dedupe_loop (last : Chapter) (chs : list Chapter) : list Chapter :=
  match chs with
  | [] => []
  | ch :: rest =>
      if Qle_bool 30 (ch_time ch - ch_time last)
      then ch :: dedupe_loop ch rest
      else dedupe_loop last rest
  end.

(** [generate_chapters]; [total_duration] is not used by the source. *)
Definition generate_chapters (context : option ContextDocument)
    (cut_edits : list Edit) (total_duration : Q) : list Chapter :=
  match context with
  | None => [INTRODUCTION]
  | Some ctx =>
      match topics ctx with
      | [] => [INTRODUCTION]
      | tps =>
          INTRODUCTION :: dedupe_loop INTRODUCTION (topic_chapters tps cut_edits)
      end
  end.

End ChapterMarkers.

(** ** editing/silence.py *)

Module Silence.
Import Edl Transcript.

Section WithFormatting.
(** Python's [f"{x:.0f}"]; it only feeds the [rationale] text. *)
Variable fmt_0f : Q -> string.

(** The [Edit(...)] appended for a gap. *)
Definition silence_edit (edit_counter : nat) (seg : Segment)
    (trim_start trim_end gap_ms target_ms : Q) (between_speakers : bool)
    : Edit :=
  mkEdit ("silence-" ++ EdlBuilder.fmt_03d edit_counter) "cut"
    (match seg_source_track seg with Some t => t | None => "" end)
    trim_start trim_end None None "cut" None ""
    (Some "silence") (Some 1%Q)
    (Some ("Silence trimmed: " ++ fmt_0f gap_ms ++ "ms → "
           ++ fmt_0f target_ms ++ "ms ("
           ++ (if between_speakers then "between speakers"
               else "same speaker") ++ ")"))
    [] true None.

(** The [for i in range(len(segments) - 1)] loop, from the pair that
    starts [segs] on; the result is what the loop appends to [edits]. *)
Fixpoint silence_loop (min_duration_ms keep_ms speaker_turn_pause_ms : Q)
    (segs : list Segment) (edit_counter : nat) : list Edit :=
  match segs with
  | seg :: (next :: _) as rest =>
      let gap_start := seg_end seg in
      let gap_end := seg_start next in
      let gap_ms := ((gap_end - gap_start) * 1000)%Q in
      if Qle_bool gap_ms min_duration_ms then
        silence_loop min_duration_ms keep_ms speaker_turn_pause_ms rest
          edit_counter
      else
        let between_speakers :=
          negb (String.eqb (seg_speaker seg) (seg_speaker next)) in
        let target_ms :=
          if between_speakers then speaker_turn_pause_ms else keep_ms in
        let trim_start := (gap_start + target_ms / 1000)%Q in
        let trim_end := gap_end in
        if Qle_bool trim_end trim_start then
          silence_loop min_duration_ms keep_ms speaker_turn_pause_ms rest
            edit_counter
        else
          silence_edit (S edit_counter) seg trim_start trim_end gap_ms
            target_ms between_speakers
          :: silence_loop min_duration_ms keep_ms speaker_turn_pause_ms rest
               (S edit_counter)
  | _ => []
  end.

(** [detect_silences] *)
Definition detect_silences (segs : list Segment)
    (min_duration_ms keep_ms speaker_turn_pause_ms : Q) : list Edit :=
  silence_loop min_duration_ms keep_ms speaker_turn_pause_ms segs 0.

End WithFormatting.
End Silence.

(** ** mixing/module.py: the speaker-to-track table of [MixingModule.run] *)

Module MixingModule.
Import ManifestModel.

(** [track_map = {}; for p in manifest.project.participants:
     track_map[p.name] = p.track] *)
Definition build_track_map (ps : list Participant) : gmap string string :=
  fold_left
    (fun track_map p =>
       <[participant_name p := participant_track p]> track_map)
    ps ∅.

End MixingModule.

(** ** editing/filler.py: [detect_false_starts] *)

Module FalseStart.
Import Edl Transcript.

Section WithStrings.
(** Python's [f"{x:.0f}"] and [str.split()]; the first only feeds the
    [rationale] text, the second counts the words of a segment that
    carries no word list. *)
Variable fmt_0f : Q -> string.
Variable split : string -> list string.

(** [Segment.word_count] (models/transcript.py) *)
Definition word_count (s : Segment) : nat :=
  match seg_words s with
  | [] => length (split (seg_text s))
  | ws => length ws
  end.

(** The [Edit(...)] appended for a false start. *)
Definition false_start_edit (edit_counter : nat) (seg : Segment)
    (gap_ms : Q) : Edit :=
  mkEdit ("false-start-" ++ EdlBuilder.fmt_03d edit_counter) "cut"
    (match seg_source_track seg with Some t => t | None => "" end)
    (seg_start seg) (seg_end seg) None None "cut" None ""
    (Some "false_start") (Some (85 # 100))
    (Some ("False start (" ++ pretty (word_count seg) ++ " words, "
           ++ fmt_0f gap_ms ++ "ms gap): '" ++ seg_text seg ++ "'"))
    [seg_id seg] true None.

(** The [for i in range(len(segments) - 1)] loop, from the pair that
    starts [segs] on; the result is what the loop appends to [edits]. *)
Fixpoint false_start_loop (min_gap_ms : Q) (segs : list Segment)
    (edit_counter : nat) : list Edit :=
  match segs with
  | seg :: (next_seg :: _) as rest =>
      if negb (String.eqb (seg_speaker seg) (seg_speaker next_seg)) then
        false_start_loop min_gap_ms rest edit_counter
      else if (3 <? word_count seg)%nat then
        false_start_loop min_gap_ms rest edit_counter
      else
        let gap_ms := ((seg_start next_seg - seg_end seg) * 1000)%Q in
        if Qlt_bool gap_ms min_gap_ms then
          false_start_loop min_gap_ms rest edit_counter
        else
          false_start_edit (S edit_counter) seg gap_ms
          :: false_start_loop min_gap_ms rest (S edit_counter)
  | _ => []
  end.

(** [detect_false_starts] *)
Definition detect_false_starts (segs : list Segment) (min_gap_ms : Q)
    (enabled : bool) : list Edit :=
  if negb enabled then [] else false_start_loop min_gap_ms segs 0.

End WithStrings.
End FalseStart.

(** ** editing/edl_builder.py: [_seconds_to_tc] *)

Module Timecode.

(** [int(x)] of a float: truncation towards zero. *)
Definition py_int (x : Q) : Z := Z.quot (Qnum x) (Zpos (Qden x)).

(** [f"{n:02d}"] *)
Definition fmt_02d (n : Z) : string :=
  let d := pretty n in
  match String.length d with
  | 1%nat => "0" ++ d
  | _ => d
  end.

Section WithArith.
Context {F : Type} {arith : Fp.Arith F}.

(** The four numbers of [_seconds_to_tc], as [(hh, mm, ss, ff)]. [int]
    raises on an infinite product or NaN, [%] and [//] by [fps = 0] raise
    [ZeroDivisionError]. *)
Definition tc_fields (seconds : F) (fps : Z) : option (Z * Z * Z * Z) :=
  match Fp.trunc (Fp.mul seconds (Fp.of_int fps)) with
  | None => None
  | Some total_frames =>
      if (fps =? 0)%Z then None
      else
        let ff := (total_frames mod fps)%Z in
        let total_seconds := (total_frames / fps)%Z in
        let ss := (total_seconds mod 60)%Z in
        let mm := ((total_seconds / 60) mod 60)%Z in
        let hh := (total_seconds / 3600)%Z in
        Some (hh, mm, ss, ff)
  end.

(** [_seconds_to_tc] *)
Definition _seconds_to_tc (seconds : F) (fps : Z) : option string :=
  match tc_fields seconds fps with
  | Some (hh, mm, ss, ff) =>
      Some (fmt_02d hh ++ ":" ++ fmt_02d mm ++ ":" ++ fmt_02d ss ++ ":"
            ++ fmt_02d ff)
  | None => None
  end.
End WithArith.

End Timecode.

(** ** editing/module.py: [_build_rationale] *)

Module Rationale.
Import Edl.

Record Breakdown := mkBreakdown {
  count : nat;
  time_removed : Q
}.

Record Summary := mkSummary {
  total_edits : nat;
  auto_applied_count : nat;
  flagged_for_review : nat;
  summary_time_removed_seconds : Q;
  filler_removal : Breakdown;
  false_start_removal : Breakdown;
  silence_removal : Breakdown;
  tangent_removal : Breakdown
}.

Record Entry := mkEntry {
  entry_edit_id : string;
  entry_type : string;
  entry_time : string;
  entry_duration : string;
  entry_confidence : option Q;
  entry_rationale : option string;
  entry_auto_applied : bool
}.

Record RationaleLog := mkRationaleLog {
  rationale_version : string;
  summary : Summary;
  rationale_edits : list Entry
}.

Section WithFormatting.
(** Python's [f"{x:.1f}"]; it only feeds the [duration] text. *)
Variable fmt_1f : Q -> string.

(** [sum(1 for e in l if p(e))] *)
Definition count_if (p : Edit -> bool) (l : list Edit) : nat :=
  fold_left (fun n e => if p e then S n else n) l 0%nat.

(** [{"count": len(l), "time_removed": sum(e.duration for e in l)}] *)
Definition breakdown_of (l : list Edit) : Breakdown :=
  mkBreakdown (length l) (qsum (map duration l)).

(** [f"{int(t)//60:02d}:{int(t)%60:02d}"] *)
Definition mm_ss (t : Q) : string :=
  Timecode.fmt_02d (Timecode.py_int t / 60)
  ++ ":" ++ Timecode.fmt_02d (Timecode.py_int t mod 60).

Definition entry_of (e : Edit) : Entry :=
  mkEntry (edit_id e)
    (match reason e with
     | Some r => if String.eqb r "" then "unknown" else r
     | None => "unknown"
     end)
    (mm_ss (source_start e) ++ " - " ++ mm_ss (source_end e))
    (fmt_1f (duration e) ++ "s")
    (confidence e) (rationale e) (auto_applied e).

(** [_build_rationale] *)
Definition _build_rationale
    (all_cuts fillers false_starts silences tangents : list Edit)
    : RationaleLog :=
  mkRationaleLog "1.0"
    (mkSummary (length all_cuts)
       (count_if auto_applied all_cuts)
       (count_if (fun e => negb (auto_applied e)) all_cuts)
       (qsum (map duration all_cuts))
       (breakdown_of fillers) (breakdown_of false_starts)
       (breakdown_of silences) (breakdown_of tangents))
    (map entry_of all_cuts).

(** Lines 101-157 of [EditingModule.run]: the rationale log of the cuts
    of the four detectors after the cap. The four lists hold the objects
    of [all_cuts]; [_build_rationale] reads only their number and their
    [duration], which the cap leaves as they are. *)
Definition run_rationale (total_duration : Q)
    (filler_edits false_start_edits silence_edits tangent_edits
       : list Edit) : RationaleLog :=
  let all_cuts :=
    EditingModule.cap_auto_cuts total_duration
      (filler_edits ++ false_start_edits ++ silence_edits
       ++ tangent_edits)%list in
  _build_rationale all_cuts filler_edits false_start_edits silence_edits
    tangent_edits.

End WithFormatting.
End Rationale.

(** * The cap and the timeline builder in floating point

    The safety cap of [EditingModule.run] and [build_edl] once more, with
    the seconds as floats: claims C1 to C3 speak of sums of durations,
    and what the code computes for them depends on the rounding. *)

(** ** models/edl.py and models/transcript.py, seconds as floats *)

Module FloatEdl.

Section WithArith.
Context {F : Type} {arith : Fp.Arith F}.

(** A confidence is only compared and negated, which is exact on floats:
    it is kept as the rational number it denotes. *)
Record Edit := mkEdit {
  edit_id : string;
  edit_type : string;               (* keep | cut *)
  source_track : string;
  source_start : F;
  source_end : F;
  record_start : option F;
  record_end : option F;
  transition : string;              (* cut | crossfade *)
  speaker : option string;
  description : string;
  reason : option string;
  confidence : option Q;
  rationale : option string;
  segments : list string;
  auto_applied : bool;
  review_flag : option string
}.

(** [Edit.duration] *)
Definition duration (e : Edit) : F :=
  Fp.sub (source_end e) (source_start e).

(** [edit.auto_applied = b] *)
Definition set_auto_applied (b : bool) (e : Edit) : Edit :=
  mkEdit (edit_id e) (edit_type e) (source_track e) (source_start e)
    (source_end e) (record_start e) (record_end e) (transition e)
    (speaker e) (description e) (reason e) (confidence e) (rationale e)
    (segments e) b (review_flag e).

(** [edit.review_flag = f] *)
Definition set_review_flag (f : option string) (e : Edit) : Edit :=
  mkEdit (edit_id e) (edit_type e) (source_track e) (source_start e)
    (source_end e) (record_start e) (record_end e) (transition e)
    (speaker e) (description e) (reason e) (confidence e) (rationale e)
    (segments e) (auto_applied e) f.

Record EDLSidecar := mkEDLSidecar {
  version : string;
  episode_id : string;
  original_duration_seconds : F;
  edited_duration_seconds : F;
  time_removed_seconds : F;
  time_removed_percent : F;
  edl_frame_rate : Z;
  edl_mode : string;
  edits : list Edit;
  transitions : list Edl.Transition
}.

(** [EDLSidecar.keep_edits] *)
Definition keep_edits (s : EDLSidecar) : list Edit :=
  List.filter (fun e => String.eqb (edit_type e) "keep") (edits s).

(** [EDLSidecar.cut_edits] *)
Definition cut_edits (s : EDLSidecar) : list Edit :=
  List.filter (fun e => String.eqb (edit_type e) "cut") (edits s).

Record Word := mkWord {
  word : string;
  word_start : F;
  word_end : F;
  word_confidence : F
}.

Record Segment := mkSegment {
  seg_id : string;
  seg_speaker : string;
  seg_start : F;
  seg_end : F;
  seg_text : string;
  seg_words : list Word;
  seg_source_track : option string
}.

(** [Segment.duration] *)
Definition seg_duration (s : Segment) : F :=
  Fp.sub (seg_end s) (seg_start s).

(** [sorted(l, key=key)] for a float key that is not NaN. *)
Definition sorted_by_float {A : Type} (key : A -> F) (l : list A)
    : list A :=
  stable_sort (fun x y => Fp.le (key x) (key y)) l.

End WithArith.

Arguments Edit : clear implicits.
Arguments EDLSidecar : clear implicits.
Arguments Word : clear implicits.
Arguments Segment : clear implicits.
End FloatEdl.

(** ** editing/module.py: the auto-cut safety cap, seconds as floats *)

Module FloatEditingModule.
Import FloatEdl.

Section WithArith.
Context {F : Type} {arith : Fp.Arith F}.

(** [sum(e.duration for e in all_cuts if e.auto_applied)] *)
Definition auto_cut_time (all_cuts : list (Edit F)) : F :=
  Fp.fsum (map duration (List.filter auto_applied all_cuts)).

(** [-(e.confidence or 0)] *)
Definition neg_confidence (e : Edit F) : Q :=
  (- q_or_0 (confidence e))%Q.

(** The key of the object that reference [r] points to. *)
Definition ref_key (all_cuts : list (Edit F)) (r : nat) : Q :=
  match all_cuts !! r with Some e => neg_confidence e | None => 0%Q end.

(** [sorted(all_cuts, key=lambda e: -(e.confidence or 0))] as a list of
    references (positions in [all_cuts]) to the same objects. *)
Definition sorted_refs (all_cuts : list (Edit F)) : list nat :=
  sorted_by (ref_key all_cuts) (seq 0 (length all_cuts)).

(** The [for edit in sorted(...)] loop; [all_cuts] is the store of edit
    objects, updated in place. *)
Fixpoint cap_loop (budget : F) (refs : list nat) (used : F)
    (all_cuts : list (Edit F)) : F * list (Edit F) :=
  match refs with
  | [] => (used, all_cuts)
  | r :: rest =>
      match all_cuts !! r with
      | None => cap_loop budget rest used all_cuts
      | Some edit =>
          if auto_applied edit then
            if Fp.le (Fp.add used (duration edit)) budget then
              cap_loop budget rest (Fp.add used (duration edit)) all_cuts
            else
              cap_loop budget rest used
                (<[r := set_review_flag (Some EditingModule.BUDGET_FLAG)
                          (set_auto_applied false edit)]> all_cuts)
          else cap_loop budget rest used all_cuts
      end
  end.

(** Lines 104-122 of [EditingModule.run]: [all_cuts] after the cap. *)
Definition cap_auto_cuts (total_duration : F) (all_cuts : list (Edit F))
    : list (Edit F) :=
  if Fp.lt Fp.zero total_duration
     && Fp.lt Fp.half (Fp.div (auto_cut_time all_cuts) total_duration)
  then
    let budget := Fp.mul total_duration Fp.half in
    snd (cap_loop budget (sorted_refs all_cuts) Fp.zero all_cuts)
  else all_cuts.

End WithArith.
End FloatEditingModule.

(** ** editing/edl_builder.py: [build_edl], seconds as floats *)

Module FloatEdlBuilder.
Import FloatEdl.

Section WithArith.
Context {F : Type} {arith : Fp.Arith F}.
(** Python's float formatting [f"{x:.0f}"] and [round(x, 1)]; they only
    feed the [description] and [time_removed_percent] fields. *)
Variable fmt_0f : F -> string.
Variable round1 : F -> F.

(** [_summarize_region] *)
Definition _summarize_region (segs : list (Segment F)) : string :=
  match segs with
  | [] => ""
  | s0 :: rest =>
      let speakers :=
        stable_sort String.leb (remove_dups (map seg_speaker segs)) in
      let duration :=
        match rest with
        | [] => seg_duration s0
        | _ => Fp.sub (seg_end (List.last segs s0)) (seg_start s0)
        end in
      String.concat ", " speakers ++ " (" ++ fmt_0f duration ++ "s)"
  end.

(** [region_segments[0].speaker if region_segments else ""] *)
Definition first_speaker (region_segments : list (Segment F)) : string :=
  match region_segments with s :: _ => seg_speaker s | [] => "" end.

(** The local variables of the [for cut in cuts] loop. *)
Record LoopState := mkLoopState {
  ls_keep_edits : list (Edit F);
  ls_keep_counter : nat;
  ls_current_pos : F;
  ls_record_pos : F
}.

(** The keep edit appended by either branch; [duration] is the local
    variable of that name. *)
Definition make_keep (keep_counter : nat) (src_start src_end rec_pos : F)
    (trans : string) (region_segments : list (Segment F)) : Edit F :=
  let duration := Fp.sub src_end src_start in
  mkEdit ("keep-" ++ EdlBuilder.fmt_03d keep_counter) "keep" ""
    src_start src_end
    (Some rec_pos) (Some (Fp.add rec_pos duration))
    trans
    (Some (first_speaker region_segments))
    (_summarize_region region_segments)
    None None None
    (map seg_id region_segments)
    false None.

(** One iteration of [for cut in cuts]. *)
Definition cut_step (segs : list (Segment F)) (st : LoopState)
    (cut : Edit F) : LoopState :=
  if Fp.lt (ls_current_pos st) (source_start cut) then
    let duration := Fp.sub (source_start cut) (ls_current_pos st) in
    let keep_counter := S (ls_keep_counter st) in
    let region_segments :=
      List.filter
        (fun s => Fp.le (ls_current_pos st) (seg_start s)
                  && Fp.le (seg_end s) (source_start cut)) segs in
    let keep :=
      make_keep keep_counter (ls_current_pos st) (source_start cut)
        (ls_record_pos st)
        (if Nat.eqb keep_counter 1 then "cut" else "crossfade")
        region_segments in
    mkLoopState (ls_keep_edits st ++ [keep])%list keep_counter
      (source_end cut) (Fp.add (ls_record_pos st) duration)
  else
    mkLoopState (ls_keep_edits st) (ls_keep_counter st)
      (source_end cut) (ls_record_pos st).

(** The final keep region after the last cut. *)
Definition final_step (segs : list (Segment F)) (total_duration : F)
    (st : LoopState) : LoopState :=
  if Fp.lt (ls_current_pos st) total_duration then
    let duration := Fp.sub total_duration (ls_current_pos st) in
    let keep_counter := S (ls_keep_counter st) in
    let region_segments :=
      List.filter (fun s => Fp.le (ls_current_pos st) (seg_start s))
        segs in
    let keep :=
      make_keep keep_counter (ls_current_pos st) total_duration
        (ls_record_pos st) "crossfade" region_segments in
    mkLoopState (ls_keep_edits st ++ [keep])%list keep_counter
      (ls_current_pos st) (Fp.add (ls_record_pos st) duration)
  else st.

(** [for i in range(len(keep_edits) - 1)] *)
Fixpoint build_transitions (crossfade_duration_ms : Z)
    (keeps : list (Edit F)) : list Edl.Transition :=
  match keeps with
  | a :: (b :: _) as rest =>
      Edl.mkTransition [edit_id a; edit_id b] "crossfade"
        crossfade_duration_ms
      :: build_transitions crossfade_duration_ms rest
  | _ => []
  end.

(** [segments[-1].end if segments else 0] *)
Definition total_duration_of (segs : list (Segment F)) : F :=
  match List.rev segs with s :: _ => seg_end s | [] => Fp.zero end.

(** The keep edits and cursors after both phases. *)
Definition keep_phase (segs : list (Segment F))
    (cut_edits : list (Edit F)) : LoopState :=
  let cuts := sorted_by_float source_start cut_edits in
  final_step segs (total_duration_of segs)
    (fold_left (cut_step segs) cuts
       (mkLoopState [] 0 Fp.zero Fp.zero)).

(** [build_edl] *)
Definition build_edl (segs : list (Segment F))
    (cut_edits : list (Edit F)) (episode_id : string) (frame_rate : Z)
    (crossfade_duration_ms : Z) : EDLSidecar F :=
  let total_duration := total_duration_of segs in
  let cuts := sorted_by_float source_start cut_edits in
  let st := keep_phase segs cut_edits in
  let keep_edits := ls_keep_edits st in
  let transitions := build_transitions crossfade_duration_ms keep_edits in
  let all_edits := (keep_edits ++ cuts)%list in
  let edited_duration := ls_record_pos st in
  let time_removed := Fp.sub total_duration edited_duration in
  let time_removed_pct :=
    if Fp.lt Fp.zero total_duration
    then Fp.mul (Fp.div time_removed total_duration) (Fp.of_int 100)
    else Fp.zero in
  mkEDLSidecar "1.0" episode_id total_duration edited_duration
    time_removed (round1 time_removed_pct) frame_rate "NON-DROP FRAME"
    all_edits transitions.

End WithArith.
End FloatEdlBuilder.

(** * Definitions used to state the properties *)

Local Open Scope list_scope.

(** [chain le l]: adjacent elements of [l] are in the order [le]. *)
Fixpoint chain {A : Type} (le : A -> A -> bool) (l : list A) : Prop :=
  match l with
  | x :: (y :: _) as rest => le x y = true /\ chain le rest
  | _ => True
  end.

(** ** The auto-cut cap *)

Module EditingProps.
Import Edl EditingModule.

(** What the cap does to an edit it demotes. *)
Definition demote (e : Edit) : Edit :=
  set_review_flag (Some BUDGET_FLAG) (set_auto_applied false e).

(** The auto-applied cut time contributed by the object at [r]. *)
Definition contrib (all_cuts : list Edit) (r : nat) : Q :=
  match all_cuts !! r with
  | Some e => if auto_applied e then duration e else 0%Q
  | None => 0%Q
  end.

(** The auto-applied cut time of the objects referenced by [refs]. *)
Fixpoint auto_time_at (all_cuts : list Edit) (refs : list nat) : Q :=
  match refs with
  | [] => 0%Q
  | r :: rest => (contrib all_cuts r + auto_time_at all_cuts rest)%Q
  end.

(** A cut proposal as the detectors build it. *)
Definition cut_edit (i : string) (s e : Q) (c : option Q) (a : bool)
    : Edit :=
  mkEdit i "cut" "" s e None None "cut" None "" (Some "filler") c None []
    a None.

(** Three auto-applied cuts of 40 s, 20 s and 5 s on a 100 s episode. *)
Definition three_cuts : list Edit :=
  [cut_edit "cut-001" 0 40 (Some (9#10)) true;
   cut_edit "cut-002" 40 60 (Some (8#10)) true;
   cut_edit "cut-003" 60 65 (Some (7#10)) true].
End EditingProps.


(** ** Chapter-time remapping *)

Module ChaptersProps.
Import Edl.

(** [t] falls strictly inside the cut [c]. *)
Definition strictly_inside (t : Q) (c : Edit) : Prop :=
  (source_start c < t)%Q /\ (t < source_end c)%Q.

(** The cuts that end at or before [t]. *)
Definition cuts_before (t : Q) (cuts : list Edit) : list Edit :=
  List.filter (fun c => Qle_bool (source_end c) t) cuts.

(** Two cuts, [10, 20] and [30, 45]. *)
Definition two_cuts : list Edit :=
  [EditingProps.cut_edit "cut-001" 10 20 (Some (9#10)) true;
   EditingProps.cut_edit "cut-002" 30 45 (Some (8#10)) false].
End ChaptersProps.

(** ** The timeline builder *)

Module EdlProps.
Import Edl Transcript.

(** The cuts are in source order, do not overlap and lie in
    [[lo, total]]: [lo <= start_1 <= end_1 <= start_2 <= ... <= total]. *)
Fixpoint cuts_within (lo total : Q) (cuts : list Edit) : Prop :=
  match cuts with
  | [] => (lo <= total)%Q
  | c :: rest =>
      (lo <= source_start c)%Q /\ (source_start c <= source_end c)%Q
      /\ cuts_within (source_end c) total rest
  end.

(** The keeps occupy the record timeline from [first] to [last] without
    gap or overlap, each for exactly its source duration. *)
Fixpoint tiles (first : Q) (keeps : list Edit) (last : Q) : Prop :=
  match keeps with
  | [] => first = last
  | k :: rest =>
      record_start k = Some first
      /\ record_end k = Some (first + duration k)%Q
      /\ tiles (first + duration k)%Q rest last
  end.

(** A transcript of one 1800-second segment, and the three cuts of the
    specification's scenario (100 s, 200 s and 50 s). *)
Definition one_segment : list Segment :=
  [mkSegment "seg-001" "Alice" 0 1800 "hello" [] None].

Definition scenario_cuts : list Edit :=
  [EditingProps.cut_edit "cut-001" 100 200 (Some (9#10)) true;
   EditingProps.cut_edit "cut-002" 500 700 (Some (8#10)) true;
   EditingProps.cut_edit "cut-003" 1000 1050 (Some (7#10)) false].

(** Stand-ins for Python's float formatting where a run needs them. *)
Definition no_fmt (q : Q) : string := "".
Definition no_round (q : Q) : Q := q.
End EdlProps.

(** ** The gate controller and the orchestrator *)

Module PipelineProps.
Import ManifestModel Runtime.

(** A stage that is completed and not yet reviewed. *)
Definition awaiting (st : StageStatus) : Prop :=
  status st = "completed" /\ gate_approved st = None.

(** [if notes:] keeps the old notes for [None] and for the empty string. *)
Definition notes_after (notes : option string) (st : StageStatus)
    : option string :=
  match notes with
  | Some n => if String.eqb n "" then gate_notes st else Some n
  | None => gate_notes st
  end.

(** The stage record after an approval at time [t]. *)
Definition approved_stage (t : datetime) (notes : option string)
    (st : StageStatus) : StageStatus :=
  mkStageStatus (status st) (started_at st) (completed_at st)
    (Some true) (Some t) (notes_after notes st)
    (error st) (last_completed_step st) (artifact_checksums st).

(** The stage record after a rejection. *)
Definition rejected_stage (notes : option string) (st : StageStatus)
    : StageStatus :=
  mkStageStatus "pending" None None
    None (gate_approved_at st) (notes_after notes st)
    (error st) (last_completed_step st) (artifact_checksums st).

Section WithManifest.
Context {Files Config : Type}.
Implicit Type m : Manifest Files Config.

(** The manifest with the record of stage [s] replaced and
    [current_stage] set. *)
Definition with_stage m (s : string) (st : StageStatus) (cur : string)
    : Manifest Files Config :=
  mkManifest (version m) (project m) (files m)
    (mkPipeline cur (<[s := st]> (stages (pipeline m))))
    (config m).

(** Every stage named in [names] is present and not awaiting review. *)
Definition none_awaiting m (names : list string) : Prop :=
  Forall (fun n => exists st, stage_of m n = Some st /\ ~ awaiting st)
    names.

(** [s], with record [st], is the first stage of [pre ++ s :: post]
    awaiting review. *)
Definition first_awaiting m (pre : list string) (s : string)
    (st : StageStatus) : Prop :=
  none_awaiting m pre /\ stage_of m s = Some st /\ awaiting st.

(** [gate_approved] of stage [n] is [True]. *)
Definition approved_in m (n : string) : Prop :=
  exists st, stage_of m n = Some st /\ gate_approved st = Some true.

(** Stage [n] has [status = in_progress]. *)
Definition in_progress_in m (n : string) : Prop :=
  exists st, stage_of m n = Some st /\ status st = "in_progress".

(** [m'] has the stage records of [m] except perhaps that of [n]. *)
Definition same_elsewhere m m' (n : string) : Prop :=
  forall a, a <> n -> stage_of m' a = stage_of m a.

(** [m'] records the failure of stage [s], whose module was run on
    [mr], left the checkpoint of [res] and raised [e]. *)
Definition failure_recorded (res : ModuleResult) (e : PyExn)
    (mr m' : Manifest Files Config) (s : string) : Prop :=
  exists st st',
    stage_of mr s = Some st /\ stage_of m' s = Some st'
    /\ status st' = "failed"
    /\ error st'
       = Some (mkStageError (exn_type e) (take 500 (exn_str e))
                 (match checkpoint res with
                  | Some c => Some c
                  | None => last_completed_step st
                  end)).

(** What a module run that raised [e] leaves behind: was [e] caught, the
    interactions [evs] end with the module run and the save of the
    failure record; was it not (no [Exception]), they end with the module
    run and the manifest file is still the one the module was started
    on. *)
Definition after_raise (res : ModuleResult) (e : PyExn)
    (mr : Manifest Files Config) (s : string)
    (evs : list (Event Files Config)) (m' : Manifest Files Config)
    : Prop :=
  if exn_is_exception e then
    (exists evs0, evs = evs0 ++ [EvRun s mr; EvSave m'])
    /\ failure_recorded res e mr m' s
  else
    (exists evs0, evs = evs0 ++ [EvRun s mr]) /\ m' = mr.
End WithManifest.

(** Where [run_pipeline] starts walking [STAGE_ORDER]; [None] is the
    unknown [from_stage]. *)
Definition start_index (from_stage : option string) : option nat :=
  match from_stage with
  | None | Some "" => Some 0%nat
  | Some stage => Orchestrator.index_of stage Orchestrator.STAGE_ORDER
  end.

(** *** Sample manifests (no path table, no configuration) *)

Definition sample_project : Project :=
  mkProject "Sample Show" 1 "Pilot" "2024-01-01"
    [mkParticipant "Alice" "host" "tracks/alice.wav"].

Definition completed_stage : StageStatus :=
  mkStageStatus "completed" (Some 10%Z) (Some 20%Z) None None None None
    (Some "context") ∅.

Definition sample_manifest (stgs : gmap string StageStatus) (cur : string)
    : Manifest unit unit :=
  mkManifest "1.0" sample_project tt (mkPipeline cur stgs) tt.

(** A new project. *)
Definition fresh_manifest : Manifest unit unit :=
  sample_manifest (stages default_pipeline) "ingestion".

(** Ingestion has completed and awaits review. *)
Definition ingestion_done : Manifest unit unit :=
  sample_manifest
    (<["ingestion" := completed_stage]> (stages default_pipeline))
    "ingestion".

(** Ingestion and editing have both completed and both await review. *)
Definition two_awaiting : Manifest unit unit :=
  sample_manifest
    (<["editing" := completed_stage]>
       (<["ingestion" := completed_stage]> (stages default_pipeline)))
    "editing".

(** Collaborators: every gate approved, every input valid, every module
    succeeding without a checkpoint; the clock counts from 1000. *)
Definition quiet_env : Env unit unit :=
  mkEnv (fun n => (1000 + Z.of_nat n)%Z) (fun _ _ => true)
    (fun _ _ => []) (fun _ _ => mkModuleResult None None).

(** As [quiet_env], but the mixing module raises after its [timeline]
    checkpoint. *)
Definition failing_env : Env unit unit :=
  mkEnv (fun n => (1000 + Z.of_nat n)%Z) (fun _ _ => true)
    (fun _ _ => [])
    (fun name _ =>
       if String.eqb name "mixing"
       then mkModuleResult (Some "timeline")
              (Some (mkExn "FileNotFoundError"
                       "Source track not found: tracks/bob.wav"))
       else mkModuleResult None None).

(** [KeyboardInterrupt()], which is no [Exception]; its [str] is empty. *)
Definition keyboard_interrupt : PyExn :=
  mkPyExn (chars "KeyboardInterrupt") [] false.

(** As [quiet_env], but the mixing module is interrupted from the keyboard
    before it has written a checkpoint. *)
Definition interrupted_env : Env unit unit :=
  mkEnv (fun n => (1000 + Z.of_nat n)%Z) (fun _ _ => true)
    (fun _ _ => [])
    (fun name _ =>
       if String.eqb name "mixing"
       then mkModuleResult None (Some keyboard_interrupt)
       else mkModuleResult None None).

Definition start_world (m : Manifest unit unit) : World unit unit :=
  mkWorld m 0 [].
End PipelineProps.

(** ** The region mapper and the region extraction *)

Module MixingProps.

(** A keep edit spoken by Bob, in an EDL of its own. *)
Definition bob_keep : Edl.Edit :=
  Edl.mkEdit "keep-001" "keep" "" 0 10 (Some 0%Q) (Some 10%Q) "crossfade"
    (Some "Bob") "Bob (10s)" None None None ["seg-001"] false None.

Definition bob_edl : Edl.EDLSidecar :=
  Edl.mkEDLSidecar "1.0" "ep-1" 10 10 0 0 30 "NON-DROP FRAME"
    [bob_keep] [].

(** Only Alice has a track. *)
Definition alice_tracks : gmap string string :=
  {["Alice" := "tracks/alice.wav"]}.

Definition alice_alignment : Alignment.AlignmentMap :=
  Alignment.mkAlignmentMap "1.0" "tracks/alice.wav"
    [Alignment.mkAlignedTrack "tracks/alice.wav" 0 10000 48000 1 true
       None None]
    (Alignment.mkCommonTimeline 0 10000).

(** [dir / name] of [pathlib] where [dir] does not end in a slash and
    [name] is a relative path of plain components. *)
Definition posix_join (dir name : string) : string := dir ++ "/" ++ name.

(** A file system where every path exists and FFmpeg never fails. *)
Definition all_exist (p : string) : bool := true.
Definition ffmpeg_ok (c : Extract.ExtractCall) : option Runtime.PyExn :=
  None.
End MixingProps.

(** ** Further properties of the timeline builder *)

Module EdlShape.
Import Edl Transcript EdlBuilder EdlProps.

(** What the builder keeps true of its keep edits for every cut list: they
    tile [[0, record_pos)], each is a keep of positive duration, the
    counter counts them, and every keep but the first is a crossfade. *)
Definition keeps_inv (st : LoopState) : Prop :=
  tiles 0 (ls_keep_edits st) (ls_record_pos st)
  /\ Forall (fun k => edit_type k = "keep" /\ (0 < duration k)%Q)
       (ls_keep_edits st)
  /\ ls_keep_counter st = length (ls_keep_edits st)
  /\ (forall i k, ls_keep_edits st !! S i = Some k ->
                  transition k = "crossfade").

(** Two edits over the same source interval. *)
Definition same_span (e e' : Edit) : Prop :=
  source_start e' = source_start e /\ source_end e' = source_end e.

(** Two overlapping cuts, out of order, on the 1800-second transcript. *)
Definition overlapping_cuts : list Edit :=
  [EditingProps.cut_edit "cut-001" 500 700 (Some (9#10)) true;
   EditingProps.cut_edit "cut-002" 100 600 (Some (8#10)) true].
End EdlShape.

(** ** Chapter markers and silence trimming *)

Module ChapterShape.
Import Edl Context ChapterMarkers Transcript.

(** Each marker lies at least 30 seconds after the one before it, the
    first one after [last]. *)
Fixpoint spaced (last : Chapter) (chs : list Chapter) : Prop :=
  match chs with
  | [] => True
  | ch :: rest => (30 <= ch_time ch - ch_time last)%Q /\ spaced ch rest
  end.

(** The segments are in temporal order from [lo] on:
    [lo <= start_1 <= end_1 <= start_2 <= ...]. *)
Fixpoint segments_ordered (lo : Q) (segs : list Segment) : Prop :=
  match segs with
  | [] => True
  | s :: rest =>
      (lo <= seg_start s)%Q /\ (seg_start s <= seg_end s)%Q
      /\ segments_ordered (seg_end s) rest
  end.

(** A context document with the given topics and nothing else. *)
Definition context_of (tps : list Topic) : ContextDocument :=
  mkContextDocument "1.0" "" tps [] [] [] (mkContextMetadata "" 0 0 0).

(** Topics at 0 s, 15 s (inside the cut [10, 20]), 25 s and 100 s. *)
Definition four_topics : list Topic :=
  [mkTopic "Welcome" None None 0 15 "";
   mkTopic "Sponsor" None None 15 25 "";
   mkTopic "News" None None 25 100 "";
   mkTopic "Interview" None None 100 300 ""].

(** Alice speaks twice with a 2-second pause, then Bob after 3 seconds. *)
Definition three_segments : list Segment :=
  [mkSegment "seg-001" "Alice" 0 10 "hello there" [] None;
   mkSegment "seg-002" "Alice" 12 20 "as I said" [] None;
   mkSegment "seg-003" "Bob" 23 30 "thanks" [] None].
End ChapterShape.

(** ** Resuming, pausing and finishing the pipeline *)

Module ResumeProps.
Import ManifestModel Runtime PipelineProps.

(** A stage the orchestrator has to run: not completed, or completed with
    a gate decision of [False]. *)
Definition needs_run (st : StageStatus) : Prop :=
  status st <> "completed" \/ gate_approved st = Some false.

Section WithManifest.
Context {Files Config : Type}.
Implicit Type m : Manifest Files Config.

(** Stage [n] is completed and its gate approved. *)
Definition done_in m (n : string) : Prop :=
  exists st, stage_of m n = Some st
             /\ status st = "completed" /\ gate_approved st = Some true.

(** Collaborators that never stand in the way: inputs always valid,
    modules never raising, every gate approved at the prompt. *)
Definition cooperative (env : Env Files Config) : Prop :=
  (forall n m, validate_inputs env n m = [])
  /\ (forall n m, raised (run env n m) = None)
  /\ (forall n m, present_gate env n m = true).

(** The manifest as [run_stage] persists it before calling the module. *)
Definition started (t : datetime) (s : string) m : Manifest Files Config :=
  set_current_stage s
    (update_stage s
       (fun st => set_error None
                    (set_started_at (Some t) (set_status "in_progress" st)))
       m).
End WithManifest.

Definition approved_stage_record : StageStatus :=
  mkStageStatus "completed" (Some 10%Z) (Some 20%Z) (Some true) (Some 30%Z)
    None None (Some "verify") ∅.

(** Every stage completed and approved. *)
Definition finished_manifest : Manifest unit unit :=
  sample_manifest
    (<["ingestion" := approved_stage_record]>
       (<["editing" := approved_stage_record]>
          (<["mixing" := approved_stage_record]>
             (<["mastering" := approved_stage_record]> ∅))))
    "complete".

(** Ingestion approved, editing completed and awaiting review. *)
Definition editing_awaiting : Manifest unit unit :=
  sample_manifest
    (<["ingestion" := approved_stage_record]>
       (<["editing" := completed_stage]> (stages default_pipeline)))
    "editing".

(** Ingestion approved, editing not yet run. *)
Definition editing_pending : Manifest unit unit :=
  sample_manifest
    (<["ingestion" := approved_stage_record]> (stages default_pipeline))
    "editing".

(** As [quiet_env], but the editing inputs are reported missing. *)
Definition missing_inputs_env : Env unit unit :=
  mkEnv (fun n => (1000 + Z.of_nat n)%Z) (fun _ _ => true)
    (fun name _ =>
       if String.eqb name "editing"
       then ["Transcript not found: artifacts/ingestion/transcript.json"]
       else [])
    (fun _ _ => mkModuleResult None None).

(** As [quiet_env], but every gate is declined at the prompt. *)
Definition declining_env : Env unit unit :=
  mkEnv (fun n => (1000 + Z.of_nat n)%Z) (fun _ _ => false)
    (fun _ _ => []) (fun _ _ => mkModuleResult None None).
End ResumeProps.

(** ** Regions and their extraction *)

Module RegionProps.
Import Timeline Extract.

(** The region has a track to extract from. *)
Definition has_track (r : AudioRegion) : bool :=
  negb (String.eqb (track_path r) "").

(** The region can be extracted: it asks for no track, or its track is
    on disk under the project root. *)
Definition extractable (path_join : string -> string -> string)
    (path_exists : string -> bool) (project_root : string)
    (r : AudioRegion) : Prop :=
  track_path r = ""
  \/ path_exists (path_join project_root (track_path r)) = true.

(** The output file of the region at position [i] of the timeline. *)
Definition region_file (path_join : string -> string -> string)
    (tmp_dir : string) (i : nat) : string :=
  path_join tmp_dir ("region-" ++ fmt_04d i ++ ".wav")%string.

(** Alice's keep edit: a region with a track, 50 ms late. *)
Definition alice_keep : Edl.Edit :=
  Edl.mkEdit "keep-002" "keep" "" 10 25 (Some 10%Q) (Some 25%Q) "crossfade"
    (Some "Alice") "Alice (15s)" None None None ["seg-002"] false None.

Definition alice_region : AudioRegion :=
  mkAudioRegion "keep-002" "tracks/alice.wav" 10 25 10 25 "Alice" 50.

Definition bob_region : AudioRegion :=
  mkAudioRegion "keep-001" "" 0 10 0 10 "Bob" 0.

Definition carol_region : AudioRegion :=
  mkAudioRegion "keep-003" "tracks/carol.wav" 25 30 25 30 "Carol" 0.

(** Only Alice's track is on disk. *)
Definition only_alice (p : string) : bool :=
  String.eqb p "/project/tracks/alice.wav".

Definition two_participants : list ManifestModel.Participant :=
  [ManifestModel.mkParticipant "Alice" "host" "tracks/alice.wav";
   ManifestModel.mkParticipant "Bob" "guest" "tracks/bob.wav"].
End RegionProps.

(** ** The detectors and the rationale log *)

Module DetectionProps.
Import Edl Transcript.

(** The pair of consecutive segments that [detect_false_starts] looks
    for: same speaker, at most three words, and a pause of at least
    [min_gap_ms] before the restart. *)
Definition is_false_start (split : string -> list string) (min_gap_ms : Q)
    (seg next : Segment) : Prop :=
  seg_speaker seg = seg_speaker next
  /\ (FalseStart.word_count split seg <= 3)%nat
  /\ (min_gap_ms <= (seg_start next - seg_end seg) * 1000)%Q.

(** The two edits do not overlap in source time. *)
Definition disjoint_spans (a b : Edit) : Prop :=
  (source_end a <= source_start b)%Q \/ (source_end b <= source_start a)%Q.

(** Whitespace splitting is not needed where the segments carry their
    word lists. *)
Definition no_split (s : string) : list string := [].

(** Alice starts ("So I"), stops for a second and starts again; Bob
    answers two seconds later. *)
Definition restart_segments : list Segment :=
  [mkSegment "seg-001" "Alice" 0 1 "So I"
     [mkWord "So" 0 (1#2) 1; mkWord "I" (1#2) 1 1] None;
   mkSegment "seg-002" "Alice" 2 10 "So I think we should start"
     [mkWord "So" 2 3 1; mkWord "I" 3 4 1; mkWord "think" 4 5 1;
      mkWord "we" 5 6 1; mkWord "should" 6 7 1; mkWord "start" 7 10 1]
     None;
   mkSegment "seg-003" "Bob" 12 20 "yes" [mkWord "yes" 12 20 1] None].

End DetectionProps.

(** ** Timecodes *)

Module TimecodeProps.
Import PrimFloat.

(** 3725.5 seconds, and the float nearest to 1/24 second. *)
Definition seconds_3725_5 : float := 3725.5%float.
Definition one_24th : float := 0x1.5555555555555p-5%float.
End TimecodeProps.
(** ** The cap and the timeline builder in floating point *)

Module FloatProps.
Import FloatEdl FloatEditingModule FloatEdlBuilder.

(** For a sort key on positions: [i] comes before [j] when its key is
    smaller, or the same and [i] is the smaller position. *)
Definition key_before (key : nat -> Q) (i j : nat) : Prop :=
  (key i < key j)%Q \/ ((key i == key j)%Q /\ (i < j)%nat).

Section WithArith.
Context {F : Type} {arith : Fp.Arith F}.

(** What the cap does to an edit it demotes. *)
Definition demote (e : Edit F) : Edit F :=
  set_review_flag (Some EditingModule.BUDGET_FLAG)
    (set_auto_applied false e).

(** The objects that the references [refs] point to, in that order. *)
Definition visited (refs : list nat) (cuts : list (Edit F))
    : list (Edit F) :=
  omap (fun r => cuts !! r) refs.

(** The variable [used] after the loop has gone through the edits [es]
    as they are in the end: starting from [used], the duration of every
    edit left auto-applied is added, one after the other. *)
Definition accumulate (used : F) (es : list (Edit F)) : F :=
  fold_left
    (fun u e => if auto_applied e then Fp.add u (duration e) else u)
    es used.

(** The confidence of an edit, a missing one counting as 0, and that of
    the object at [r]. *)
Definition confidence_or_0 (e : Edit F) : Q := q_or_0 (confidence e).

Definition ref_conf (all_cuts : list (Edit F)) (r : nat) : Q :=
  match all_cuts !! r with Some e => confidence_or_0 e | None => 0%Q end.

(** The order of the visit: the object at [i] comes before the one at [j]
    when its confidence is higher, or the same and [i] is earlier in the
    list. *)
Definition visits_before (all_cuts : list (Edit F)) (i j : nat) : Prop :=
  (ref_conf all_cuts j < ref_conf all_cuts i)%Q
  \/ ((ref_conf all_cuts i == ref_conf all_cuts j)%Q /\ (i < j)%nat).

(** The rule as the specification words it: demote in ascending order of
    confidence, lowest first, until the remaining auto-applied sum fits
    the budget. *)
Fixpoint spec_demote_loop (budget : F) (refs : list nat)
    (all_cuts : list (Edit F)) : list (Edit F) :=
  match refs with
  | [] => all_cuts
  | r :: rest =>
      if Fp.le (auto_cut_time all_cuts) budget then all_cuts
      else
        match all_cuts !! r with
        | Some edit =>
            if auto_applied edit then
              spec_demote_loop budget rest (<[r := demote edit]> all_cuts)
            else spec_demote_loop budget rest all_cuts
        | None => spec_demote_loop budget rest all_cuts
        end
  end.

Definition spec_cap_auto_cuts (total_duration : F)
    (all_cuts : list (Edit F)) : list (Edit F) :=
  spec_demote_loop (Fp.mul total_duration Fp.half)
    (sorted_by (ref_conf all_cuts) (seq 0 (length all_cuts))) all_cuts.

(** The claimed order of demotion: an edit is only demoted once every
    auto-applied edit of strictly lower confidence has been demoted. *)
Definition demotes_lowest_first (before after : list (Edit F)) : Prop :=
  forall i j a b a' b',
    before !! i = Some a -> before !! j = Some b ->
    auto_applied a = true -> auto_applied b = true ->
    (confidence_or_0 a < confidence_or_0 b)%Q ->
    after !! i = Some a' -> after !! j = Some b' ->
    auto_applied b' = false -> auto_applied a' = false.

(** The cuts are sorted, do not overlap and lie inside [[lo, total]], as
    the comparisons of the arithmetic see it. *)
Fixpoint cuts_within (lo total : F) (cuts : list (Edit F)) : Prop :=
  match cuts with
  | [] => Fp.le lo total = true
  | c :: rest =>
      Fp.le lo (source_start c) = true
      /\ Fp.le (source_start c) (source_end c) = true
      /\ cuts_within (source_end c) total rest
  end.

(** The keeps occupy the record timeline from [first] to [last] without
    gap or overlap: each starts where the one before it ends, and ends
    its own duration later. *)
Fixpoint tiles (first : F) (keeps : list (Edit F)) (last : F) : Prop :=
  match keeps with
  | [] => first = last
  | k :: rest =>
      record_start k = Some first
      /\ record_end k = Some (Fp.add first (duration k))
      /\ tiles (Fp.add first (duration k)) rest last
  end.

(** The durations added one after the other, from left to right, starting
    from 0: what [record_pos] holds after these keep edits. *)
Definition running_sum (l : list F) : F := fold_left Fp.add l Fp.zero.

(** What the loop of [build_edl] maintains: the keeps tile the record
    timeline from 0 to [record_pos], and all are of type keep. *)
Definition loop_inv (st : LoopState) : Prop :=
  tiles Fp.zero (ls_keep_edits st) (ls_record_pos st)
  /\ Forall (fun k => edit_type k = "keep") (ls_keep_edits st).
End WithArith.

(** *** Samples in binary64 *)

Section Samples.
Import PrimFloat.

Definition no_fmt (x : float) : string := "".
Definition no_round (x : float) : float := x.

(** A cut proposal as the detectors build it. *)
Definition cut_edit (i : string) (s e : float) (c : option Q) (a : bool)
    : Edit float :=
  mkEdit i "cut" "" s e None None "cut" None "" (Some "filler") c None []
    a None.

(** Three auto-applied cuts of 40 s, 20 s and 5 s on a 100 s episode. *)
Definition cut_40s : Edit float :=
  cut_edit "cut-001" 0 40 (Some (9#10)) true.
Definition cut_20s : Edit float :=
  cut_edit "cut-002" 40 60 (Some (8#10)) true.
Definition cut_5s : Edit float :=
  cut_edit "cut-003" 60 65 (Some (7#10)) true.

Definition three_cuts : list (Edit float) := [cut_40s; cut_20s; cut_5s].

Definition episode_100 : float := 100%float.

(** An episode of 1.2 s with three auto-applied cuts that do not overlap,
    [0, 0.1], [0.2, 0.4] and [0.5, 0.8], in ascending order of
    confidence. *)
#[warnings="-inexact-float"]
Definition episode_1_2 : float := 1.2%float.

#[warnings="-inexact-float"]
Definition tenth_cuts : list (Edit float) :=
  [cut_edit "cut-001" 0 0.1 (Some (7#10)) true;
   cut_edit "cut-002" 0.2 0.4 (Some (8#10)) true;
   cut_edit "cut-003" 0.5 0.8 (Some (9#10)) true].

(** A transcript of one segment of one second, and the cut [0.1, 0.3]. *)
Definition one_second : list (Segment float) :=
  [mkSegment "seg-001" "Alice" 0%float 1%float "hello" [] None].

#[warnings="-inexact-float"]
Definition early_cut : list (Edit float) :=
  [cut_edit "cut-001" 0.1 0.3 (Some 1%Q) true].

(** The exact sum of the numbers that the floats [l] denote. *)
Definition exact_sum (l : list float) : Q :=
  qsum (map (fun x => default 0%Q (Fp.value x)) l).
End Samples.
End FloatProps.

(** * Proofs *)

(** ** Rationals and sorting *)

Lemma Qlt_bool_iff (x y : Q) : Qlt_bool x y = true <-> (x < y)%Q.
Proof.
  unfold Qlt_bool. rewrite negb_true_iff.
  split; intros H.
  - apply Qnot_le_lt. intros Hle. apply Qle_bool_iff in Hle. congruence.
  - destruct (Qle_bool y x) eqn:E; [|reflexivity].
    apply Qle_bool_iff in E. exfalso. apply (Qlt_not_le _ _ H E).
Qed.

Lemma Qlt_bool_false_iff (x y : Q) : Qlt_bool x y = false <-> (y <= x)%Q.
Proof.
  unfold Qlt_bool. rewrite negb_false_iff. apply Qle_bool_iff.
Qed.

Lemma Qle_bool_false_iff (x y : Q) : Qle_bool x y = false <-> (y < x)%Q.
Proof.
  split; intros H.
  - apply Qnot_le_lt. intros Hle. apply Qle_bool_iff in Hle. congruence.
  - destruct (Qle_bool x y) eqn:E; [|reflexivity].
    apply Qle_bool_iff in E. exfalso. apply (Qlt_not_le _ _ H E).
Qed.

Lemma fold_left_Qplus (l : list Q) (a : Q) :
  (fold_left Qplus l a == a + qsum l)%Q.
Proof.
  unfold qsum. revert a.
  induction l as [|x l IH]; intros a; simpl.
  - lra.
  - rewrite (IH (a + x)%Q), (IH (0 + x)%Q). lra.
Qed.

Lemma qsum_cons (x : Q) (l : list Q) : (qsum (x :: l) == x + qsum l)%Q.
Proof.
  unfold qsum at 1. simpl. rewrite fold_left_Qplus. lra.
Qed.

Section SortFacts.
Context {A : Type} (le : A -> A -> bool).

Lemma insert_sorted_perm (x : A) (l : list A) :
  Permutation (insert_sorted le x l) (x :: l).
Proof.
  induction l as [|y l IH]; simpl; [reflexivity|].
  destruct (le x y); [reflexivity|].
  rewrite IH. apply perm_swap.
Qed.

Lemma stable_sort_perm (l : list A) : Permutation (stable_sort le l) l.
Proof.
  induction l as [|x l IH]; simpl; [reflexivity|].
  rewrite insert_sorted_perm. by constructor.
Qed.

(** A list that is already in order is returned as it is. *)
Lemma stable_sort_chain (l : list A) : chain le l -> stable_sort le l = l.
Proof.
  induction l as [|x l IH]; [reflexivity|].
  intros Hc. simpl.
  destruct l as [|y l]; [reflexivity|].
  destruct Hc as [Hxy Hc]. rewrite (IH Hc). simpl. by rewrite Hxy.
Qed.
End SortFacts.

Lemma Forall_insert_sorted {A : Type} (le : A -> A -> bool) (P : A -> Prop)
    (x : A) (l : list A) :
  P x -> Forall P l -> Forall P (insert_sorted le x l).
Proof.
  intros Hx Hl. rewrite insert_sorted_perm. by constructor.
Qed.

Lemma sorted_by_StronglySorted {A : Type} (key : A -> Q) (l : list A) :
  StronglySorted (fun x y => (key x <= key y)%Q) (sorted_by key l).
Proof.
  unfold sorted_by.
  induction l as [|x l IH]; simpl; [constructor|].
  induction IH as [|y ys Hys IHys Hall]; simpl.
  - repeat constructor.
  - destruct (Qle_bool (key x) (key y)) eqn:E.
    + apply Qle_bool_iff in E.
      constructor; [by constructor|].
      constructor; [done|].
      eapply Forall_impl; [exact Hall|]. intros z Hz. simpl in *. lra.
    + apply Qle_bool_false_iff in E.
      constructor; [done|].
      apply Forall_insert_sorted; [lra | done].
Qed.

(** ** The auto-cut cap over exact seconds

    What the loop changes and what it leaves alone; used further down
    for what is built from the cuts after the cap. *)

Module EditingFacts.
Import Edl EditingModule EditingProps.

Lemma demote_auto_applied (e : Edit) : auto_applied (demote e) = false.
Proof. reflexivity. Qed.

Lemma sorted_refs_perm (cuts : list Edit) :
  Permutation (sorted_refs cuts) (seq 0 (length cuts)).
Proof. apply stable_sort_perm. Qed.

Lemma sorted_refs_NoDup (cuts : list Edit) : NoDup (sorted_refs cuts).
Proof. rewrite sorted_refs_perm. apply NoDup_seq. Qed.

(** The loop invariant of the cap, for a reference list without repeats. *)
Lemma cap_loop_inv (budget : Q) (refs : list nat) :
  forall (used : Q) (cuts : list Edit),
    NoDup refs ->
    let res := cap_loop budget refs used cuts in
    length (snd res) = length cuts
    /\ (forall i, i ∉ refs -> snd res !! i = cuts !! i)
    /\ (forall i e, cuts !! i = Some e ->
          snd res !! i = Some e
          \/ (auto_applied e = true /\ snd res !! i = Some (demote e)))
    /\ (fst res == used + auto_time_at (snd res) refs)%Q
    /\ ((used <= budget)%Q -> (fst res <= budget)%Q).
Proof.
  induction refs as [|r refs IH]; intros used cuts Hnd.
  - simpl. repeat split; auto. lra.
  - apply NoDup_cons in Hnd as [Hr Hnd].
    cbn [cap_loop].
    destruct (cuts !! r) as [edit|] eqn:Er.
    + destruct (auto_applied edit) eqn:Ea.
      * destruct (Qle_bool (used + duration edit) budget) eqn:Efit.
        -- destruct (IH (used + duration edit)%Q cuts Hnd)
             as (Hlen & Hout & Hcase & Hsum & Hle).
           repeat split; auto.
           ++ intros i Hi. apply not_elem_of_cons in Hi as [? ?]. by apply Hout.
           ++ cbn [auto_time_at]. rewrite Hsum.
              unfold contrib. rewrite (Hout r Hr), Er, Ea. lra.
           ++ intros _. apply Hle. by apply Qle_bool_iff.
        -- assert (Hlt : (r < length cuts)%nat)
             by (eapply lookup_lt_Some; eauto).
           destruct (IH used (<[r:=demote edit]> cuts) Hnd)
             as (Hlen & Hout & Hcase & Hsum & Hle).
           fold (demote edit).
           rewrite length_insert in Hlen.
           repeat split; auto.
           ++ intros i Hi. apply not_elem_of_cons in Hi as [? ?].
              rewrite Hout by done.
              by apply list_lookup_insert_ne.
           ++ intros i e Hie.
              destruct (decide (i = r)) as [->|Hne].
              ** assert (e = edit) by congruence. subst e.
                 right. split; [done|].
                 rewrite (Hout r Hr). by apply list_lookup_insert_eq.
              ** apply Hcase. by rewrite list_lookup_insert_ne.
           ++ cbn [auto_time_at]. rewrite Hsum.
              unfold contrib. rewrite (Hout r Hr).
              rewrite list_lookup_insert_eq by done.
              rewrite demote_auto_applied. lra.
      * destruct (IH used cuts Hnd) as (Hlen & Hout & Hcase & Hsum & Hle).
        repeat split; auto.
        -- intros i Hi. apply not_elem_of_cons in Hi as [? ?]. by apply Hout.
        -- cbn [auto_time_at]. rewrite Hsum.
           unfold contrib. rewrite (Hout r Hr), Er, Ea. lra.
    + destruct (IH used cuts Hnd) as (Hlen & Hout & Hcase & Hsum & Hle).
      repeat split; auto.
      * intros i Hi. apply not_elem_of_cons in Hi as [? ?]. by apply Hout.
      * cbn [auto_time_at]. rewrite Hsum.
        unfold contrib. rewrite (Hout r Hr), Er. lra.
Qed.

End EditingFacts.

(** ** The timeline builder ([editing/edl_builder.py]) *)

Module EdlFacts.
Import Edl Transcript EdlBuilder EdlProps.

Lemma tiles_head (first last : Q) (keeps : list Edit) (k : Edit) :
  tiles first keeps last -> head keeps = Some k ->
  record_start k = Some first.
Proof. destruct keeps; intros Ht Hh; simplify_eq/=. by destruct Ht. Qed.

Lemma tiles_adjacent (first last : Q) (keeps : list Edit) :
  tiles first keeps last ->
  forall i k k', keeps !! i = Some k -> keeps !! S i = Some k' ->
                 record_start k' = record_end k.
Proof.
  revert first. induction keeps as [|k0 keeps IH]; intros first Ht i k k'.
  - intros Hk. by rewrite lookup_nil in Hk.
  - destruct Ht as (Hs & He & Ht). destruct i as [|i]; simpl.
    + intros [= ->] Hk'. rewrite He.
      eapply tiles_head; [exact Ht|]. by destruct keeps; simplify_eq/=.
    + apply (IH _ Ht).
Qed.

Lemma tiles_each (first last : Q) (keeps : list Edit) :
  tiles first keeps last ->
  forall k, k ∈ keeps ->
    exists rs, record_start k = Some rs
               /\ record_end k = Some (rs + duration k)%Q.
Proof.
  revert first. induction keeps as [|k0 keeps IH]; intros first Ht k Hk.
  - by apply elem_of_nil in Hk.
  - destruct Ht as (Hs & He & Ht).
    apply elem_of_cons in Hk as [->|Hk]; [eauto | eapply IH; eauto].
Qed.

Lemma tiles_sum (first last : Q) (keeps : list Edit) :
  tiles first keeps last ->
  (last == first + qsum (map duration keeps))%Q.
Proof.
  revert first. induction keeps as [|k0 keeps IH]; intros first Ht.
  - simpl in Ht. subst. unfold qsum. simpl. lra.
  - destruct Ht as (_ & _ & Ht). apply IH in Ht.
    cbn [map]. rewrite qsum_cons. lra.
Qed.

Section WithFormatting.
Variable fmt_0f : Q -> string.
Variable round1 : Q -> Q.

Lemma filter_keep_app (keeps cuts : list Edit) :
  Forall (fun k => edit_type k = "keep") keeps ->
  Forall (fun c => edit_type c = "cut") cuts ->
  List.filter (fun e => String.eqb (edit_type e) "keep") (keeps ++ cuts)
  = keeps.
Proof.
  intros Hk Hc. rewrite List.filter_app.
  assert (H1 : List.filter (fun e => String.eqb (edit_type e) "keep")
                 keeps = keeps).
  { induction Hk as [|k ks Hk _ IH]; simpl; [done|].
    by rewrite Hk, IH. }
  assert (H2 : List.filter (fun e => String.eqb (edit_type e) "keep")
                 cuts = []).
  { induction Hc as [|c cs Hc _ IH]; simpl; [done|].
    by rewrite Hc, IH. }
  rewrite H1, H2. apply app_nil_r.
Qed.

(** *** Claim C4 *)

(** C4 asks for transition [cut] on the first keep edit, in particular
    on the single keep edit of an EDL without cuts. The code does
    otherwise: with zero cuts and a positive total duration, the only
    keep edit comes from the final-region branch, which always writes
    [crossfade]. *)
Theorem zero_cuts_keep_is_crossfade (segs : list Segment)
    (episode_id : string) (frame_rate crossfade_ms : Z) :
  (0 < total_duration_of segs)%Q ->
  let edl :=
    build_edl fmt_0f round1 segs [] episode_id frame_rate crossfade_ms in
  map transition (keep_edits edl) = ["crossfade"]
  /\ map source_start (keep_edits edl) = [0%Q]
  /\ map source_end (keep_edits edl) = [total_duration_of segs].
Proof.
  intros Hpos edl.
  unfold edl, build_edl, keep_edits, keep_phase. cbn [edits].
  unfold sorted_by. cbn [stable_sort fold_left]. unfold final_step.
  cbn [ls_current_pos].
  rewrite (proj2 (Qlt_bool_iff 0 (total_duration_of segs)) Hpos).
  cbn [ls_keep_edits]. repeat split.
Qed.
End WithFormatting.

(** The failing input of C4: one 1800-second segment and no cuts. *)
Lemma zero_cuts_keep_is_crossfade_witness :
  (0 < total_duration_of one_segment)%Q
  /\ map transition
       (keep_edits (build_edl no_fmt no_round one_segment [] "ep-1" 30 50))
     = ["crossfade"].
Proof.
  split; [reflexivity|].
  apply (zero_cuts_keep_is_crossfade no_fmt no_round one_segment
           "ep-1" 30 50).
  reflexivity.
Defined.

End EdlFacts.

(** ** Chapter-time remapping ([editing/chapters.py]) *)

Module ChaptersFacts.
Import Edl Chapters ChaptersProps.

Lemma cuts_before_cons (t : Q) (c : Edit) (cuts : list Edit) :
  cuts_before t (c :: cuts)
  = if Qle_bool (source_end c) t then c :: cuts_before t cuts
    else cuts_before t cuts.
Proof. reflexivity. Qed.

Lemma map_loop_outside (t : Q) (cuts : list Edit) :
  forall offset : Q,
    Forall (fun c => ~ strictly_inside t c) cuts ->
    exists r, map_loop t cuts offset = Some r
              /\ (r == t - (offset
                            + qsum (map duration (cuts_before t cuts))))%Q.
Proof.
  induction cuts as [|c cuts IH]; intros offset Hout.
  - exists (t - offset)%Q. split; [reflexivity|].
    unfold qsum. simpl. lra.
  - apply Forall_cons in Hout as [Hc Hout].
    cbn [map_loop]. rewrite cuts_before_cons.
    destruct (Qle_bool (source_end c) t) eqn:Eend.
    + destruct (IH (offset + duration c)%Q Hout) as (r & Hr & Hsum).
      exists r. split; [done|].
      cbn [map]. rewrite qsum_cons. lra.
    + destruct (Qlt_bool (source_start c) t
                && Qlt_bool t (source_end c)) eqn:Ein.
      * exfalso. apply Hc.
        apply andb_true_iff in Ein as [H1 H2].
        split; by apply Qlt_bool_iff.
      * apply IH, Hout.
Qed.

Lemma map_loop_inside (t : Q) (cuts : list Edit) :
  forall offset : Q,
    Exists (strictly_inside t) cuts -> map_loop t cuts offset = None.
Proof.
  induction cuts as [|c cuts IH]; intros offset Hin.
  - by apply Exists_nil in Hin.
  - cbn [map_loop].
    destruct (Qle_bool (source_end c) t) eqn:Eend.
    + apply IH. apply Exists_cons in Hin as [[_ Hlt]|Hin]; [|done].
      apply Qle_bool_iff in Eend. lra.
    + destruct (Qlt_bool (source_start c) t
                && Qlt_bool t (source_end c)) eqn:Ein; [reflexivity|].
      apply IH. apply Exists_cons in Hin as [[H1 H2]|Hin]; [|done].
      apply Qlt_bool_iff in H1, H2. rewrite H1, H2 in Ein. discriminate.
Qed.

(** *** Claim C8 *)


End ChaptersFacts.

(** ** The gate controller ([pipeline/gate.py]) *)

Module GateFacts.
Import ManifestModel Runtime Orchestrator Gate PipelineProps.

Lemma awaiting_true (st : StageStatus) :
  completed_awaiting_gate st = true <-> awaiting st.
Proof.
  unfold completed_awaiting_gate, awaiting.
  rewrite andb_true_iff, String.eqb_eq.
  destruct (gate_approved st) as [[|]|]; intuition congruence.
Qed.

Lemma awaiting_false (st : StageStatus) :
  completed_awaiting_gate st = false <-> ~ awaiting st.
Proof.
  rewrite <- awaiting_true. destruct (completed_awaiting_gate st);
    intuition congruence.
Qed.

Lemma record_notes_approved (t : datetime) (notes : option string)
    (st : StageStatus) :
  record_notes notes
    (set_gate_approved_at (Some t) (set_gate_approved (Some true) st))
  = approved_stage t notes st.
Proof. by destruct notes as [[|c n]|]. Qed.

Lemma record_notes_rejected (notes : option string) (st : StageStatus) :
  record_notes notes
    (set_gate_approved None
       (set_completed_at None
          (set_started_at None (set_status "pending" st))))
  = rejected_stage notes st.
Proof. by destruct notes as [[|c n]|]. Qed.

Lemma next_stage_in_order (pre : list string) (s : string)
    (post : list string) :
  GATE_ORDER = pre ++ s :: post ->
  _next_stage s = Ok (default "complete" (head post)).
Proof.
  unfold GATE_ORDER. intros H.
  repeat (destruct pre as [|? pre]; simplify_eq/=; try reflexivity).
Qed.

Section WithManifest.
Context {Files Config : Type}.
Implicit Type m : Manifest Files Config.
Implicit Type w : World Files Config.
Variable env : Env Files Config.

Lemma alter_present (f : StageStatus -> StageStatus) (s : string)
    (st : StageStatus) (stgs : gmap string StageStatus) :
  stgs !! s = Some st -> alter f s stgs = <[s := f st]> stgs.
Proof.
  intros Hs. apply map_eq. intros n.
  rewrite lookup_alter, lookup_insert.
  case_decide; subst; [by rewrite Hs | done].
Qed.

Lemma update_with_stage m (s cur : string)
    (f : StageStatus -> StageStatus) (st : StageStatus) :
  stage_of m s = Some st ->
  set_current_stage cur (update_stage s f m) = with_stage m s (f st) cur.
Proof.
  intros Hs. unfold set_current_stage, update_stage, with_stage. cbn.
  by rewrite (alter_present f s st _ Hs).
Qed.

Lemma stage_of_with_stage m (s n cur : string) (st : StageStatus) :
  stage_of (with_stage m s st cur) n
  = if decide (s = n) then Some st else stage_of m n.
Proof. unfold stage_of, with_stage. cbn. apply lookup_insert. Qed.

Lemma none_awaiting_with_stage m (s cur : string) (st : StageStatus)
    (names : list string) :
  ~ awaiting st -> none_awaiting m names ->
  none_awaiting (with_stage m s st cur) names.
Proof.
  intros Hst Hall. unfold none_awaiting in *.
  eapply Forall_impl; [exact Hall|].
  intros n (st0 & Hn & Hna). rewrite stage_of_with_stage.
  case_decide; eauto.
Qed.

(** The approve loop stops at the first stage awaiting review. *)
Lemma approve_loop_first (notes : option string) (pre : list string)
    (s : string) (post : list string) (st : StageStatus) (nxt : string)
    m w :
  first_awaiting m pre s st -> _next_stage s = Ok nxt ->
  let m' :=
    with_stage m s (approved_stage (now env (clock w)) notes st) nxt in
  approve_loop env notes (pre ++ s :: post) m w
  = (Ok tt, mkWorld m' (S (clock w)) (trace w ++ [EvSave m'])).
Proof.
  intros (Hpre & Hs & Haw) Hnxt.
  induction Hpre as [|n pre (st0 & Hn & Hna) _ IH]; cbn [app approve_loop].
  - unfold bind, lift, get_stage. rewrite Hs.
    rewrite (proj2 (awaiting_true st) Haw).
    unfold read_clock, save_manifest. rewrite Hnxt.
    rewrite (update_with_stage m s nxt _ st Hs).
    by rewrite record_notes_approved.
  - unfold bind at 1, lift at 1, get_stage at 1. rewrite Hn.
    by rewrite (proj2 (awaiting_false st0) Hna).
Qed.

(** With no stage awaiting review it raises and touches nothing. *)
Lemma approve_loop_none (notes : option string) (names : list string)
    m w :
  none_awaiting m names ->
  approve_loop env notes names m w
  = (Raise (RuntimeError "No gate pending approval"), w).
Proof.
  induction 1 as [|n names (st0 & Hn & Hna) _ IH]; cbn [approve_loop].
  - reflexivity.
  - unfold bind at 1, lift at 1, get_stage at 1. rewrite Hn.
    by rewrite (proj2 (awaiting_false st0) Hna).
Qed.

Lemma reject_loop_first (notes : option string) (pre : list string)
    (s : string) (post : list string) (st : StageStatus) m w :
  first_awaiting m pre s st ->
  let m' := with_stage m s (rejected_stage notes st) s in
  reject_loop notes (pre ++ s :: post) m w
  = (Ok tt, mkWorld m' (clock w) (trace w ++ [EvSave m'])).
Proof.
  intros (Hpre & Hs & Haw).
  induction Hpre as [|n pre (st0 & Hn & Hna) _ IH]; cbn [app reject_loop].
  - unfold bind, lift, get_stage. rewrite Hs.
    rewrite (proj2 (awaiting_true st) Haw).
    unfold save_manifest.
    rewrite (update_with_stage m s s _ st Hs).
    by rewrite record_notes_rejected.
  - unfold bind at 1, lift at 1, get_stage at 1. rewrite Hn.
    by rewrite (proj2 (awaiting_false st0) Hna).
Qed.

Lemma reject_loop_none (notes : option string) (names : list string)
    m w :
  none_awaiting m names ->
  reject_loop notes names m w
  = (Raise (RuntimeError "No gate pending review"), w).
Proof.
  induction 1 as [|n names (st0 & Hn & Hna) _ IH]; cbn [reject_loop].
  - reflexivity.
  - unfold bind at 1, lift at 1, get_stage at 1. rewrite Hn.
    by rewrite (proj2 (awaiting_false st0) Hna).
Qed.

Lemma approved_stage_not_awaiting (t : datetime) (notes : option string)
    (st : StageStatus) : ~ awaiting (approved_stage t notes st).
Proof. intros [_ H]. discriminate H. Qed.

(** *** Claim C6 *)

(** C6, amended. [approve_gate] takes the first stage in fixed order
    with [status = completed] and [gate_approved = null], sets its
    [gate_approved] to true, stamps [gate_approved_at] with the clock,
    records the notes when they are given and not empty, sets
    [current_stage] to the next stage name, or to [complete] after
    mastering, and persists the manifest. When no stage qualifies it
    raises the "No gate pending approval" error and leaves clock, trace
    and persisted manifest as they were. A second approve call right
    after a successful one fails in that way whenever no later stage
    was awaiting review as well. *)
Theorem approve_gate_correct (notes : option string) w :
  (forall pre s post st,
      GATE_ORDER = pre ++ s :: post ->
      first_awaiting (disk w) pre s st ->
      let t := now env (clock w) in
      let nxt := default "complete" (head post) in
      let m' := with_stage (disk w) s (approved_stage t notes st) nxt in
      let w' := mkWorld m' (S (clock w)) (trace w ++ [EvSave m']) in
      approve_gate env notes w = (Ok tt, w')
      /\ (s = "mastering" -> nxt = "complete")
      /\ (none_awaiting (disk w) post ->
          forall notes',
            approve_gate env notes' w'
            = (Raise (RuntimeError "No gate pending approval"), w')))
  /\ (none_awaiting (disk w) GATE_ORDER ->
      approve_gate env notes w
      = (Raise (RuntimeError "No gate pending approval"), w)).
Proof.
  split.
  - intros pre s post st Hord Hfirst t nxt m' w'.
    pose proof (next_stage_in_order pre s post Hord) as Hnxt.
    split; [|split].
    + unfold approve_gate, bind, load_manifest. rewrite Hord.
      by apply approve_loop_first.
    + intros ->. unfold nxt. unfold GATE_ORDER in Hord.
      repeat (destruct pre as [|? pre]; simplify_eq/=; try reflexivity).
    + intros Hpost notes'.
      unfold approve_gate, bind, load_manifest.
      unfold w' at 1. cbn [disk]. unfold m' at 1.
      apply approve_loop_none. rewrite Hord.
      destruct Hfirst as (Hpre & Hs & Haw).
      apply Forall_app. split; [|apply Forall_cons; split].
      * apply none_awaiting_with_stage;
          [apply approved_stage_not_awaiting | done].
      * exists (approved_stage t notes st). split.
        -- rewrite stage_of_with_stage. by case_decide.
        -- apply approved_stage_not_awaiting.
      * apply none_awaiting_with_stage;
          [apply approved_stage_not_awaiting | done].
  - intros Hnone. unfold approve_gate, bind, load_manifest.
    by apply approve_loop_none.
Qed.

(** *** Claim C7 *)

(** C7. [reject_gate] takes the first stage in fixed order with
    [status = completed] and [gate_approved = null], resets it to
    [status = pending] with [started_at], [completed_at] and
    [gate_approved] cleared, sets [current_stage] back to that stage,
    records the notes when given, and persists the manifest; when no
    stage qualifies it raises the "No gate pending review" error and
    leaves the persisted manifest unchanged. *)
Theorem reject_gate_correct (notes : option string) w :
  (forall pre s post st,
      GATE_ORDER = pre ++ s :: post ->
      first_awaiting (disk w) pre s st ->
      let st' := rejected_stage notes st in
      let m' := with_stage (disk w) s st' s in
      reject_gate notes w
      = (Ok tt, mkWorld m' (clock w) (trace w ++ [EvSave m']))
      /\ stage_of m' s = Some st'
      /\ status st' = "pending" /\ started_at st' = None
      /\ completed_at st' = None /\ gate_approved st' = None
      /\ current_stage (pipeline m') = s)
  /\ (none_awaiting (disk w) GATE_ORDER ->
      reject_gate notes w
      = (Raise (RuntimeError "No gate pending review"), w)).
Proof.
  split.
  - intros pre s post st Hord Hfirst st' m'.
    split.
    + unfold reject_gate, bind, load_manifest. rewrite Hord.
      by apply reject_loop_first.
    + split; [|by repeat split].
      unfold m'. rewrite stage_of_with_stage. by case_decide.
  - intros Hnone. unfold reject_gate, bind, load_manifest.
    by apply reject_loop_none.
Qed.
End WithManifest.

(** C6, as claimed, fails in its last clause: with ingestion and editing
    both completed and unreviewed, two consecutive approve calls both
    succeed; the second one approves editing. *)
Lemma approve_twice_both_succeed :
  let first := approve_gate quiet_env None (start_world two_awaiting) in
  let second := approve_gate quiet_env None (snd first) in
  fst first = Ok tt /\ fst second = Ok tt
  /\ approved_in (disk (snd second)) "editing".
Proof.
  cbv zeta. split; [by vm_compute|]. split; [by vm_compute|].
  eexists. split; [by vm_compute | reflexivity].
Qed.

Lemma ingestion_done_first_awaiting :
  first_awaiting ingestion_done [] "ingestion" completed_stage.
Proof.
  split; [constructor|]. split; [by vm_compute | by split].
Qed.

(** Approving the ingestion gate of a project whose ingestion has
    completed moves [current_stage] to editing. *)
Lemma approve_gate_correct_witness :
  first_awaiting ingestion_done [] "ingestion" completed_stage
  /\ fst (approve_gate quiet_env (Some "ok") (start_world ingestion_done))
     = Ok tt.
Proof.
  split; [exact ingestion_done_first_awaiting|].
  destruct (proj1 (approve_gate_correct quiet_env (Some "ok")
                     (start_world ingestion_done))
              [] "ingestion" ["editing"; "mixing"; "mastering"]
              completed_stage eq_refl ingestion_done_first_awaiting)
    as [Heq _].
  by rewrite Heq.
Defined.

(** Rejecting the same gate sends ingestion back to pending. *)
Lemma reject_gate_correct_witness :
  first_awaiting ingestion_done [] "ingestion" completed_stage
  /\ fst (reject_gate (Some "too aggressive") (start_world ingestion_done))
     = Ok tt.
Proof.
  split; [exact ingestion_done_first_awaiting|].
  destruct (proj1 (reject_gate_correct (Some "too aggressive")
                     (start_world ingestion_done))
              [] "ingestion" ["editing"; "mixing"; "mastering"]
              completed_stage eq_refl ingestion_done_first_awaiting)
    as [Heq _].
  by rewrite Heq.
Defined.
End GateFacts.

(** ** The orchestrator ([pipeline/orchestrator.py]) *)

Module OrchestratorFacts.
Import ManifestModel Runtime Orchestrator PipelineProps.

Section WithManifest.
Context {Files Config : Type}.
Implicit Type m : Manifest Files Config.
Implicit Type w : World Files Config.
Variable env : Env Files Config.

Lemma stage_of_update m (n a : string)
    (f : StageStatus -> StageStatus) :
  stage_of (update_stage n f m) a
  = if decide (n = a) then f <$> stage_of m n else stage_of m a.
Proof. unfold stage_of, update_stage. cbn. apply lookup_alter. Qed.

Lemma stage_of_set_current m (cur a : string) :
  stage_of (set_current_stage cur m) a = stage_of m a.
Proof. reflexivity. Qed.

(** Reading a stage record back after the assignments of the loop. *)
Ltac read_stage Hn :=
  repeat first
    [ rewrite stage_of_set_current
    | rewrite stage_of_update
    | rewrite decide_True by reflexivity
    | rewrite Hn ];
  cbn [fmap option_fmap option_map].

Ltac elsewhere :=
  let a := fresh "a" in
  let Ha := fresh "Ha" in
  intros a Ha;
  repeat first
    [ rewrite stage_of_set_current
    | rewrite stage_of_update
    | rewrite decide_False by congruence ];
  reflexivity.

Ltac pick_run H :=
  repeat (apply elem_of_cons in H as [H|H]; [try discriminate H|]);
  try (by apply elem_of_nil in H).

Ltac no_run_event :=
  let s := fresh "s" in
  let mr := fresh "mr" in
  let H := fresh "H" in
  intros s mr H;
  repeat (apply elem_of_cons in H as [H|H]; [discriminate H|]);
  by apply elem_of_nil in H.

(** The approval shared by both gate presentations. *)
Lemma approve_stage_spec (n : string) m w (stage : StageStatus) :
  stage_of m n = Some stage ->
  forall o w', approve_stage env n m w = (o, w') ->
  exists evs,
    trace w' = trace w ++ evs
    /\ (forall s mr, EvRun s mr ∉ evs)
    /\ (forall m', o = Ok m' ->
          approved_in m' n /\ same_elsewhere m m' n).
Proof.
  intros Hn o w'.
  unfold approve_stage, bind, lift, ret, save_manifest, read_clock.
  destruct (_next_stage n) as [nxt|e]; intros [= <- <-]; cbn [trace].
  - eexists. split; [reflexivity|].
    split; [intros s mr H; revert s mr H; no_run_event|].
    intros m' [= <-]. split; [|elsewhere].
    eexists. split; [read_stage Hn; reflexivity | reflexivity].
  - exists []. rewrite app_nil_r. split; [done|].
    split; [intros s mr H; by apply elem_of_nil in H | discriminate].
Qed.

Lemma run_stage_spec (n : string) m w (stage : StageStatus) :
  stage_of m n = Some stage ->
  forall o w', run_stage env n m w = (o, w') ->
  exists evs,
    trace w' = trace w ++ evs
    /\ (forall s mr, EvRun s mr ∈ evs ->
          s = n /\ in_progress_in mr n /\ same_elsewhere m mr n
          /\ forall e, raised (run env n mr) = Some e ->
                o = Raise e
                /\ after_raise (run env n mr) e mr n evs (disk w'))
    /\ (forall m', o = Ok (Some m') ->
          approved_in m' n /\ same_elsewhere m m' n).
Proof.
  intros Hn o w'.
  unfold run_stage, approve_stage, ask_gate.
  unfold bind, lift, ret, raise, emit, save_manifest, read_clock.
  destruct (_load_module n) as [_|e0].
  2:{ intros [= <- <-]. exists []. rewrite app_nil_r.
      split; [done|]. split; [no_run_event | discriminate]. }
  destruct (validate_inputs env n m) as [|err errs].
  2:{ intros [= <- <-]. eexists. split; [reflexivity|].
      split; [no_run_event | discriminate]. }
  cbn [disk clock trace].
  set (t := now env (clock w)).
  set (m1 := set_current_stage n (update_stage n _ m)).
  assert (Hm1 : in_progress_in m1 n /\ same_elsewhere m m1 n).
  { split; [|unfold m1; elsewhere].
    eexists. split; [unfold m1; read_stage Hn; reflexivity|reflexivity]. }
  destruct (raised (run env n m1)) as [e|] eqn:Hr;
    [destruct (exn_is_exception e) eqn:Hexc|].
  - (* the module raised an [Exception] *)
    intros [= <- <-]. cbn [trace disk].
    exists [EvValidate n m; EvSave m1; EvRun n m1;
            EvSave (update_stage n
                      (fun s => set_error
                         (Some (mkStageError (exn_type e)
                                  (truncate_500 (exn_str e))
                                  (last_completed_step s)))
                         (set_status "failed" s))
                      match checkpoint (run env n m1) with
                      | Some c =>
                          update_stage n
                            (set_last_completed_step (Some c)) m1
                      | None => m1
                      end)].
    split; [by rewrite <- !app_assoc|].
    split; [|discriminate].
    intros s mr H. pick_run H. injection H as -> ->.
    destruct Hm1 as [Hin Hsame].
    split; [done|]. split; [done|]. split; [done|].
    intros e0 He0. assert (e0 = e) by congruence. subst e0.
    split; [done|]. unfold after_raise. rewrite Hexc.
    split; [by exists [EvValidate n m; EvSave m1]|].
    unfold failure_recorded.
    destruct (checkpoint (run env n m1)) as [c|];
      (eexists; eexists;
       split; [unfold m1; read_stage Hn; reflexivity|];
       split; [unfold m1; read_stage Hn; reflexivity|];
       split; reflexivity).
  - (* the module raised something else *)
    intros [= <- <-]. cbn [trace disk].
    exists [EvValidate n m; EvSave m1; EvRun n m1].
    split; [by rewrite <- !app_assoc|].
    split; [|discriminate].
    intros s mr H. pick_run H. injection H as -> ->.
    destruct Hm1 as [Hin Hsame].
    split; [done|]. split; [done|]. split; [done|].
    intros e0 He0. assert (e0 = e) by congruence. subst e0.
    split; [done|]. unfold after_raise. rewrite Hexc.
    split; [by exists [EvValidate n m; EvSave m1] | done].
  - (* the module returned *)
    set (m2 := match checkpoint (run env n m1) with
               | Some c => _ | None => _ end).
    set (m3 := update_stage n _ m2).
    assert (Hm3 : exists st3, stage_of m3 n = Some st3).
    { unfold m3, m2, m1.
      destruct (checkpoint (run env n _)); eexists;
        read_stage Hn; reflexivity. }
    assert (Hsame3 : same_elsewhere m m3 n).
    { unfold m3, m2, m1.
      destruct (checkpoint (run env n _)); elsewhere. }
    destruct Hm3 as [st3 Hm3].
    assert (Hrun : forall s mr ev0 ev1 ev2 ev3,
               EvRun s mr
               ∈ [EvValidate n m; EvSave m1; EvRun n m1; ev0; ev1; ev2]
                    ++ ev3 ->
               (forall a b, ev0 <> EvRun a b) ->
               (forall a b, ev1 <> EvRun a b) ->
               (forall a b, ev2 <> EvRun a b) ->
               (forall a b, EvRun a b ∉ ev3) ->
               s = n /\ mr = m1).
    { intros s mr ev0 ev1 ev2 ev3 H H0 H1 H2 H3.
      apply elem_of_app in H as [H|H]; [|by apply H3 in H].
      repeat (apply elem_of_cons in H as [H|H];
              [first [discriminate H | by injection H
                     | by (symmetry in H; first
                             [apply H0 in H | apply H1 in H
                             | apply H2 in H])]|]).
      by apply elem_of_nil in H. }
    destruct (present_gate env n m3) eqn:Hgate.
    + destruct (_next_stage n) as [nxt|e0]; intros [= <- <-];
        cbn [trace disk].
      * eexists. split; [by rewrite <- !app_assoc|].
        split.
        -- intros s mr H.
           destruct (Hrun s mr _ _ _ [] H) as [-> ->];
             try (intros; discriminate).
           { intros a b Hab. by apply elem_of_nil in Hab. }
           destruct Hm1.
           split; [done|]. split; [done|]. split; [done|].
           intros e He; congruence.
        -- intros m' [= <-]. split.
           ++ eexists. split; [read_stage Hm3; reflexivity|reflexivity].
           ++ intros a Ha. rewrite stage_of_set_current, stage_of_update.
              rewrite decide_False by congruence. by apply Hsame3.
      * eexists. split; [by rewrite <- !app_assoc|].
        split; [|discriminate].
        intros s mr H. pick_run H. injection H as -> ->.
        destruct Hm1.
        split; [done|]. split; [done|]. split; [done|].
        intros e He; congruence.
    + intros [= <- <-]. cbn [trace disk].
      eexists. split; [by rewrite <- !app_assoc|].
      split; [|discriminate].
      intros s mr H. pick_run H. injection H as -> ->.
      destruct Hm1.
      split; [done|]. split; [done|]. split; [done|].
      intros e He; congruence.
Qed.

Lemma loop_body_spec (n : string) m w :
  forall o w', loop_body env n m w = (o, w') ->
  exists evs,
    trace w' = trace w ++ evs
    /\ (forall s mr, EvRun s mr ∈ evs ->
          s = n /\ in_progress_in mr n /\ same_elsewhere m mr n
          /\ forall e, raised (run env n mr) = Some e ->
                o = Raise e
                /\ after_raise (run env n mr) e mr n evs (disk w'))
    /\ (forall m', o = Ok (Some m') ->
          approved_in m' n /\ same_elsewhere m m' n).
Proof.
  intros o w'. unfold loop_body.
  unfold bind at 1, lift at 1, get_stage.
  destruct (stage_of m n) as [stage|] eqn:Hn.
  2:{ intros [= <- <-]. exists []. rewrite app_nil_r.
      split; [done|]. split; [no_run_event | discriminate]. }
  destruct (completed_and_approved stage) eqn:Hca.
  { intros [= <- <-]. exists []. rewrite app_nil_r.
    split; [done|]. split; [no_run_event|].
    intros m' [= <-]. split; [|done].
    exists stage. split; [done|].
    unfold completed_and_approved in Hca.
    apply andb_true_iff in Hca as [_ Hca].
    by destruct (gate_approved stage) as [[|]|]. }
  destruct (completed_awaiting_gate stage) eqn:Haw;
    [|by apply (run_stage_spec n m w stage)].
  unfold bind at 1, ask_gate, bind at 1, emit, ret.
  destruct (present_gate env n m).
  - unfold bind.
    destruct (approve_stage env n m _) as [r w1] eqn:Happ.
    destruct (approve_stage_spec n m _ stage Hn r w1 Happ)
      as (evs & Htr & Hnorun & Hok).
    cbn [trace] in Htr.
    destruct r as [m2|e]; intros [= <- <-].
    + exists (EvGate n m :: evs).
      split; [by rewrite Htr, <- app_assoc|].
      split; [|intros m' [= <-]; by apply Hok].
      intros s mr H. apply elem_of_cons in H as [H|H];
        [discriminate H | by apply Hnorun in H].
    + exists (EvGate n m :: evs).
      split; [by rewrite Htr, <- app_assoc|].
      split; [|discriminate].
      intros s mr H. apply elem_of_cons in H as [H|H];
        [discriminate H | by apply Hnorun in H].
  - unfold bind, save_manifest. intros [= <- <-]. cbn [trace].
    eexists. split; [by rewrite <- app_assoc|].
    split; [no_run_event | discriminate].
Qed.

Lemma approved_elsewhere m m' (n a : string) :
  same_elsewhere m m' n -> a <> n -> approved_in m a -> approved_in m' a.
Proof.
  intros Hsame Ha (st & Hst & Hg). exists st.
  split; [by rewrite (Hsame a Ha) | done].
Qed.

(** A failing module ends the walk, with the failure on disk. *)
Lemma run_stages_failure (names : list string) :
  forall m w r w', run_stages env names m w = (r, w') ->
  exists evs,
    trace w' = trace w ++ evs
    /\ forall s mr e,
         EvRun s mr ∈ evs -> raised (run env s mr) = Some e ->
         r = Raise e /\ in_progress_in mr s
         /\ after_raise (run env s mr) e mr s evs (disk w').
Proof.
  induction names as [|n names IH]; intros m w r w'.
  - intros [= <- <-]. exists []. rewrite app_nil_r. split; [done|].
    intros s mr e H. by apply elem_of_nil in H.
  - cbn [run_stages]. unfold bind at 1.
    destruct (loop_body env n m w) as [o w1] eqn:Hb.
    destruct (loop_body_spec n m w o w1 Hb) as (evs1 & Htr1 & Hrun1 & _).
    destruct o as [[m'|]|e1].
    + intros Hrec.
      destruct (IH m' w1 r w' Hrec) as (evs2 & Htr2 & Hfail2).
      exists (evs1 ++ evs2).
      split; [by rewrite Htr2, Htr1, app_assoc|].
      intros s mr e H He. apply elem_of_app in H as [H|H].
      * destruct (Hrun1 s mr H) as (-> & _ & _ & Hraise).
        by destruct (Hraise e He) as [? _].
      * destruct (Hfail2 s mr e H He) as (-> & Hin & Hafter).
        split; [done|]. split; [done|]. unfold after_raise in *.
        destruct (exn_is_exception e).
        -- destruct Hafter as ((evs0 & ->) & Hrec'). split; [|done].
           exists (evs1 ++ evs0). by rewrite app_assoc.
        -- destruct Hafter as ((evs0 & ->) & Hrec'). split; [|done].
           exists (evs1 ++ evs0). by rewrite app_assoc.
    + intros [= <- <-]. exists evs1. split; [done|].
      intros s mr e H He.
      destruct (Hrun1 s mr H) as (-> & _ & _ & Hraise).
      by destruct (Hraise e He) as [? _].
    + intros [= <- <-]. exists evs1. split; [done|].
      intros s mr e H He.
      destruct (Hrun1 s mr H) as (-> & Hin & _ & Hraise).
      destruct (Hraise e He) as ([= ->] & ?). by repeat split.
Qed.

(** A stage is started only after the stages walked before it have
    been approved. *)
Lemma run_stages_started (names : list string) :
  forall (A : list string) m w r w',
    NoDup (A ++ names) -> Forall (approved_in m) A ->
    run_stages env names m w = (r, w') ->
    exists evs,
      trace w' = trace w ++ evs
      /\ forall s mr,
           EvRun s mr ∈ evs ->
           in_progress_in mr s
           /\ exists pre post,
                names = pre ++ s :: post
                /\ Forall (approved_in mr) (A ++ pre).
Proof.
  induction names as [|n names IH]; intros A m w r w' Hnd HA.
  - intros [= <- <-]. exists []. rewrite app_nil_r. split; [done|].
    intros s mr H. by apply elem_of_nil in H.
  - cbn [run_stages]. unfold bind at 1.
    destruct (loop_body env n m w) as [o w1] eqn:Hb.
    destruct (loop_body_spec n m w o w1 Hb)
      as (evs1 & Htr1 & Hrun1 & Hok1).
    assert (HnA : forall a, a ∈ A -> a <> n).
    { intros a Ha ->. apply NoDup_app in Hnd as (_ & Hdis & _).
      apply (Hdis n Ha). by left. }
    assert (Hfirst : forall s mr, EvRun s mr ∈ evs1 ->
              in_progress_in mr s
              /\ exists pre post,
                   n :: names = pre ++ s :: post
                   /\ Forall (approved_in mr) (A ++ pre)).
    { intros s mr H.
      destruct (Hrun1 s mr H) as (-> & Hin & Hsame & _).
      split; [done|]. exists [], names. split; [done|].
      rewrite app_nil_r. apply Forall_forall. intros a Ha.
      apply (approved_elsewhere m mr n a Hsame (HnA a Ha)).
      by apply (proj1 (Forall_forall _ _) HA). }
    destruct o as [[m'|]|e1].
    + intros Hrec.
      destruct (Hok1 m' eq_refl) as [Happ Hsame].
      destruct (IH (A ++ [n]) m' w1 r w') as (evs2 & Htr2 & Hrun2).
      { by rewrite <- app_assoc. }
      { apply Forall_app. split.
        - apply Forall_forall. intros a Ha.
          apply (approved_elsewhere m m' n a Hsame (HnA a Ha)).
          by apply (proj1 (Forall_forall _ _) HA).
        - by constructor. }
      { done. }
      exists (evs1 ++ evs2).
      split; [by rewrite Htr2, Htr1, app_assoc|].
      intros s mr H. apply elem_of_app in H as [H|H]; [by apply Hfirst|].
      destruct (Hrun2 s mr H) as (Hin & pre & post & -> & Hall).
      split; [done|]. exists (n :: pre), post. split; [done|].
      by rewrite <- app_assoc in Hall.
    + intros [= <- <-]. by exists evs1.
    + intros [= <- <-]. by exists evs1.
Qed.

Lemma NoDup_drop_order (idx : nat) : NoDup (drop idx STAGE_ORDER).
Proof.
  do 5 (destruct idx as [|idx];
        [by apply (bool_decide_unpack _); vm_compute|]).
  cbn. constructor.
Qed.

Lemma run_pipeline_unfold (from_stage : option string) w :
  run_pipeline env from_stage w
  = match start_index from_stage with
    | Some idx => run_stages env (drop idx STAGE_ORDER) (disk w) w
    | None =>
        (Raise (ValueError
                  ("Unknown stage: " ++ default "" from_stage)), w)
    end.
Proof.
  unfold run_pipeline, start_index, bind, load_manifest, ret, raise.
  destruct from_stage as [[|c f]|]; try reflexivity.
  by destruct (index_of (String c f) STAGE_ORDER).
Qed.

(** *** Claim C5 *)

(** C5, amended. During one invocation of [run_pipeline], a stage is
    set to [in_progress] (and its module run) only while every stage
    that lies between the starting stage and it in the fixed order has
    [gate_approved = true]. Without [from_stage] the walk starts at
    ingestion, so these are all earlier stages; with [from_stage] the
    stages before [from_stage] are not looked at. *)
Theorem run_pipeline_gate_order (from_stage : option string) w :
  exists evs,
    trace (snd (run_pipeline env from_stage w)) = trace w ++ evs
    /\ forall s mr,
         EvRun s mr ∈ evs ->
         in_progress_in mr s
         /\ exists idx pre post,
              start_index from_stage = Some idx
              /\ drop idx STAGE_ORDER = pre ++ s :: post
              /\ Forall (approved_in mr) pre.
Proof.
  rewrite run_pipeline_unfold.
  destruct (start_index from_stage) as [idx|].
  - destruct (run_stages env (drop idx STAGE_ORDER) (disk w) w)
      as [r w'] eqn:Hrun.
    destruct (run_stages_started (drop idx STAGE_ORDER) [] (disk w)
                w r w' (NoDup_drop_order idx) (Forall_nil_2 _) Hrun)
      as (evs & Htr & Hall).
    exists evs. split; [done|].
    intros s mr H. destruct (Hall s mr H) as (Hin & pre & post & ? & ?).
    split; [done|]. by exists idx, pre, post.
  - exists []. rewrite app_nil_r. split; [done|].
    intros s mr H. by apply elem_of_nil in H.
Qed.

(** *** Claim C9 *)

(** C9, amended. If a stage module's [run] raises an exception of a
    class derived from [Exception], the orchestrator sets that stage to
    [failed] with an error record holding the exception's type name, the
    first 500 code points of its message and the last checkpoint,
    persists that manifest as its last action after the module run,
    re-raises the same exception, and starts no later stage. An
    exception that is no [Exception] ([KeyboardInterrupt], [SystemExit])
    is not caught: it leaves [run_pipeline] at once, the manifest file
    still shows the stage [in_progress] as written before the module
    run, and no later stage is started either. *)
Theorem run_pipeline_failure (from_stage : option string) w :
  exists evs,
    trace (snd (run_pipeline env from_stage w)) = trace w ++ evs
    /\ forall s mr e,
         EvRun s mr ∈ evs -> raised (run env s mr) = Some e ->
         let w' := snd (run_pipeline env from_stage w) in
         fst (run_pipeline env from_stage w) = Raise e
         /\ (exn_is_exception e = true ->
               (exists evs0, evs = evs0 ++ [EvRun s mr; EvSave (disk w')])
               /\ failure_recorded (run env s mr) e mr (disk w') s)
         /\ (exn_is_exception e = false ->
               (exists evs0, evs = evs0 ++ [EvRun s mr])
               /\ disk w' = mr /\ in_progress_in mr s).
Proof.
  rewrite run_pipeline_unfold.
  destruct (start_index from_stage) as [idx|].
  - destruct (run_stages env (drop idx STAGE_ORDER) (disk w) w)
      as [r w'] eqn:Hrun.
    destruct (run_stages_failure (drop idx STAGE_ORDER) (disk w)
                w r w' Hrun) as (evs & Htr & Hall).
    exists evs. split; [done|]. intros s mr e H He.
    destruct (Hall s mr e H He) as (Hr & Hin & Hafter).
    cbn [fst snd]. split; [done|].
    unfold after_raise in Hafter.
    destruct (exn_is_exception e).
    + split; [intros _; exact Hafter | intros [=]].
    + split; [intros [=] | intros _].
      destruct Hafter as [Hlast Hdisk]. by repeat split.
  - exists []. rewrite app_nil_r. split; [done|].
    intros s mr e H. by apply elem_of_nil in H.
Qed.
End WithManifest.

(** C5, as claimed, fails with [from_stage]: ingestion has completed but
    its gate has not been approved; started at editing, the orchestrator
    sets editing to [in_progress] and runs its module while ingestion,
    earlier in the fixed order, has [gate_approved = null]. *)
Lemma from_stage_skips_earlier_gates :
  let w' :=
    snd (run_pipeline quiet_env (Some "editing")
           (start_world ingestion_done)) in
  exists mr,
    EvRun "editing" mr ∈ trace w'
    /\ in_progress_in mr "editing"
    /\ ~ approved_in mr "ingestion".
Proof.
  cbv zeta. eexists. split; [|split].
  - apply list_elem_of_lookup. exists 2%nat. vm_compute. reflexivity.
  - eexists. split; [vm_compute; reflexivity | reflexivity].
  - intros (st & Hst & Hg). vm_compute in Hst.
    injection Hst as <-. discriminate Hg.
Qed.

(** Without [from_stage], on a new project whose gates are all approved,
    editing is started with ingestion approved. *)
Lemma run_pipeline_gate_order_witness :
  exists mr,
    EvRun "editing" mr
    ∈ trace (snd (run_pipeline quiet_env None (start_world fresh_manifest)))
    /\ approved_in mr "ingestion".
Proof.
  destruct (run_pipeline_gate_order quiet_env None
              (start_world fresh_manifest)) as (evs & Htr & Hall).
  cbn [start_world trace app] in Htr.
  eexists. split.
  - apply list_elem_of_lookup. exists 8%nat. vm_compute. reflexivity.
  - match goal with |- approved_in ?mr _ =>
      destruct (Hall "editing" mr) as (_ & idx & pre & post & Hi & Hd & Hp)
    end.
    + rewrite <- Htr. apply list_elem_of_lookup. exists 8%nat.
      vm_compute. reflexivity.
    + injection Hi as <-. cbn in Hd.
      destruct pre as [|p pre]; [discriminate Hd|].
      injection Hd as <- _. by apply Forall_cons in Hp as [Hp _].
Defined.

(** C9, as claimed, fails for an exception that is no [Exception]: the
    mixing module is interrupted from the keyboard. The run ends with
    [KeyboardInterrupt], the manifest file still shows mixing
    [in_progress] without an error record, and the module run is the last
    interaction: nothing was persisted after it. *)
Lemma interrupt_is_not_recorded :
  let res :=
    run_pipeline interrupted_env None (start_world fresh_manifest) in
  fst res = Raise keyboard_interrupt
  /\ (exists st,
        stage_of (disk (snd res)) "mixing" = Some st
        /\ status st = "in_progress" /\ error st = None
        /\ last_completed_step st = None)
  /\ last (trace (snd res)) = Some (EvRun "mixing" (disk (snd res))).
Proof.
  cbv zeta. split; [vm_compute; reflexivity|]. split.
  - eexists. split; [vm_compute; reflexivity|]. by repeat split.
  - vm_compute. reflexivity.
Qed.

(** The mixing module raises [FileNotFoundError] after its [timeline]
    checkpoint: the run ends with that exception and the failure is on
    disk. *)
Lemma run_pipeline_failure_witness :
  exn_is_exception
    (mkExn "FileNotFoundError" "Source track not found: tracks/bob.wav")
  = true
  /\ fst (run_pipeline failing_env None (start_world fresh_manifest))
     = Raise (mkExn "FileNotFoundError"
                "Source track not found: tracks/bob.wav")
  /\ exists st,
       stage_of
         (disk (snd (run_pipeline failing_env None
                       (start_world fresh_manifest)))) "mixing"
       = Some st
       /\ status st = "failed"
       /\ error st
          = Some (mkStageError (chars "FileNotFoundError")
                    (chars "Source track not found: tracks/bob.wav")
                    (Some "timeline")).
Proof.
  destruct (run_pipeline_failure failing_env None
              (start_world fresh_manifest)) as (evs & Htr & Hall).
  cbn [start_world trace app] in Htr.
  match type of Htr with _ = ?l =>
    assert (Hin : EvRun "mixing"
                    (default (disk (start_world fresh_manifest))
                       (match l !! 14%nat with
                        | Some (EvRun _ mr) => Some mr
                        | _ => None
                        end)) ∈ evs)
  end.
  { rewrite <- Htr. apply list_elem_of_lookup. exists 14%nat.
    vm_compute. reflexivity. }
  destruct (Hall "mixing" _ _ Hin eq_refl) as (Hr & Hcaught & _).
  destruct (Hcaught eq_refl) as (_ & st & st' & _ & Hst' & Hstatus & Herr).
  split; [reflexivity|]. split; [exact Hr|].
  exists st'. split; [exact Hst'|]. split; [exact Hstatus|].
  rewrite Herr. vm_compute. reflexivity.
Defined.
End OrchestratorFacts.

(** ** The region mapper and the extraction ([mixing/timeline.py],
       [mixing/extract.py]) *)

Module MixingFacts.
Import Runtime Timeline Extract MixingProps.

Lemma region_of_unmapped (alignment : Alignment.AlignmentMap)
    (track_map : gmap string string) (e : Edl.Edit) :
  track_map !! speaker_or_empty e = None ->
  let r := region_of alignment track_map e in
  edit_id r = Edl.edit_id e /\ track_path r = "" /\ offset_ms r = 0%Q.
Proof. intros H. unfold region_of. by rewrite H. Qed.

Lemma region_in_timeline (edl : Edl.EDLSidecar)
    (alignment : Alignment.AlignmentMap) (track_map : gmap string string)
    (e : Edl.Edit) :
  e ∈ Edl.keep_edits edl ->
  region_of alignment track_map e ∈ build_timeline edl alignment track_map.
Proof.
  intros He. unfold build_timeline, sorted_by.
  rewrite stable_sort_perm. apply list_elem_of_fmap. eauto.
Qed.

Section WithFilesystem.
Variable path_join : string -> string -> string.
Variable path_exists : string -> bool.
Variable ffmpeg : ExtractCall -> option PyExn.
Variables (project_root tmp_dir : string) (rate depth : Z).

Abbreviation step :=
  (extract_step path_join path_exists ffmpeg project_root tmp_dir rate
     depth).
Abbreviation loop :=
  (extract_loop path_join path_exists ffmpeg project_root tmp_dir rate
     depth).

(** A region without a track path is passed over. *)
Lemma extract_step_skip (st : ExtractState) (i : nat) (r : AudioRegion) :
  track_path r = "" -> step st i r = (st, None).
Proof. intros H. unfold extract_step. by rewrite H. Qed.

(** Whatever a step adds comes from a region with a track path. *)
Lemma extract_step_adds (st : ExtractState) (i : nat) (r : AudioRegion) :
  let st' := fst (step st i r) in
  (forall id p, extracted st' !! id = Some p ->
                extracted st !! id = Some p
                \/ (edit_id r = id /\ track_path r <> ""))
  /\ (forall c, c ∈ calls st' ->
                c ∈ calls st
                \/ (track_path r <> ""
                    /\ input_path c
                       = path_join project_root (track_path r))).
Proof.
  unfold extract_step.
  destruct (String.eqb (track_path r) "") eqn:E; [by auto|].
  apply String.eqb_neq in E.
  destruct (negb (path_exists _)); [by auto|].
  match goal with |- context [ffmpeg ?c] => destruct (ffmpeg c) end;
    cbn [fst extracted calls]; split.
  - auto.
  - intros c Hc. apply elem_of_app in Hc as [Hc|Hc]; [by left|].
    apply list_elem_of_singleton in Hc as ->. by right.
  - intros id p Hp. rewrite lookup_insert in Hp.
    case_decide; [by right | by left].
  - intros c Hc. apply elem_of_app in Hc as [Hc|Hc]; [by left|].
    apply list_elem_of_singleton in Hc as ->. by right.
Qed.

Lemma extract_loop_adds (regions : list AudioRegion) :
  forall (st : ExtractState) (i : nat),
    let st' := fst (loop st i regions) in
    (forall id p, extracted st' !! id = Some p ->
                  extracted st !! id = Some p
                  \/ exists r, r ∈ regions /\ edit_id r = id
                               /\ track_path r <> "")
    /\ (forall c, c ∈ calls st' ->
                  c ∈ calls st
                  \/ exists r, r ∈ regions /\ track_path r <> ""
                               /\ input_path c
                                  = path_join project_root (track_path r)).
Proof.
  induction regions as [|r regions IH]; intros st i; cbn [extract_loop].
  - by auto.
  - destruct (extract_step_adds st i r) as [Hx Hc].
    destruct (step st i r) as [st1 [e|]] eqn:Hstep; cbn [fst] in *.
    + split.
      * intros id p Hp. destruct (Hx id p Hp) as [?|[? ?]]; [by left|].
        right. exists r. split; [by left | done].
      * intros c Hcall. destruct (Hc c Hcall) as [?|[? ?]]; [by left|].
        right. exists r. split; [by left | done].
    + destruct (IH st1 (S i)) as [IHx IHc]. split.
      * intros id p Hp.
        destruct (IHx id p Hp) as [Hp1|(r' & Hr' & ? & ?)].
        -- destruct (Hx id p Hp1) as [?|[? ?]]; [by left|].
           right. exists r. split; [by left | done].
        -- right. exists r'. split; [by right | done].
      * intros c Hcall.
        destruct (IHc c Hcall) as [Hc1|(r' & Hr' & ? & ?)].
        -- destruct (Hc c Hc1) as [?|[? ?]]; [by left|].
           right. exists r. split; [by left | done].
        -- right. exists r'. split; [by right | done].
Qed.

(** Regions without a track path can be left out of the list without
    changing the extraction, were it not for the numbering of the
    output files: a list of such regions only extracts nothing. *)
Lemma extract_loop_all_skipped (regions : list AudioRegion) :
  Forall (fun r => track_path r = "") regions ->
  forall st i, loop st i regions = (st, None).
Proof.
  induction 1 as [|r regions Hr _ IH]; intros st i; cbn [extract_loop].
  - reflexivity.
  - by rewrite (extract_step_skip st i r Hr).
Qed.

(** *** Claim C10 *)

(** C10. For every keep edit whose speaker is absent from the
    speaker-to-track table, the region mapper emits, without raising,
    a region with an empty [track_path] and alignment offset 0; the
    extraction passes over every region with an empty [track_path]: the
    step changes nothing and raises nothing, every FFmpeg run and every
    entry of the extracted table comes from a region that has a track
    path, so no audio is extracted for that keep edit unless another
    region carries its id. *)
Theorem unmapped_speaker_is_skipped (edl : Edl.EDLSidecar)
    (alignment : Alignment.AlignmentMap)
    (track_map : gmap string string) (e : Edl.Edit) :
  e ∈ Edl.keep_edits edl ->
  track_map !! speaker_or_empty e = None ->
  let regions := build_timeline edl alignment track_map in
  let r := region_of alignment track_map e in
  let final :=
    fst (extract_regions path_join path_exists ffmpeg project_root tmp_dir
           rate depth regions) in
  (r ∈ regions /\ edit_id r = Edl.edit_id e
   /\ track_path r = "" /\ offset_ms r = 0%Q)
  /\ (forall st i, step st i r = (st, None))
  /\ (forall c, c ∈ calls final ->
        exists r', r' ∈ regions /\ track_path r' <> ""
                   /\ input_path c
                      = path_join project_root (track_path r'))
  /\ (forall p, extracted final !! Edl.edit_id e = Some p ->
        exists r', r' ∈ regions /\ edit_id r' = Edl.edit_id e
                   /\ track_path r' <> "").
Proof.
  intros He Hmap regions r final.
  destruct (region_of_unmapped alignment track_map e Hmap)
    as (Hid & Hpath & Hoff).
  split; [|split; [|split]].
  - split; [by apply region_in_timeline | done].
  - intros st i. by apply extract_step_skip.
  - intros c Hc.
    destruct (extract_loop_adds regions (mkExtractState ∅ []) 0)
      as [_ Hcalls].
    destruct (Hcalls c Hc) as [Hnil|?]; [|done].
    by apply elem_of_nil in Hnil.
  - intros p Hp.
    destruct (extract_loop_adds regions (mkExtractState ∅ []) 0)
      as [Hx _].
    destruct (Hx _ p Hp) as [Hnil|?]; [|done].
    cbn [extracted] in Hnil. by rewrite lookup_empty in Hnil.
Qed.
End WithFilesystem.

(** Bob has no track: his keep edit becomes a region without a path, and
    the extraction of the timeline runs FFmpeg not once. *)
Lemma unmapped_speaker_is_skipped_witness :
  bob_keep ∈ Edl.keep_edits bob_edl
  /\ alice_tracks !! speaker_or_empty bob_keep = None
  /\ track_path (region_of alice_alignment alice_tracks bob_keep) = ""
  /\ extract_regions posix_join all_exist ffmpeg_ok "/project"
       "/project/tmp" 48000 24
       (build_timeline bob_edl alice_alignment alice_tracks)
     = (mkExtractState ∅ [], None).
Proof.
  assert (Hk : bob_keep ∈ Edl.keep_edits bob_edl) by (by left).
  assert (Hm : alice_tracks !! speaker_or_empty bob_keep = None)
    by reflexivity.
  split; [exact Hk|]. split; [exact Hm|].
  destruct (unmapped_speaker_is_skipped posix_join all_exist ffmpeg_ok
              "/project" "/project/tmp" 48000 24
              bob_edl alice_alignment alice_tracks bob_keep Hk Hm)
    as ((_ & _ & Hpath & _) & Hskip & _).
  split; [exact Hpath|].
  unfold extract_regions.
  change (build_timeline bob_edl alice_alignment alice_tracks)
    with [region_of alice_alignment alice_tracks bob_keep].
  cbn [extract_loop]. by rewrite Hskip.
Defined.
End MixingFacts.

(** ** The auto-cut cap in floating point (claims C1 and C2) *)

Module FloatCapFacts.
Import FloatEdl FloatEditingModule FloatProps.

(** *** The order of the visit *)

Section VisitOrder.
Variable key : nat -> Q.

Abbreviation key_before := (FloatProps.key_before key).

Lemma key_before_le (i j : nat) : key_before i j -> (key i <= key j)%Q.
Proof. intros [H|[H _]]; lra. Qed.

Lemma insert_sorted_key_before (x : nat) (l : list nat) :
  StronglySorted key_before l -> Forall (fun y => (x < y)%nat) l ->
  StronglySorted key_before
    (insert_sorted (fun a b => Qle_bool (key a) (key b)) x l).
Proof.
  intros Hs. induction Hs as [|y ys Hys IH Hall]; intros Hlt;
    cbn [insert_sorted].
  - by repeat constructor.
  - apply Forall_cons in Hlt as [Hxy Hlt].
    destruct (Qle_bool (key x) (key y)) eqn:E.
    + apply Qle_bool_iff in E.
      constructor; [by constructor|].
      assert (Hy : key_before x y).
      { destruct (Qlt_le_dec (key x) (key y)) as [?|?];
          [by left | right; split; [lra | done]]. }
      constructor; [done|].
      apply Forall_forall. intros z Hz.
      pose proof (key_before_le y z
                    (proj1 (Forall_forall _ _) Hall z Hz)) as Hyz.
      pose proof (proj1 (Forall_forall _ _) Hlt z Hz) as Hxz.
      destruct (Qlt_le_dec (key x) (key z)) as [?|?];
        [by left | right; split; [lra | done]].
    + apply Qle_bool_false_iff in E.
      constructor; [by apply IH|].
      apply Forall_insert_sorted; [by left | done].
Qed.

Lemma stable_sort_key_before (l : list nat) :
  StronglySorted lt l ->
  StronglySorted key_before
    (stable_sort (fun a b => Qle_bool (key a) (key b)) l).
Proof.
  induction 1 as [|x xs Hxs IH Hall]; cbn [stable_sort]; [constructor|].
  apply insert_sorted_key_before; [done|].
  by rewrite stable_sort_perm.
Qed.
End VisitOrder.

Lemma seq_StronglySorted (n start : nat) :
  StronglySorted lt (seq start n).
Proof.
  revert start. induction n as [|n IH]; intros start; [constructor|].
  cbn [seq]. constructor; [apply IH|].
  apply Forall_forall. intros y Hy. apply elem_of_seq in Hy. lia.
Qed.

Section WithArith.
Context {F : Type} {arith : Fp.Arith F}.
Implicit Types (cuts out : list (Edit F)) (e : Edit F) (used budget : F).

Lemma visit_perm cuts : sorted_refs cuts ≡ₚ seq 0 (length cuts).
Proof. apply stable_sort_perm. Qed.

Lemma visit_NoDup cuts : NoDup (sorted_refs cuts).
Proof. rewrite visit_perm. apply NoDup_seq. Qed.

Lemma ref_key_conf cuts (r : nat) :
  (ref_key cuts r == - ref_conf cuts r)%Q.
Proof.
  unfold ref_key, ref_conf, neg_confidence, confidence_or_0.
  destruct (cuts !! r); reflexivity.
Qed.

(** The visit goes by descending confidence, ties in list order. *)
Lemma sorted_refs_order cuts :
  StronglySorted (visits_before cuts) (sorted_refs cuts).
Proof.
  pose proof (stable_sort_key_before (ref_key cuts)
                (seq 0 (length cuts)) (seq_StronglySorted _ _)) as Hs.
  fold (sorted_by (ref_key cuts) (seq 0 (length cuts))) in Hs.
  fold (sorted_refs cuts) in Hs.
  induction Hs as [|x xs Hxs IH Hall]; constructor; [done|].
  eapply Forall_impl; [exact Hall|].
  intros y Hy. unfold key_before in Hy. unfold visits_before.
  pose proof (ref_key_conf cuts x). pose proof (ref_key_conf cuts y).
  destruct Hy as [Hy|[Hy Hlt]]; [left; lra | right; split; [lra|done]].
Qed.

(** *** The loop *)

Lemma demote_not_auto e : auto_applied (demote e) = false.
Proof. reflexivity. Qed.

Lemma visited_cons (r : nat) (refs : list nat) cuts :
  visited (r :: refs) cuts
  = match cuts !! r with
    | Some e => e :: visited refs cuts
    | None => visited refs cuts
    end.
Proof. reflexivity. Qed.

Lemma accumulate_cons used e (es : list (Edit F)) :
  accumulate used (e :: es)
  = accumulate (if auto_applied e then Fp.add used (duration e) else used)
      es.
Proof. reflexivity. Qed.

(** What the loop leaves behind: the edits that were not auto-applied as
    they were; every auto-applied edit kept or demoted by the test on
    [used] as it was when the loop came to it; and [used] itself, which
    is at most [budget] once anything has been added to it. *)
Lemma cap_loop_spec budget (refs : list nat) :
  NoDup refs ->
  forall used cuts,
    let used' := fst (cap_loop budget refs used cuts) in
    let out := snd (cap_loop budget refs used cuts) in
    length out = length cuts
    /\ (forall i, i ∉ refs -> out !! i = cuts !! i)
    /\ (forall i e, cuts !! i = Some e -> auto_applied e = false ->
          out !! i = Some e)
    /\ (forall pre r post e,
          refs = pre ++ r :: post ->
          cuts !! r = Some e -> auto_applied e = true ->
          out !! r
          = Some (if Fp.le (Fp.add (accumulate used (visited pre out))
                              (duration e)) budget
                  then e else demote e))
    /\ used' = accumulate used (visited refs out)
    /\ (used' = used \/ Fp.le used' budget = true).
Proof.
  induction refs as [|r0 rest IH]; intros Hnd used cuts.
  { cbn. repeat split; try done; [|by left].
    intros pre r post e H. by destruct pre. }
  apply NoDup_cons in Hnd as [Hnin Hnd].
  specialize (IH Hnd). cbv zeta. cbn [cap_loop].
  destruct (cuts !! r0) as [e0|] eqn:E0.
  - assert (Hr0 : (r0 < length cuts)%nat) by (by eapply lookup_lt_Some).
    destruct (auto_applied e0) eqn:Ea;
      [destruct (Fp.le (Fp.add used (duration e0)) budget) eqn:Efit|].
    + (* kept *)
      destruct (IH (Fp.add used (duration e0)) cuts)
        as (Hlen & Hout & Hna & Hsplit & Hused & Hb).
      set (out := snd (cap_loop budget rest _ cuts)) in *.
      assert (Ho : out !! r0 = Some e0) by (by rewrite (Hout r0 Hnin)).
      split; [done|]. split.
      { intros i Hi. apply Hout. intros H. apply Hi. by right. }
      split; [done|]. split.
      { intros pre r post e Hrefs Hr Hauto.
        destruct pre as [|p pre]; injection Hrefs as <- Hrest.
        - assert (e = e0) by congruence. subst e.
          change (accumulate used (visited [] out)) with used.
          rewrite Efit. by rewrite Ho.
        - rewrite visited_cons, Ho, accumulate_cons, Ea.
          by apply (Hsplit pre r post e). }
      split.
      { by rewrite visited_cons, Ho, accumulate_cons, Ea. }
      right. destruct Hb as [Hb|Hb]; [by rewrite Hb | done].
    + (* demoted *)
      set (cuts1 := <[r0 := set_review_flag _ _]> cuts).
      destruct (IH used cuts1)
        as (Hlen & Hout & Hna & Hsplit & Hused & Hb).
      set (out := snd (cap_loop budget rest used cuts1)) in *.
      assert (Ho : out !! r0 = Some (demote e0)).
      { rewrite (Hout r0 Hnin). unfold cuts1.
        by rewrite list_lookup_insert_eq. }
      split; [by rewrite Hlen; unfold cuts1; rewrite length_insert|].
      split.
      { intros i Hi. rewrite Hout by (intros H; apply Hi; by right).
        unfold cuts1. apply list_lookup_insert_ne.
        intros ->. apply Hi. by left. }
      split.
      { intros i e Hi Hauto. apply Hna; [|done].
        unfold cuts1. rewrite list_lookup_insert_ne; [done|].
        intros ->. congruence. }
      split.
      { intros pre r post e Hrefs Hr Hauto.
        destruct pre as [|p pre]; injection Hrefs as <- Hrest.
        - assert (e = e0) by congruence. subst e.
          change (accumulate used (visited [] out)) with used.
          rewrite Efit. by rewrite Ho.
        - rewrite visited_cons, Ho, accumulate_cons, demote_not_auto.
          apply (Hsplit pre r post e Hrest); [|done].
          unfold cuts1. rewrite list_lookup_insert_ne; [done|].
          intros ->. apply Hnin. rewrite Hrest.
          apply elem_of_app. right. by left. }
      split; [|done].
      by rewrite visited_cons, Ho, accumulate_cons, demote_not_auto.
    + (* never auto-applied *)
      destruct (IH used cuts)
        as (Hlen & Hout & Hna & Hsplit & Hused & Hb).
      set (out := snd (cap_loop budget rest used cuts)) in *.
      assert (Ho : out !! r0 = Some e0) by (by rewrite (Hout r0 Hnin)).
      split; [done|]. split.
      { intros i Hi. apply Hout. intros H. apply Hi. by right. }
      split; [done|]. split.
      { intros pre r post e Hrefs Hr Hauto.
        destruct pre as [|p pre]; injection Hrefs as <- Hrest.
        - congruence.
        - rewrite visited_cons, Ho, accumulate_cons, Ea.
          by apply (Hsplit pre r post e). }
      split; [|done].
      by rewrite visited_cons, Ho, accumulate_cons, Ea.
  - (* a reference to nothing *)
    destruct (IH used cuts) as (Hlen & Hout & Hna & Hsplit & Hused & Hb).
    set (out := snd (cap_loop budget rest used cuts)) in *.
    assert (Ho : out !! r0 = None) by (by rewrite (Hout r0 Hnin)).
    split; [done|]. split.
    { intros i Hi. apply Hout. intros H. apply Hi. by right. }
    split; [done|]. split.
    { intros pre r post e Hrefs Hr Hauto.
      destruct pre as [|p pre]; injection Hrefs as <- Hrest.
      - congruence.
      - rewrite visited_cons, Ho. by apply (Hsplit pre r post e). }
    split; [|done].
    by rewrite visited_cons, Ho.
Qed.

(** *** Claim C1 *)

(** C1, amended. For every edit set and every episode duration [d > 0],
    after the capping step either the cap has not run, because the sum
    of the auto-applied durations divided by [d] is not above 0.5 as the
    floats compare, and the edits are as they were; or it has run, and
    the durations of the edits left auto-applied, added to [used] in the
    order of the loop (descending confidence), come to at most [0.5 * d]
    as the floats compare, unless nothing was added to [used]. All sums,
    products and comparisons are those of the float arithmetic, of
    which nothing is assumed. *)
Theorem cap_respects_budget (d : F) (all_cuts : list (Edit F)) :
  Fp.lt Fp.zero d = true ->
  let out := cap_auto_cuts d all_cuts in
  let used :=
    accumulate Fp.zero (visited (sorted_refs all_cuts) out) in
  (Fp.lt Fp.half (Fp.div (auto_cut_time out) d) = false
   /\ out = all_cuts)
  \/ (Fp.lt Fp.half (Fp.div (auto_cut_time all_cuts) d) = true
      /\ (used = Fp.zero \/ Fp.le used (Fp.mul d Fp.half) = true)).
Proof.
  intros Hd. cbv zeta. unfold cap_auto_cuts. rewrite Hd. cbn [andb].
  destruct (Fp.lt Fp.half (Fp.div (auto_cut_time all_cuts) d)) eqn:E.
  - right. split; [done|].
    destruct (cap_loop_spec (Fp.mul d Fp.half) (sorted_refs all_cuts)
                (visit_NoDup all_cuts) Fp.zero all_cuts)
      as (_ & _ & _ & _ & Hused & Hb).
    cbv zeta in Hused, Hb. by rewrite <- Hused.
  - by left.
Qed.

(** *** Claim C2 *)

(** C2, amended. When the cap runs, it visits every edit once, in
    descending order of confidence (a missing confidence counting as 0),
    edits of equal confidence in list order. An auto-applied edit stays
    as it is if [used + duration <= budget] holds for the durations
    added to [used] so far, and is demoted otherwise: [auto_applied]
    becomes false and [review_flag] the budget message, nothing else
    changes, and the loop goes on to the next edit. Edits that were not
    auto-applied are left as they are. In the end [used], the sum of the
    durations left auto-applied in the order of the visit, is at most
    the budget, unless nothing was added. Sums and comparisons are
    those of the float arithmetic. *)
Theorem cap_demotes_greedily (d : F) (all_cuts : list (Edit F)) :
  Fp.lt Fp.zero d = true ->
  Fp.lt Fp.half (Fp.div (auto_cut_time all_cuts) d) = true ->
  let out := cap_auto_cuts d all_cuts in
  let refs := sorted_refs all_cuts in
  let budget := Fp.mul d Fp.half in
  length out = length all_cuts
  /\ refs ≡ₚ seq 0 (length all_cuts)
  /\ StronglySorted (visits_before all_cuts) refs
  /\ (forall i e, all_cuts !! i = Some e -> auto_applied e = false ->
        out !! i = Some e)
  /\ (forall pre r post e,
        refs = pre ++ r :: post ->
        all_cuts !! r = Some e -> auto_applied e = true ->
        let used := accumulate Fp.zero (visited pre out) in
        out !! r
        = Some (if Fp.le (Fp.add used (duration e)) budget
                then e else demote e))
  /\ (forall e,
        auto_applied (demote e) = false
        /\ review_flag (demote e) = Some EditingModule.BUDGET_FLAG
        /\ set_review_flag (review_flag e)
             (set_auto_applied (auto_applied e) (demote e)) = e)
  /\ (let used := accumulate Fp.zero (visited refs out) in
      used = Fp.zero \/ Fp.le used budget = true).
Proof.
  intros Hd Hover. cbv zeta. unfold cap_auto_cuts.
  rewrite Hd, Hover. cbn [andb].
  destruct (cap_loop_spec (Fp.mul d Fp.half) (sorted_refs all_cuts)
              (visit_NoDup all_cuts) Fp.zero all_cuts)
    as (Hlen & _ & Hna & Hsplit & Hused & Hb).
  cbv zeta in Hlen, Hna, Hsplit, Hused, Hb.
  split; [done|]. split; [apply visit_perm|].
  split; [apply sorted_refs_order|]. split; [done|].
  split; [done|]. split.
  { intros e. split; [done|]. split; [done|]. by destruct e. }
  by rewrite <- Hused.
Qed.
End WithArith.

(** In binary64, on an episode of 1.2 s with the non-overlapping
    auto-applied cuts [0, 0.1], [0.2, 0.4] and [0.5, 0.8]: the cap runs
    and demotes nothing. *)
Lemma cap_respects_budget_witness :
  Fp.lt Fp.zero episode_1_2 = true
  /\ Fp.lt Fp.half (Fp.div (auto_cut_time tenth_cuts) episode_1_2) = true
  /\ Fp.le
       (accumulate Fp.zero
          (visited (sorted_refs tenth_cuts)
             (cap_auto_cuts episode_1_2 tenth_cuts)))
       (Fp.mul episode_1_2 Fp.half) = true.
Proof.
  assert (Hd : Fp.lt Fp.zero episode_1_2 = true) by reflexivity.
  split; [exact Hd|].
  destruct (cap_respects_budget episode_1_2 tenth_cuts Hd)
    as [[Hskip _]|[Hrun Hused]].
  - vm_compute in Hskip. discriminate Hskip.
  - split; [exact Hrun|]. vm_compute. reflexivity.
Defined.

(** C1, as claimed, fails by rounding. In binary64, on the episode of
    1.2 s (budget 0.6 s) the cap runs on the cuts [0, 0.1], [0.2, 0.4]
    and [0.5, 0.8], visits them from the last to the first, finds
    [0.30000000000000004 + 0.2 + 0.1 <= 0.6] and demotes nothing; but
    the durations of these auto-applied edits sum to more than
    [0.5 * d]: to 0.6000000000000001 when summed in list order as
    [sum] does, and also as exact numbers. *)
Lemma cap_sum_exceeds_budget :
  let out := cap_auto_cuts episode_1_2 tenth_cuts in
  let budget := Fp.mul episode_1_2 Fp.half in
  Fp.lt Fp.zero episode_1_2 = true
  /\ Fp.lt Fp.half (Fp.div (auto_cut_time tenth_cuts) episode_1_2) = true
  /\ out = tenth_cuts
  /\ Forall (fun e => auto_applied e = true) out
  /\ Fp.lt budget (auto_cut_time out) = true
  /\ (default 0 (Fp.value budget) < exact_sum (map duration out))%Q.
Proof.
  cbv zeta.
  assert (Hout : cap_auto_cuts episode_1_2 tenth_cuts = tenth_cuts)
    by (vm_compute; reflexivity).
  rewrite Hout.
  split; [reflexivity|]. split; [vm_compute; reflexivity|].
  split; [reflexivity|]. split; [by repeat constructor|].
  split; vm_compute; reflexivity.
Qed.

(** C2, as claimed, fails: on a 100-second episode (budget 50 s) with
    auto-applied cuts of 40 s, 20 s and 5 s at confidences 0.9, 0.8 and
    0.7, the cap demotes the 0.8 cut and keeps the 0.7 cut, so the edits
    left auto-applied are not a highest-confidence prefix and the result
    differs from demoting lowest-first until the sum fits. (All numbers
    of this run are exact in binary64.) *)
Lemma cap_not_lowest_first :
  ~ demotes_lowest_first three_cuts (cap_auto_cuts episode_100 three_cuts)
  /\ (auto_applied <$> cap_auto_cuts episode_100 three_cuts)
     = [true; false; true]
  /\ (auto_applied <$> spec_cap_auto_cuts episode_100 three_cuts)
     = [true; false; false].
Proof.
  split; [|split; vm_compute; reflexivity].
  intros H.
  assert (Hout : cap_auto_cuts episode_100 three_cuts
                 = [cut_40s; demote cut_20s; cut_5s])
    by (vm_compute; reflexivity).
  rewrite Hout in H.
  specialize (H 2%nat 1%nat cut_5s cut_20s cut_5s (demote cut_20s)
                eq_refl eq_refl eq_refl eq_refl eq_refl eq_refl eq_refl
                eq_refl).
  discriminate H.
Qed.

(** The amended rule on the three cuts of the counterexample: the 5 s cut
    at the end of the visit is kept on top of the 40 s cut. *)
Lemma cap_demotes_greedily_witness :
  Fp.lt Fp.zero episode_100 = true
  /\ Fp.lt Fp.half (Fp.div (auto_cut_time three_cuts) episode_100) = true
  /\ sorted_refs three_cuts = [0; 1; 2]%nat
  /\ cap_auto_cuts episode_100 three_cuts !! 2%nat = Some cut_5s.
Proof.
  assert (Hd : Fp.lt Fp.zero episode_100 = true) by reflexivity.
  assert (Hover : Fp.lt Fp.half
                    (Fp.div (auto_cut_time three_cuts) episode_100)
                  = true) by reflexivity.
  split; [exact Hd|]. split; [exact Hover|]. split; [reflexivity|].
  destruct (cap_demotes_greedily episode_100 three_cuts Hd Hover)
    as (_ & _ & _ & _ & Hstep & _).
  rewrite (Hstep [0; 1]%nat 2%nat [] _ eq_refl eq_refl eq_refl).
  vm_compute. reflexivity.
Defined.
End FloatCapFacts.

(** ** The timeline builder in floating point (claim C3) *)

Module FloatEdlFacts.
Import FloatEdl FloatEdlBuilder FloatProps.

Section WithArith.
Context {F : Type} {arith : Fp.Arith F}.
Variable fmt_0f : F -> string.
Variable round1 : F -> F.
Implicit Types (keeps : list (Edit F)) (k : Edit F) (first last : F).

Lemma float_tiles_snoc first last keeps k :
  tiles first keeps last ->
  record_start k = Some last ->
  record_end k = Some (Fp.add last (duration k)) ->
  tiles first (keeps ++ [k]) (Fp.add last (duration k)).
Proof.
  revert first. induction keeps as [|k0 keeps IH]; intros first Ht Hs He.
  - cbn in Ht. subst last. cbn. auto.
  - destruct Ht as (H1 & H2 & H3). cbn. auto.
Qed.

Lemma float_tiles_head first last keeps k :
  tiles first keeps last -> head keeps = Some k ->
  record_start k = Some first.
Proof. destruct keeps; [done|]. intros (H & _) [= <-]. exact H. Qed.

Lemma float_tiles_each first last keeps :
  tiles first keeps last ->
  forall k, k ∈ keeps ->
    exists rs, record_start k = Some rs
               /\ record_end k = Some (Fp.add rs (duration k)).
Proof.
  revert first. induction keeps as [|k0 keeps IH]; intros first Ht k Hin.
  - by apply elem_of_nil in Hin.
  - destruct Ht as (H1 & H2 & H3).
    apply elem_of_cons in Hin as [->|Hin]; [by exists first|].
    by apply (IH _ H3).
Qed.

Lemma float_tiles_adjacent first last keeps :
  tiles first keeps last ->
  forall i k k', keeps !! i = Some k -> keeps !! S i = Some k' ->
    record_start k' = record_end k.
Proof.
  revert first. induction keeps as [|k0 keeps IH]; intros first Ht i k k';
    [done|].
  destruct Ht as (H1 & H2 & H3).
  destruct i as [|i]; cbn.
  - intros [= <-] Hk'. destruct keeps as [|k1 keeps]; [done|].
    injection Hk' as <-. destruct H3 as (H3 & _). by rewrite H3, H2.
  - by apply (IH _ H3).
Qed.

Lemma float_tiles_sum first last keeps :
  tiles first keeps last ->
  last = fold_left Fp.add (map duration keeps) first.
Proof.
  revert first. induction keeps as [|k0 keeps IH]; intros first Ht.
  - by cbn in *.
  - destruct Ht as (_ & _ & H3). cbn [map fold_left]. by apply IH.
Qed.

Abbreviation loop_inv := (FloatProps.loop_inv (F := F)).

Lemma cut_step_tiles (segs : list (Segment F)) (st : LoopState)
    (c : Edit F) :
  loop_inv st -> loop_inv (cut_step fmt_0f segs st c).
Proof.
  intros [Ht Hk]. unfold cut_step.
  destruct (Fp.lt (ls_current_pos st) (source_start c)); [|done].
  split; cbn [ls_keep_edits ls_record_pos].
  - by apply float_tiles_snoc.
  - apply Forall_app. split; [done|]. by constructor.
Qed.

Lemma fold_cut_step_tiles (segs : list (Segment F)) (cuts : list (Edit F)) :
  forall st, loop_inv st ->
             loop_inv (fold_left (cut_step fmt_0f segs) cuts st).
Proof.
  induction cuts as [|c cuts IH]; intros st Hinv; [done|].
  cbn [fold_left]. by apply IH, cut_step_tiles.
Qed.

Lemma final_step_tiles (segs : list (Segment F)) (total : F)
    (st : LoopState) :
  loop_inv st -> loop_inv (final_step fmt_0f segs total st).
Proof.
  intros [Ht Hk]. unfold final_step.
  destruct (Fp.lt (ls_current_pos st) total); [|done].
  split; cbn [ls_keep_edits ls_record_pos].
  - by apply float_tiles_snoc.
  - apply Forall_app. split; [done|]. by constructor.
Qed.

Lemma keep_phase_tiles (segs : list (Segment F)) (cuts : list (Edit F)) :
  loop_inv (keep_phase fmt_0f segs cuts).
Proof.
  unfold keep_phase. apply final_step_tiles, fold_cut_step_tiles.
  split; [reflexivity | constructor].
Qed.

Lemma keeps_of_sidecar keeps (cuts : list (Edit F)) :
  Forall (fun k => edit_type k = "keep") keeps ->
  Forall (fun c => edit_type c = "cut") cuts ->
  List.filter (fun e => String.eqb (edit_type e) "keep") (keeps ++ cuts)
  = keeps.
Proof.
  intros Hk Hc. rewrite List.filter_app.
  assert (H1 : List.filter (fun e => String.eqb (edit_type e) "keep")
                 keeps = keeps).
  { induction Hk as [|k l Hk _ IH]; [done|].
    cbn [List.filter]. by rewrite Hk, IH. }
  assert (H2 : List.filter (fun e => String.eqb (edit_type e) "keep")
                 cuts = []).
  { induction Hc as [|c l Hc _ IH]; [done|].
    cbn [List.filter]. by rewrite Hc, IH. }
  by rewrite H1, H2, app_nil_r.
Qed.

End WithArith.


End FloatEdlFacts.

(** * Further properties *)

(** ** The timeline builder on arbitrary cut lists *)

Module EdlShapeFacts.
Import Edl Transcript EdlBuilder EdlProps EdlShape.

Lemma tiles_app_last (first last : Q) (keeps : list Edit) (k : Edit) :
  tiles first keeps last ->
  record_start k = Some last ->
  record_end k = Some (last + duration k)%Q ->
  tiles first (keeps ++ [k]) (last + duration k)%Q.
Proof.
  revert first. induction keeps as [|k0 keeps IH]; intros first Ht Hs He.
  - simpl in Ht. subst last. simpl. auto.
  - destruct Ht as (H1 & H2 & H3). simpl. auto.
Qed.

Lemma lookup_snoc_S (keeps : list Edit) (k k' : Edit) (i : nat) :
  (keeps ++ [k]) !! S i = Some k' ->
  keeps !! S i = Some k' \/ (keeps <> [] /\ k' = k).
Proof.
  intros H. destruct (decide (S i < length keeps)%nat) as [Hlt|Hge].
  - left. by rewrite lookup_app_l in H.
  - right. rewrite lookup_app_r in H by lia.
    destruct (S i - length keeps)%nat eqn:E; simplify_eq/=.
    split; [|done]. intros ->. simpl in E. lia.
Qed.

Section WithFormatting.
Variable fmt_0f : Q -> string.
Variable round1 : Q -> Q.

Lemma keeps_inv_append (st : LoopState) (s e : Q) (tr : string)
    (segs : list Segment) (cur : Q) :
  keeps_inv st -> (ls_current_pos st < e)%Q -> s = ls_current_pos st ->
  (ls_keep_edits st <> [] -> tr = "crossfade") ->
  keeps_inv
    (mkLoopState
       (ls_keep_edits st
        ++ [make_keep fmt_0f (S (ls_keep_counter st)) s e
              (ls_record_pos st) tr segs])
       (S (ls_keep_counter st)) cur
       (ls_record_pos st + (e - s))%Q).
Proof.
  intros (Ht & Hk & Hc & Htr) Hlt -> Hfirst.
  set (k := make_keep _ _ _ _ _ _ _).
  unfold keeps_inv. cbn [ls_keep_edits ls_record_pos ls_keep_counter].
  split; [|split; [|split]].
  - change (e - ls_current_pos st)%Q with (duration k).
    by apply tiles_app_last.
  - apply Forall_app. split; [done|]. constructor; [|constructor].
    split; [reflexivity|]. unfold k, duration. cbn. lra.
  - rewrite length_app. cbn. lia.
  - intros i k' Hk'. apply lookup_snoc_S in Hk' as [Hk'|[Hne ->]].
    + by apply (Htr i).
    + by apply Hfirst.
Qed.

Lemma cut_step_keeps_inv (segs : list Segment) (st : LoopState) (c : Edit) :
  keeps_inv st -> keeps_inv (cut_step fmt_0f segs st c).
Proof.
  intros Hinv. unfold cut_step.
  destruct (Qlt_bool (ls_current_pos st) (source_start c)) eqn:E.
  - apply Qlt_bool_iff in E. apply keeps_inv_append; try done.
    intros Hne. destruct Hinv as (_ & _ & Hc & _).
    destruct (ls_keep_edits st); [done|]. simpl in Hc. by rewrite Hc.
  - destruct Hinv as (Ht & Hk & Hc & Htr). by repeat split.
Qed.

Lemma final_step_keeps_inv (segs : list Segment) (total : Q)
    (st : LoopState) :
  keeps_inv st -> keeps_inv (final_step fmt_0f segs total st).
Proof.
  intros Hinv. unfold final_step.
  destruct (Qlt_bool (ls_current_pos st) total) eqn:E; [|done].
  apply Qlt_bool_iff in E. by apply keeps_inv_append.
Qed.

Lemma fold_cut_step_keeps_inv (segs : list Segment) (cuts : list Edit) :
  forall st, keeps_inv st ->
             keeps_inv (fold_left (cut_step fmt_0f segs) cuts st).
Proof.
  induction cuts as [|c cuts IH]; intros st Hinv; [done|].
  cbn [fold_left]. by apply IH, cut_step_keeps_inv.
Qed.

Lemma keep_phase_keeps_inv (segs : list Segment) (cuts : list Edit) :
  keeps_inv (keep_phase fmt_0f segs cuts).
Proof.
  unfold keep_phase. apply final_step_keeps_inv, fold_cut_step_keeps_inv.
  split; [reflexivity|]. split; [constructor|]. split; [reflexivity|].
  intros i k H. cbn in H. discriminate H.
Qed.

Lemma sorted_by_Forall (P : Edit -> Prop) (cuts : list Edit) :
  Forall P cuts -> Forall P (sorted_by source_start cuts).
Proof. intros H. unfold sorted_by. by rewrite stable_sort_perm. Qed.

(** The sidecar's [keep_edits] are the keeps the builder made. *)
Lemma sidecar_keeps (segs : list Segment) (cuts : list Edit)
    (episode_id : string) (frame_rate crossfade_ms : Z) :
  Forall (fun c => edit_type c = "cut") cuts ->
  keep_edits
    (build_edl fmt_0f round1 segs cuts episode_id frame_rate crossfade_ms)
  = ls_keep_edits (keep_phase fmt_0f segs cuts).
Proof.
  intros Hty. unfold keep_edits, build_edl. cbn [edits].
  apply EdlFacts.filter_keep_app; [|by apply sorted_by_Forall].
  destruct (keep_phase_keeps_inv segs cuts) as (_ & Hk & _).
  eapply Forall_impl; [exact Hk|]. by intros k [? _].
Qed.

Lemma build_transitions_length (d : Z) (keeps : list Edit) :
  length (build_transitions d keeps) = (length keeps - 1)%nat.
Proof.
  induction keeps as [|a [|b keeps] IH]; [done..|].
  cbn [build_transitions length] in *. lia.
Qed.

Lemma build_transitions_lookup (d : Z) (keeps : list Edit) :
  forall i a b,
    keeps !! i = Some a -> keeps !! S i = Some b ->
    build_transitions d keeps !! i
    = Some (mkTransition [edit_id a; edit_id b] "crossfade" d).
Proof.
  induction keeps as [|a0 [|b0 keeps] IH]; intros i a b Ha Hb; [done..|].
  destruct i as [|i]; simplify_eq/=; [done|].
  by apply (IH i a b).
Qed.


(** X2. [build_edl] writes exactly [len(keep_edits) - 1] transitions (none
    for zero or one keep edit); the i-th is a crossfade of the configured
    duration between the ids of keep edits i and i+1. *)
Theorem build_edl_transitions (segs : list Segment) (cuts : list Edit)
    (episode_id : string) (frame_rate crossfade_ms : Z) :
  Forall (fun c => edit_type c = "cut") cuts ->
  let edl :=
    build_edl fmt_0f round1 segs cuts episode_id frame_rate crossfade_ms in
  let keeps := keep_edits edl in
  length (transitions edl) = (length keeps - 1)%nat
  /\ forall i a b,
       keeps !! i = Some a -> keeps !! S i = Some b ->
       transitions edl !! i
       = Some (mkTransition [edit_id a; edit_id b] "crossfade"
                 crossfade_ms).
Proof.
  intros Hty edl keeps.
  assert (Ek : keeps = ls_keep_edits (keep_phase fmt_0f segs cuts))
    by (by apply sidecar_keeps).
  rewrite Ek.
  change (transitions edl)
    with (build_transitions crossfade_ms
            (ls_keep_edits (keep_phase fmt_0f segs cuts))).
  split; [apply build_transitions_length | apply build_transitions_lookup].
Qed.

Lemma head_snoc (keeps : list Edit) (k k' : Edit) :
  head keeps = Some k -> head (keeps ++ [k']) = Some k.
Proof. by destruct keeps. Qed.

Lemma cut_step_head (segs : list Segment) (st : LoopState) (c k : Edit) :
  head (ls_keep_edits st) = Some k ->
  head (ls_keep_edits (cut_step fmt_0f segs st c)) = Some k.
Proof.
  intros H. unfold cut_step.
  destruct (Qlt_bool _ _); cbn [ls_keep_edits]; [by apply head_snoc|done].
Qed.

Lemma fold_cut_step_head (segs : list Segment) (cuts : list Edit) (k : Edit) :
  forall st,
    head (ls_keep_edits st) = Some k ->
    head (ls_keep_edits (fold_left (cut_step fmt_0f segs) cuts st)) = Some k.
Proof.
  induction cuts as [|c cuts IH]; intros st H; [done|].
  cbn [fold_left]. by apply IH, cut_step_head.
Qed.

Lemma final_step_head (segs : list Segment) (total : Q) (st : LoopState)
    (k : Edit) :
  head (ls_keep_edits st) = Some k ->
  head (ls_keep_edits (final_step fmt_0f segs total st)) = Some k.
Proof.
  intros H. unfold final_step.
  destruct (Qlt_bool _ _); cbn [ls_keep_edits]; [by apply head_snoc|done].
Qed.

(** X3. Every keep edit of [build_edl] after the first has transition
    [crossfade]; when there is at least one cut and every cut starts after
    time 0, the first keep edit starts at 0 and has transition [cut]. *)
Theorem build_edl_transition_kinds (segs : list Segment) (cuts : list Edit)
    (episode_id : string) (frame_rate crossfade_ms : Z) :
  Forall (fun c => edit_type c = "cut") cuts ->
  let edl :=
    build_edl fmt_0f round1 segs cuts episode_id frame_rate crossfade_ms in
  let keeps := keep_edits edl in
  (forall i k, keeps !! S i = Some k -> transition k = "crossfade")
  /\ (cuts <> [] -> Forall (fun c => (0 < source_start c)%Q) cuts ->
      exists k, head keeps = Some k /\ transition k = "cut"
                /\ source_start k = 0%Q).
Proof.
  intros Hty edl keeps.
  assert (Ek : keeps = ls_keep_edits (keep_phase fmt_0f segs cuts))
    by (by apply sidecar_keeps).
  rewrite Ek. split.
  - by destruct (keep_phase_keeps_inv segs cuts) as (_ & _ & _ & Htr).
  - intros Hne Hpos. unfold keep_phase.
    apply sorted_by_Forall in Hpos.
    destruct (sorted_by source_start cuts) as [|c rest] eqn:Es.
    + exfalso. apply Hne. apply Permutation_nil_r.
      rewrite <- Es. unfold sorted_by. by rewrite stable_sort_perm.
    + apply Forall_cons in Hpos as [Hc _].
      cbn [fold_left]. unfold cut_step at 2. cbn [ls_current_pos].
      rewrite (proj2 (Qlt_bool_iff 0 (source_start c)) Hc).
      eexists. split; [|split].
      * apply final_step_head, fold_cut_step_head. reflexivity.
      * reflexivity.
      * reflexivity.
Qed.
End WithFormatting.


Lemma build_edl_transitions_witness :
  Forall (fun c => edit_type c = "cut") scenario_cuts
  /\ length (transitions
               (build_edl no_fmt no_round one_segment scenario_cuts
                  "ep-1" 30 50)) = 3%nat.
Proof.
  assert (Hty : Forall (fun c => edit_type c = "cut") scenario_cuts)
    by repeat constructor.
  split; [exact Hty|].
  destruct (build_edl_transitions no_fmt no_round one_segment scenario_cuts
              "ep-1" 30 50 Hty) as [Hlen _].
  rewrite Hlen. reflexivity.
Defined.

Lemma build_edl_transition_kinds_witness :
  Forall (fun c => edit_type c = "cut") scenario_cuts
  /\ scenario_cuts <> []
  /\ Forall (fun c => (0 < source_start c)%Q) scenario_cuts
  /\ exists k,
       head (keep_edits
               (build_edl no_fmt no_round one_segment scenario_cuts
                  "ep-1" 30 50)) = Some k
       /\ transition k = "cut".
Proof.
  assert (Hty : Forall (fun c => edit_type c = "cut") scenario_cuts)
    by repeat constructor.
  assert (Hne : scenario_cuts <> []) by discriminate.
  assert (Hpos : Forall (fun c => (0 < source_start c)%Q) scenario_cuts)
    by (repeat constructor).
  split; [exact Hty|]. split; [exact Hne|]. split; [exact Hpos|].
  destruct (proj2 (build_edl_transition_kinds no_fmt no_round one_segment
                     scenario_cuts "ep-1" 30 50 Hty) Hne Hpos)
    as (k & Hk & Htr & _).
  exists k. by split.
Defined.
End EdlShapeFacts.

(** ** Chapter markers ([generate_chapters]) *)

Module ChapterMarkerFacts.
Import Edl Context Chapters ChapterMarkers ChaptersProps EdlProps
  ChapterShape.

Lemma dedupe_loop_spaced (chs : list Chapter) :
  forall last, spaced last (dedupe_loop last chs).
Proof.
  induction chs as [|ch chs IH]; intros last; [done|].
  cbn [dedupe_loop].
  destruct (Qle_bool 30 (ch_time ch - ch_time last)) eqn:E; [|apply IH].
  split; [by apply Qle_bool_iff | apply IH].
Qed.

Lemma dedupe_loop_sublist (chs : list Chapter) :
  forall last, sublist (dedupe_loop last chs) chs.
Proof.
  induction chs as [|ch chs IH]; intros last; [done|].
  cbn [dedupe_loop].
  destruct (Qle_bool 30 (ch_time ch - ch_time last)).
  - apply sublist_skip, IH.
  - apply sublist_cons, IH.
Qed.

Lemma topic_chapters_origin (tps : list Topic) (cuts : list Edit) :
  forall ch, ch ∈ topic_chapters tps cuts ->
    exists tp, tp ∈ tps /\ ch_title ch = topic_name tp
               /\ _map_to_edited_timeline (start_time tp) cuts
                  = Some (ch_time ch)
               /\ (0 < ch_time ch)%Q.
Proof.
  induction tps as [|tp tps IH]; intros ch Hch.
  - by apply elem_of_nil in Hch.
  - cbn [topic_chapters] in Hch.
    destruct (_map_to_edited_timeline (start_time tp) cuts) as [r|] eqn:Er.
    + destruct (Qlt_bool 0 r) eqn:Epos.
      * apply elem_of_cons in Hch as [->|Hch].
        -- exists tp. split; [by left|]. split; [done|]. split; [done|].
           by apply Qlt_bool_iff.
        -- destruct (IH ch Hch) as (tp' & ? & ?). exists tp'.
           split; [by right | done].
      * destruct (IH ch Hch) as (tp' & ? & ?). exists tp'.
        split; [by right | done].
    + destruct (IH ch Hch) as (tp' & ? & ?). exists tp'.
      split; [by right | done].
Qed.

(** X4. [generate_chapters] always starts with the Introduction marker at
    time 0, every marker lies at least 30 seconds after the one before it,
    and without a context document, or with one that has no topics, the
    Introduction is the only marker. *)
Theorem generate_chapters_shape (context : option ContextDocument)
    (cuts : list Edit) (total : Q) :
  exists rest,
    generate_chapters context cuts total = INTRODUCTION :: rest
    /\ spaced INTRODUCTION rest
    /\ ((context = None \/ exists ctx, context = Some ctx /\ topics ctx = [])
        -> rest = []).
Proof.
  unfold generate_chapters.
  destruct context as [ctx|].
  - destruct (topics ctx) as [|tp tps] eqn:Et.
    + exists []. by repeat split.
    + eexists. split; [reflexivity|]. split; [apply dedupe_loop_spaced|].
      intros [?|(ctx' & [= <-] & Hnil)]; [done|]. by rewrite Et in Hnil.
  - exists []. by repeat split.
Qed.

(** X5. Every marker of [generate_chapters] after the Introduction carries
    the name of a topic of the context document and the remapped start
    time of that topic, which is positive; a topic whose start lies
    strictly inside a cut gives no marker. The markers keep the order of
    the topics. *)
Theorem generate_chapters_origin (ctx : ContextDocument) (cuts : list Edit)
    (total : Q) :
  exists rest,
    generate_chapters (Some ctx) cuts total = INTRODUCTION :: rest
    /\ sublist rest (topic_chapters (topics ctx) cuts)
    /\ forall ch, ch ∈ rest ->
         exists tp, tp ∈ topics ctx /\ ch_title ch = topic_name tp
                    /\ _map_to_edited_timeline (start_time tp) cuts
                       = Some (ch_time ch)
                    /\ (0 < ch_time ch)%Q
                    /\ ~ Exists (strictly_inside (start_time tp)) cuts.
Proof.
  unfold generate_chapters.
  destruct (topics ctx) as [|tp tps] eqn:Et.
  - exists []. split; [done|]. split; [done|].
    intros ch H. by apply elem_of_nil in H.
  - eexists. split; [reflexivity|].
    split; [apply dedupe_loop_sublist|].
    intros ch Hch.
    pose proof (elem_of_sublist _ _ _ Hch
                  (dedupe_loop_sublist (topic_chapters (tp :: tps) cuts)
                     INTRODUCTION)) as Hch'.
    destruct (topic_chapters_origin _ cuts ch Hch')
      as (tp' & Hin & Hname & Hmap & Hpos).
    exists tp'. repeat split; try done.
    intros Hins.
    apply (ChaptersFacts.map_loop_inside _ cuts 0) in Hins.
    unfold _map_to_edited_timeline in Hmap. congruence.
Qed.

(** The four topics against the cuts [10, 20] and [30, 45]: the topic at
    15 s falls inside the first cut and leaves no marker. *)
Lemma generate_chapters_origin_witness :
  exists rest,
    generate_chapters (Some (context_of four_topics)) two_cuts 300
    = INTRODUCTION :: rest
    /\ forall ch, ch ∈ rest -> ch_title ch <> "Sponsor".
Proof.
  destruct (generate_chapters_origin (context_of four_topics) two_cuts 300)
    as (rest & Heq & _ & Hall).
  exists rest. split; [exact Heq|].
  intros ch Hch Hname.
  destruct (Hall ch Hch) as (tp & Hin & Htitle & _ & _ & Hout).
  apply Hout. rewrite Hname in Htitle.
  cbn [context_of topics four_topics] in Hin.
  repeat (apply elem_of_cons in Hin as [->|Hin]; [try discriminate Htitle|]).
  - apply Exists_cons_hd. split; reflexivity.
  - by apply elem_of_nil in Hin.
Defined.

(** *** Remapping never moves a timestamp later *)

Lemma qsum_filter_le (p : Edit -> bool) (cuts : list Edit) :
  Forall (fun c => (0 <= duration c)%Q) cuts ->
  (0 <= qsum (map duration (List.filter p cuts)))%Q
  /\ (qsum (map duration (List.filter p cuts))
      <= qsum (map duration cuts))%Q.
Proof.
  induction 1 as [|c cuts Hc _ IH].
  - unfold qsum. simpl. lra.
  - cbn [List.filter map]. destruct (p c); cbn [map];
      rewrite ?qsum_cons; lra.
Qed.

(** X6. A remapped timestamp is never later than the original one: for
    every cut list in which no cut ends before it starts, sorted or not,
    overlapping or not, a timestamp [t] that [_map_to_edited_timeline]
    maps to [r] has [r <= t], and [r] is [t] when no cut ends at or
    before [t]. *)
Theorem remapped_time_bounds (t r : Q) (cuts : list Edit) :
  Forall (fun c => (source_start c <= source_end c)%Q) cuts ->
  _map_to_edited_timeline t cuts = Some r ->
  (r <= t)%Q /\ (cuts_before t cuts = [] -> (r == t)%Q).
Proof.
  intros Hse Hmap.
  assert (Hout : Forall (fun c => ~ strictly_inside t c) cuts).
  { apply Forall_Exists_neg. intros Hin.
    apply (ChaptersFacts.map_loop_inside t cuts 0) in Hin.
    unfold _map_to_edited_timeline in Hmap. congruence. }
  destruct (ChaptersFacts.map_loop_outside t cuts 0 Hout)
    as (r' & Hr' & Hsum).
  unfold _map_to_edited_timeline in Hmap.
  assert (r' = r) by congruence. subst r'.
  assert (Hall : Forall (fun c => (0 <= duration c)%Q) cuts).
  { eapply Forall_impl; [exact Hse|]. intros c Hc. cbn beta in Hc.
    unfold duration. lra. }
  destruct (qsum_filter_le (fun c => Qle_bool (source_end c) t) cuts Hall)
    as [Hpos _].
  fold (cuts_before t cuts) in Hpos.
  split; [lra|].
  intros Hnone. rewrite Hnone in Hsum. unfold qsum in Hsum. simpl in Hsum.
  lra.
Qed.

Lemma remapped_time_bounds_witness :
  Forall (fun c => (source_start c <= source_end c)%Q) two_cuts
  /\ _map_to_edited_timeline 25 two_cuts = Some (25 - (0 + (20 - 10)))%Q
  /\ (25 - (0 + (20 - 10)) <= 25)%Q.
Proof.
  assert (Hse : Forall (fun c => (source_start c <= source_end c)%Q)
                  two_cuts).
  { apply Forall_cons; split; [discriminate|].
    apply Forall_cons; split; [discriminate | constructor]. }
  assert (Hm : _map_to_edited_timeline 25 two_cuts
               = Some (25 - (0 + (20 - 10)))%Q) by reflexivity.
  split; [exact Hse|]. split; [exact Hm|].
  apply (remapped_time_bounds 25 _ two_cuts Hse Hm).
Defined.
End ChapterMarkerFacts.

(** ** The cap and what is built from the cuts afterwards *)

Module CapDownstreamFacts.
Import Edl Transcript EditingModule EditingProps EdlBuilder EdlProps
  EdlShape Context Chapters ChapterMarkers.

Lemma same_span_refl (e : Edit) : same_span e e.
Proof. by split. Qed.

(** The cap changes flags only: position by position the capped list has
    the spans and types of the original. *)
Lemma cap_same_span (d : Q) (cuts : list Edit) :
  Forall2 (fun e e' => same_span e e' /\ edit_type e' = edit_type e)
    cuts (cap_auto_cuts d cuts).
Proof.
  unfold cap_auto_cuts.
  destruct (Qlt_bool 0 d && Qlt_bool (1#2) (auto_cut_time cuts / d)).
  - cbv zeta.
    destruct (EditingFacts.cap_loop_inv (d * (1#2)) (sorted_refs cuts) 0
                cuts (EditingFacts.sorted_refs_NoDup cuts))
      as (Hlen & _ & Hcase & _).
    apply Forall2_same_length_lookup_2; [done|].
    intros i e e' He He'.
    destruct (Hcase i e He) as [H|[_ H]]; rewrite H in He';
      injection He' as <-; by repeat split.
  - apply Forall2_same_length_lookup_2; [done|].
    intros i e e' He He'. assert (e' = e) by congruence. by subst.
Qed.

Section SameSpan.
Variable R : Edit -> Edit -> Prop.
Hypothesis R_span : forall e e', R e e' -> same_span e e'.

Lemma insert_sorted_same_span (x x' : Edit) (l l' : list Edit) :
  R x x' -> Forall2 R l l' ->
  Forall2 R
    (insert_sorted
       (fun a b => Qle_bool (source_start a) (source_start b)) x l)
    (insert_sorted
       (fun a b => Qle_bool (source_start a) (source_start b)) x' l').
Proof.
  intros Hx Hl. induction Hl as [|y y' l l' Hy Hl IH]; cbn [insert_sorted].
  - by repeat constructor.
  - destruct (R_span _ _ Hx) as [-> _]. destruct (R_span _ _ Hy) as [-> _].
    destruct (Qle_bool (source_start x) (source_start y));
      by repeat constructor.
Qed.

Lemma sorted_by_same_span (l l' : list Edit) :
  Forall2 R l l' ->
  Forall2 R (sorted_by source_start l) (sorted_by source_start l').
Proof.
  unfold sorted_by. induction 1 as [|x x' l l' Hx Hl IH]; cbn [stable_sort].
  - constructor.
  - by apply insert_sorted_same_span.
Qed.
End SameSpan.

Lemma map_loop_same_span (t : Q) (cuts cuts' : list Edit) :
  Forall2 same_span cuts cuts' ->
  forall offset, map_loop t cuts' offset = map_loop t cuts offset.
Proof.
  induction 1 as [|c c' cuts cuts' [Hs He] _ IH]; intros offset; [done|].
  cbn [map_loop]. unfold duration. rewrite Hs, He.
  destruct (Qle_bool (source_end c) t); [apply IH|].
  destruct (Qlt_bool (source_start c) t && Qlt_bool t (source_end c));
    [done | apply IH].
Qed.

Lemma Forall2_weaken_span (cuts cuts' : list Edit) :
  Forall2 (fun e e' => same_span e e' /\ edit_type e' = edit_type e)
    cuts cuts' ->
  Forall2 same_span cuts cuts'.
Proof.
  intros H. eapply Forall2_impl; [exact H|]. by intros e e' [? _].
Qed.

(** X8. The chapter markers do not depend on the cap: [generate_chapters]
    returns the same markers for the capped cut list as for the uncapped
    one, since the remapping reads the span of every cut and never its
    [auto_applied] flag. *)
Theorem cap_leaves_chapters (d total : Q) (context : option ContextDocument)
    (cuts : list Edit) :
  generate_chapters context (cap_auto_cuts d cuts) total
  = generate_chapters context cuts total
  /\ forall t, _map_to_edited_timeline t (cap_auto_cuts d cuts)
               = _map_to_edited_timeline t cuts.
Proof.
  pose proof (Forall2_weaken_span _ _ (cap_same_span d cuts)) as Hspan.
  assert (Hmap : forall t, _map_to_edited_timeline t (cap_auto_cuts d cuts)
                           = _map_to_edited_timeline t cuts).
  { intros t. by apply map_loop_same_span. }
  split; [|done].
  unfold generate_chapters. destruct context as [ctx|]; [|done].
  destruct (topics ctx) as [|tp tps]; [done|].
  f_equal. f_equal. generalize (tp :: tps). intros l.
  induction l as [|tp' l IH]; [done|].
  cbn [topic_chapters]. rewrite Hmap.
  destruct (_map_to_edited_timeline (start_time tp') cuts) as [r|];
    [|done].
  destruct (Qlt_bool 0 r); by rewrite IH.
Qed.

Section WithFormatting.
Variable fmt_0f : Q -> string.
Variable round1 : Q -> Q.

Lemma cut_step_same_span (segs : list Segment) (st : LoopState)
    (c c' : Edit) :
  same_span c c' -> cut_step fmt_0f segs st c' = cut_step fmt_0f segs st c.
Proof. intros [Hs He]. unfold cut_step. by rewrite Hs, He. Qed.

Lemma fold_cut_step_same_span (segs : list Segment) (cuts cuts' : list Edit) :
  Forall2 same_span cuts cuts' ->
  forall st, fold_left (cut_step fmt_0f segs) cuts' st
             = fold_left (cut_step fmt_0f segs) cuts st.
Proof.
  induction 1 as [|c c' cuts cuts' Hc _ IH]; intros st; [done|].
  cbn [fold_left]. by rewrite (cut_step_same_span segs st c c' Hc), IH.
Qed.

Lemma keep_phase_same_span (segs : list Segment) (cuts cuts' : list Edit) :
  Forall2 same_span cuts cuts' ->
  keep_phase fmt_0f segs cuts' = keep_phase fmt_0f segs cuts.
Proof.
  intros H. unfold keep_phase. f_equal.
  apply fold_cut_step_same_span.
  by apply (sorted_by_same_span same_span).
Qed.

(** X7. The cap does not change the timeline: [EditingModule.run] hands
    all cuts, demoted or not, to [build_edl], which reads their spans and
    never [auto_applied]; keep edits, transitions, durations and removed
    time of the EDL are the same for the capped cut list as for the
    uncapped one. *)
Theorem cap_leaves_timeline (d : Q) (segs : list Segment)
    (cuts : list Edit) (episode_id : string)
    (frame_rate crossfade_ms : Z) :
  Forall (fun c => edit_type c = "cut") cuts ->
  let before :=
    build_edl fmt_0f round1 segs cuts episode_id frame_rate crossfade_ms in
  let after :=
    build_edl fmt_0f round1 segs (cap_auto_cuts d cuts) episode_id
      frame_rate crossfade_ms in
  keep_edits after = keep_edits before
  /\ transitions after = transitions before
  /\ edited_duration_seconds after = edited_duration_seconds before
  /\ time_removed_seconds after = time_removed_seconds before
  /\ time_removed_percent after = time_removed_percent before
  /\ length (cut_edits after) = length (cut_edits before).
Proof.
  intros Hty before after.
  pose proof (cap_same_span d cuts) as Hboth.
  pose proof (Forall2_weaken_span _ _ Hboth) as Hspan.
  assert (Hty' : Forall (fun c => edit_type c = "cut") (cap_auto_cuts d cuts)).
  { clear Hspan. induction Hboth as [|c c' l l' [_ Hc] _ IH];
      [constructor|].
    apply Forall_cons in Hty as [Hh Hty].
    constructor; [congruence | by apply IH]. }
  pose proof (keep_phase_same_span segs _ _ Hspan) as Hph.
  split.
  { unfold before, after.
    rewrite !(EdlShapeFacts.sidecar_keeps fmt_0f round1) by done.
    by rewrite Hph. }
  unfold before, after, build_edl.
  cbn [transitions edited_duration_seconds time_removed_seconds
       time_removed_percent].
  rewrite Hph. repeat split.
  unfold cut_edits. cbn [edits].
  assert (Hcount : forall keeps l,
            Forall (fun k => edit_type k = "keep") keeps ->
            Forall (fun c => edit_type c = "cut") l ->
            length (List.filter (fun e => String.eqb (edit_type e) "cut")
                      (keeps ++ l)) = length l).
  { intros keeps l Hk Hl. rewrite List.filter_app, length_app.
    assert (H1 : List.filter (fun e => String.eqb (edit_type e) "cut") keeps
                 = []).
    { induction Hk as [|k ks Hk _ IH]; simpl; [done|]. by rewrite Hk. }
    assert (H2 : List.filter (fun e => String.eqb (edit_type e) "cut") l = l).
    { induction Hl as [|c cs Hc _ IH]; simpl; [done|]. by rewrite Hc, IH. }
    by rewrite H1, H2. }
  assert (Hkeep : Forall (fun k => edit_type k = "keep")
                    (ls_keep_edits (keep_phase fmt_0f segs cuts))).
  { destruct (EdlShapeFacts.keep_phase_keeps_inv fmt_0f segs cuts)
      as (_ & Hk & _).
    eapply Forall_impl; [exact Hk|]. by intros k [? _]. }
  rewrite !Hcount; try done; try by apply EdlShapeFacts.sorted_by_Forall.
  unfold sorted_by. rewrite !stable_sort_perm.
  by apply Forall2_length in Hspan.
Qed.
End WithFormatting.

(** Capping the three cuts of 40 s, 20 s and 5 s demotes one of them and
    leaves the edited duration of the EDL where it was. *)
Lemma cap_leaves_timeline_witness :
  Forall (fun c => edit_type c = "cut") three_cuts
  /\ edited_duration_seconds
       (build_edl no_fmt no_round one_segment (cap_auto_cuts 100 three_cuts)
          "ep-1" 30 50)
     = edited_duration_seconds
         (build_edl no_fmt no_round one_segment three_cuts "ep-1" 30 50).
Proof.
  assert (Hty : Forall (fun c => edit_type c = "cut") three_cuts)
    by repeat constructor.
  split; [exact Hty|].
  apply (cap_leaves_timeline no_fmt no_round 100 one_segment three_cuts
           "ep-1" 30 50 Hty).
Defined.
End CapDownstreamFacts.

(** ** Silence trimming ([editing/silence.py]) *)

Module SilenceFacts.
Import Edl Transcript EdlBuilder EdlProps Silence ChapterShape.

Lemma total_duration_cons (s next : Segment) (rest : list Segment) :
  total_duration_of (s :: next :: rest) = total_duration_of (next :: rest).
Proof.
  unfold total_duration_of. cbn [rev].
  destruct (rev rest) as [|x l]; reflexivity.
Qed.

Section WithFormatting.
Variable fmt_0f : Q -> string.
Variables min_duration_ms keep_ms speaker_turn_pause_ms : Q.

Abbreviation loop :=
  (silence_loop fmt_0f min_duration_ms keep_ms speaker_turn_pause_ms).

(** What the loop appends, with the segments before [segs] as [pre]. *)
Lemma silence_loop_edits (segs : list Segment) :
  forall pre n,
  Forall
    (fun e =>
       edit_type e = "cut" /\ auto_applied e = true
       /\ confidence e = Some 1%Q /\ reason e = Some "silence"
       /\ (0 < duration e)%Q
       /\ exists pre' seg next post,
            pre ++ segs = pre' ++ seg :: next :: post
            /\ source_end e = seg_start next
            /\ (min_duration_ms
                < (seg_start next - seg_end seg) * 1000)%Q
            /\ source_start e
               = (seg_end seg
                  + (if negb (String.eqb (seg_speaker seg)
                                (seg_speaker next))
                     then speaker_turn_pause_ms else keep_ms)
                    / 1000)%Q)
    (loop segs n).
Proof.
  induction segs as [|seg [|next rest] IH]; intros pre n; [constructor..|].
  cbn [silence_loop].
  specialize (IH (pre ++ [seg])). rewrite <- app_assoc in IH.
  destruct (Qle_bool _ min_duration_ms) eqn:Egap; [apply IH|].
  destruct (Qle_bool (seg_start next) _) eqn:Etrim; [apply IH|].
  constructor; [|apply IH].
  apply Qle_bool_false_iff in Egap, Etrim.
  repeat split; try reflexivity.
  - unfold duration. cbn. lra.
  - exists pre, seg, next, rest. by repeat split.
Qed.


(** X10. For a transcript whose segments are in temporal order from time
    0 and non-negative keep and pause lengths, the cuts of
    [detect_silences] are sorted, non-overlapping and inside
    [[0, total duration]]: they meet what the timeline builder assumes of
    its cut list. *)
Theorem detect_silences_within (segs : list Segment) :
  segments_ordered 0 segs ->
  (0 <= keep_ms)%Q -> (0 <= speaker_turn_pause_ms)%Q ->
  let cuts :=
    detect_silences fmt_0f segs min_duration_ms keep_ms
      speaker_turn_pause_ms in
  cuts_within 0 (total_duration_of segs) cuts
  /\ Forall (fun c => edit_type c = "cut") cuts.
Proof.
  intros Hord Hk Hp cuts. split.
  - unfold cuts, detect_silences. clear cuts. generalize 0%nat.
    destruct segs as [|seg rest]; [intros n; cbn; lra|].
    revert Hord. generalize 0%Q. revert seg.
    induction rest as [|next rest IH]; intros seg lo Hord n.
    + destruct Hord as (H1 & H2 & _). cbn. lra.
    + destruct Hord as (H1 & H2 & H3 & H4 & H5).
      rewrite total_duration_cons. cbn [silence_loop].
      destruct (Qle_bool _ min_duration_ms) eqn:Egap.
      { apply IH. repeat split; try done. lra. }
      destruct (Qle_bool (seg_start next) _) eqn:Etrim.
      { apply IH. repeat split; try done. lra. }
      apply Qle_bool_false_iff in Etrim.
      cbn [cuts_within]. unfold silence_edit.
      cbn [source_start source_end].
      set (tgt := if negb _ then _ else _) in *.
      assert (Ht : (0 <= tgt / 1000)%Q).
      { apply Qle_shift_div_l; [reflexivity|]. unfold tgt.
        destruct (negb _); lra. }
      set (q := (tgt / 1000)%Q) in *.
      split; [lra|]. split; [lra|].
      apply IH. repeat split; try done. lra.
  - eapply Forall_impl; [exact (silence_loop_edits segs [] 0%nat)|].
    by intros e [? _].
Qed.
End WithFormatting.

(** Alice, Alice after 2 s, Bob after 3 s, with the default thresholds
    (800 ms, keep 300 ms, turn pause 500 ms): two cuts in order. *)
Lemma detect_silences_within_witness :
  segments_ordered 0 three_segments /\ (0 <= 300)%Q /\ (0 <= 500)%Q
  /\ cuts_within 0 30
       (detect_silences no_fmt three_segments 800 300 500).
Proof.
  assert (Hord : segments_ordered 0 three_segments).
  { simpl. repeat split; discriminate. }
  split; [exact Hord|]. split; [discriminate|]. split; [discriminate|].
  apply (detect_silences_within no_fmt 800 300 500 three_segments Hord);
    discriminate.
Defined.
End SilenceFacts.

(** ** Resuming, pausing and finishing the pipeline *)

Module ResumeFacts.
Import ManifestModel Runtime Orchestrator Gate PipelineProps ResumeProps.

Lemma stage_name_known (n : string) :
  n ∈ STAGE_ORDER ->
  _load_module n = Ok n /\ exists nxt, _next_stage n = Ok nxt.
Proof.
  unfold STAGE_ORDER. intros H.
  repeat (apply elem_of_cons in H as [->|H]; [split; [done|by eexists]|]).
  by apply elem_of_nil in H.
Qed.

Lemma index_of_absent (x : string) (l : list string) :
  x ∉ l -> index_of x l = None.
Proof.
  induction l as [|y l IH]; intros H; [done|].
  apply not_elem_of_cons in H as [Hne H]. cbn [index_of].
  rewrite (proj2 (String.eqb_neq x y) Hne). by rewrite (IH H).
Qed.

Lemma done_completed_and_approved (st : StageStatus) :
  status st = "completed" -> gate_approved st = Some true ->
  completed_and_approved st = true.
Proof.
  intros Hs Hg. unfold completed_and_approved. by rewrite Hs, Hg.
Qed.

Lemma needs_run_tests (st : StageStatus) :
  needs_run st ->
  completed_and_approved st = false /\ completed_awaiting_gate st = false.
Proof.
  unfold completed_and_approved, completed_awaiting_gate.
  intros [Hs|Hg].
  - rewrite (proj2 (String.eqb_neq _ _) Hs). by split.
  - rewrite Hg. split; apply andb_false_r.
Qed.

Section WithManifest.
Context {Files Config : Type}.
Implicit Type m : Manifest Files Config.
Implicit Type w : World Files Config.
Variable env : Env Files Config.

Lemma loop_body_skip (n : string) m w :
  done_in m n -> loop_body env n m w = (Ok (Some m), w).
Proof.
  intros (st & Hn & Hs & Hg). unfold loop_body, bind, lift, get_stage.
  rewrite Hn. by rewrite (done_completed_and_approved st Hs Hg).
Qed.

(** Stages that are completed and approved are passed over. *)
Lemma run_stages_skip (pre rest : list string) m w :
  Forall (done_in m) pre ->
  run_stages env (pre ++ rest) m w = run_stages env rest m w.
Proof.
  induction 1 as [|n pre Hn _ IH]; [done|].
  cbn [app run_stages]. unfold bind at 1.
  by rewrite (loop_body_skip n m w Hn).
Qed.

(** X11. Resuming a finished pipeline does nothing: when every stage from
    the starting stage on is completed and approved, [run_pipeline]
    returns without reading the clock, without any prompt, validation,
    module run or save. *)
Theorem run_pipeline_finished (from_stage : option string) (idx : nat) w :
  start_index from_stage = Some idx ->
  Forall (done_in (disk w)) (drop idx STAGE_ORDER) ->
  run_pipeline env from_stage w = (Ok tt, w).
Proof.
  intros Hidx Hdone. rewrite OrchestratorFacts.run_pipeline_unfold, Hidx.
  rewrite <- (app_nil_r (drop idx STAGE_ORDER)).
  by rewrite run_stages_skip.
Qed.

(** X12. An unknown [from_stage] is refused before anything happens:
    [run_pipeline] raises [ValueError("Unknown stage: ...")] and leaves
    manifest, clock and trace untouched. The empty string counts as no
    [from_stage]. *)
Theorem run_pipeline_unknown_stage (stage : string) w :
  stage <> "" -> stage ∉ STAGE_ORDER ->
  run_pipeline env (Some stage) w
  = (Raise (ValueError ("Unknown stage: " ++ stage)), w).
Proof.
  intros Hne Hnot. rewrite OrchestratorFacts.run_pipeline_unfold.
  unfold start_index. destruct stage as [|c s]; [done|].
  by rewrite (index_of_absent _ _ Hnot).
Qed.

(** X13. Input validation comes before any change: when the first stage
    that is not completed-and-approved has to be run and its module
    reports missing inputs, [run_pipeline] raises
    [RuntimeError("Input validation failed for <stage>")]; the stage is
    not marked [in_progress], the clock is not read, nothing is saved and
    no module is run. *)
Theorem run_pipeline_validation_failure (pre post : list string)
    (s : string) (st : StageStatus) w :
  STAGE_ORDER = pre ++ s :: post ->
  Forall (done_in (disk w)) pre ->
  stage_of (disk w) s = Some st -> needs_run st ->
  validate_inputs env s (disk w) <> [] ->
  run_pipeline env None w
  = (Raise (RuntimeError ("Input validation failed for " ++ s)),
     mkWorld (disk w) (clock w) (trace w ++ [EvValidate s (disk w)])).
Proof.
  intros Hord Hpre Hs Hneeds Hval.
  rewrite OrchestratorFacts.run_pipeline_unfold. cbn [start_index drop].
  rewrite Hord, (run_stages_skip pre (s :: post) _ _ Hpre).
  cbn [run_stages]. unfold bind at 1, loop_body.
  unfold bind at 1, lift at 1, get_stage. rewrite Hs.
  destruct (needs_run_tests st Hneeds) as [-> ->].
  assert (Hin : s ∈ STAGE_ORDER).
  { rewrite Hord. apply elem_of_app. right. by left. }
  destruct (stage_name_known s Hin) as [Hload _].
  unfold run_stage, bind at 1, lift at 1. rewrite Hload.
  unfold bind at 1, emit.
  by destruct (validate_inputs env s (disk w)).
Qed.

(** X14. A declined gate pauses the pipeline as it is: when the first
    stage that is not completed-and-approved awaits review and the prompt
    is declined, [run_pipeline] returns normally after saving the
    manifest unchanged; the stage stays completed with
    [gate_approved = null] and no module is run. *)
Theorem run_pipeline_gate_declined (pre post : list string) (s : string)
    (st : StageStatus) w :
  STAGE_ORDER = pre ++ s :: post ->
  Forall (done_in (disk w)) pre ->
  stage_of (disk w) s = Some st -> awaiting st ->
  present_gate env s (disk w) = false ->
  run_pipeline env None w
  = (Ok tt,
     mkWorld (disk w) (clock w)
       (trace w ++ [EvGate s (disk w); EvSave (disk w)])).
Proof.
  intros Hord Hpre Hs Haw Hgate.
  rewrite OrchestratorFacts.run_pipeline_unfold. cbn [start_index drop].
  rewrite Hord, (run_stages_skip pre (s :: post) _ _ Hpre).
  cbn [run_stages]. unfold bind at 1, loop_body.
  unfold bind at 1, lift at 1, get_stage. rewrite Hs.
  destruct Haw as [Hst Hg].
  assert (Hca : completed_and_approved st = false).
  { unfold completed_and_approved. rewrite Hg. apply andb_false_r. }
  assert (Hcw : completed_awaiting_gate st = true).
  { unfold completed_awaiting_gate. by rewrite Hst, Hg. }
  rewrite Hca, Hcw.
  unfold bind, ask_gate, bind, emit, ret, save_manifest. rewrite Hgate.
  cbn. by rewrite <- app_assoc.
Qed.
End WithManifest.

Lemma finished_manifest_done :
  Forall (done_in finished_manifest) (drop 0 STAGE_ORDER).
Proof.
  repeat constructor;
    (exists approved_stage_record; split; [by vm_compute | by split]).
Qed.

Lemma run_pipeline_finished_witness :
  start_index None = Some 0%nat
  /\ Forall (done_in finished_manifest) (drop 0 STAGE_ORDER)
  /\ run_pipeline quiet_env None (start_world finished_manifest)
     = (Ok tt, start_world finished_manifest).
Proof.
  split; [reflexivity|]. split; [exact finished_manifest_done|].
  apply (run_pipeline_finished quiet_env None 0
           (start_world finished_manifest) eq_refl finished_manifest_done).
Defined.

Lemma run_pipeline_unknown_stage_witness :
  "publish" <> "" /\ ("publish" ∉ STAGE_ORDER)
  /\ fst (run_pipeline quiet_env (Some "publish")
            (start_world fresh_manifest))
     = Raise (ValueError "Unknown stage: publish").
Proof.
  assert (Hne : "publish" <> "") by discriminate.
  assert (Hnot : "publish" ∉ STAGE_ORDER).
  { intros H. unfold STAGE_ORDER in H.
    repeat (apply elem_of_cons in H as [H|H]; [discriminate H|]).
    by apply elem_of_nil in H. }
  split; [exact Hne|]. split; [exact Hnot|].
  by rewrite (run_pipeline_unknown_stage quiet_env "publish"
                (start_world fresh_manifest) Hne Hnot).
Defined.

Lemma ingestion_approved_in_editing_pending :
  Forall (done_in editing_pending) ["ingestion"].
Proof.
  repeat constructor.
  exists approved_stage_record. split; [by vm_compute | by split].
Qed.

Lemma run_pipeline_validation_failure_witness :
  Forall (done_in editing_pending) ["ingestion"]
  /\ needs_run default_stage
  /\ validate_inputs missing_inputs_env "editing" editing_pending <> []
  /\ fst (run_pipeline missing_inputs_env None (start_world editing_pending))
     = Raise (RuntimeError "Input validation failed for editing").
Proof.
  assert (Hn : needs_run default_stage) by (left; discriminate).
  assert (Hv : validate_inputs missing_inputs_env "editing" editing_pending
               <> []) by discriminate.
  split; [exact ingestion_approved_in_editing_pending|].
  split; [exact Hn|]. split; [exact Hv|].
  by rewrite (run_pipeline_validation_failure missing_inputs_env
                ["ingestion"] ["mixing"; "mastering"] "editing"
                default_stage (start_world editing_pending) eq_refl
                ingestion_approved_in_editing_pending eq_refl Hn Hv).
Defined.

Lemma ingestion_approved_in_editing_awaiting :
  Forall (done_in editing_awaiting) ["ingestion"].
Proof.
  repeat constructor.
  exists approved_stage_record. split; [by vm_compute | by split].
Qed.

Lemma run_pipeline_gate_declined_witness :
  Forall (done_in editing_awaiting) ["ingestion"]
  /\ awaiting completed_stage
  /\ fst (run_pipeline declining_env None (start_world editing_awaiting))
     = Ok tt.
Proof.
  split; [exact ingestion_approved_in_editing_awaiting|].
  split; [by split|].
  by rewrite (run_pipeline_gate_declined declining_env ["ingestion"]
                ["mixing"; "mastering"] "editing" completed_stage
                (start_world editing_awaiting) eq_refl
                ingestion_approved_in_editing_awaiting eq_refl
                (conj eq_refl eq_refl) eq_refl).
Defined.
End ResumeFacts.

(** ** Whole runs of the pipeline *)

Module RunFacts.
Import ManifestModel Runtime Orchestrator Gate PipelineProps ResumeProps.

Lemma completed_and_approved_done (st : StageStatus) :
  completed_and_approved st = true ->
  status st = "completed" /\ gate_approved st = Some true.
Proof.
  unfold completed_and_approved. intros H.
  apply andb_true_iff in H as [Hs Hg]. apply String.eqb_eq in Hs.
  by destruct (gate_approved st) as [[|]|].
Qed.

Section WithManifest.
Context {Files Config : Type}.
Implicit Type m : Manifest Files Config.
Implicit Type w : World Files Config.
Variable env : Env Files Config.

Lemma stage_of_started (t : datetime) (s a : string) m :
  stage_of (started t s m) a
  = if decide (s = a)
    then (fun st => set_error None
                      (set_started_at (Some t) (set_status "in_progress" st)))
         <$> stage_of m s
    else stage_of m a.
Proof.
  unfold started. rewrite OrchestratorFacts.stage_of_set_current.
  apply OrchestratorFacts.stage_of_update.
Qed.

(** A run only ever adds to the trace. *)
Lemma run_stages_trace (names : list string) m w :
  exists evs, trace (snd (run_stages env names m w)) = trace w ++ evs.
Proof.
  destruct (run_stages env names m w) as [r w'] eqn:Hrun.
  destruct (OrchestratorFacts.run_stages_failure env names m w r w' Hrun)
    as (evs & Htr & _).
  by exists evs.
Qed.

(** Once its inputs are valid, a stage is persisted as [in_progress] and
    its module is called. *)
Lemma run_stage_starts (s : string) m w :
  _load_module s = Ok s -> validate_inputs env s m = [] ->
  exists o w' rest,
    run_stage env s m w = (o, w')
    /\ trace w'
       = trace w
         ++ [EvValidate s m; EvSave (started (now env (clock w)) s m);
             EvRun s (started (now env (clock w)) s m)] ++ rest.
Proof.
  intros Hload Hval.
  unfold run_stage, approve_stage, ask_gate.
  unfold bind, lift, ret, raise, emit, save_manifest, read_clock.
  rewrite Hload, Hval. cbn [disk clock trace].
  fold (started (now env (clock w)) s m).
  destruct (raised (run env s _)) as [e|];
    [destruct (exn_is_exception e)|].
  - do 3 eexists. split; [reflexivity|]. cbn [trace].
    rewrite <- !app_assoc. cbn [app]. reflexivity.
  - do 3 eexists. split; [reflexivity|]. cbn [trace].
    rewrite <- !app_assoc. cbn [app]. instantiate (1 := []). reflexivity.
  - match goal with |- context [present_gate env s ?x] =>
      destruct (present_gate env s x) end.
    + destruct (_next_stage s); do 3 eexists;
        (split; [reflexivity|]); cbn [trace];
        rewrite <- !app_assoc; cbn [app]; reflexivity.
    + do 3 eexists. split; [reflexivity|]. cbn [trace].
      rewrite <- !app_assoc. cbn [app]. reflexivity.
Qed.

Lemma done_not_awaiting (st : StageStatus) :
  gate_approved st = Some true -> ~ awaiting st.
Proof. intros Hg [_ Hn]. congruence. Qed.

(** X15. A rejected stage is run again by the next [run_pipeline]: after
    [reject_gate] on the stage awaiting review (the stages before it
    being completed and approved) and with valid inputs, the run
    validates that stage first, persists it with [status = in_progress],
    a fresh [started_at] and no error, and calls its module. *)
Theorem reject_then_run_reruns (notes : option string)
    (pre post : list string) (s : string) (st : StageStatus) w :
  GATE_ORDER = pre ++ s :: post ->
  Forall (done_in (disk w)) pre ->
  stage_of (disk w) s = Some st -> awaiting st ->
  (forall m, validate_inputs env s m = []) ->
  let w1 := snd (reject_gate notes w) in
  let mr := started (now env (clock w1)) s (disk w1) in
  fst (reject_gate notes w) = Ok tt
  /\ (exists rest,
        trace (snd (run_pipeline env None w1))
        = trace w1 ++ [EvValidate s (disk w1); EvSave mr; EvRun s mr]
          ++ rest)
  /\ (exists st', stage_of mr s = Some st'
                  /\ status st' = "in_progress"
                  /\ started_at st' = Some (now env (clock w1))
                  /\ error st' = None).
Proof.
  intros Hord Hpre Hs Haw Hval w1 mr.
  assert (Hfirst : first_awaiting (disk w) pre s st).
  { split; [|by split].
    eapply Forall_impl; [exact Hpre|].
    intros n (st0 & Hn & _ & Hg). exists st0.
    split; [done | by apply done_not_awaiting]. }
  assert (Hrej : reject_gate notes w
                 = (Ok tt,
                    mkWorld (with_stage (disk w) s (rejected_stage notes st) s)
                      (clock w)
                      (trace w
                       ++ [EvSave (with_stage (disk w) s
                                     (rejected_stage notes st) s)]))).
  { unfold reject_gate, bind, load_manifest. rewrite Hord.
    by apply GateFacts.reject_loop_first. }
  unfold mr, w1. rewrite Hrej. cbn [fst snd disk clock].
  set (m1 := with_stage (disk w) s (rejected_stage notes st) s).
  set (w1' := mkWorld m1 _ _).
  assert (Hs1 : stage_of m1 s = Some (rejected_stage notes st)).
  { unfold m1. rewrite GateFacts.stage_of_with_stage. by case_decide. }
  split; [done|]. split.
  - rewrite OrchestratorFacts.run_pipeline_unfold. cbn [start_index drop].
    change STAGE_ORDER with GATE_ORDER. rewrite Hord, drop_0.
    change (disk w1') with m1.
    assert (Hpre1 : Forall (done_in m1) pre).
    { eapply Forall_impl; [exact Hpre|].
      intros n (st0 & Hn & Hst0 & Hg). exists st0. split; [|done].
      unfold m1. rewrite GateFacts.stage_of_with_stage.
      case_decide; [|done]. subst n.
      destruct Haw as [_ Hnone]. congruence. }
    rewrite (ResumeFacts.run_stages_skip env pre (s :: post) m1 w1' Hpre1).
    cbn [run_stages]. unfold bind at 1, loop_body.
    unfold bind at 1, lift at 1, get_stage. rewrite Hs1.
    assert (Hneeds : needs_run (rejected_stage notes st))
      by (left; discriminate).
    destruct (ResumeFacts.needs_run_tests _ Hneeds) as [-> ->].
    assert (Hin : s ∈ STAGE_ORDER).
    { change STAGE_ORDER with GATE_ORDER. rewrite Hord.
      apply elem_of_app. right. by left. }
    destruct (ResumeFacts.stage_name_known s Hin) as [Hload _].
    destruct (run_stage_starts s m1 w1' Hload (Hval m1))
      as (o & w2 & rest & Hrun & Htr).
    rewrite Hrun.
    destruct o as [[m2|]|e].
    + destruct (run_stages_trace post m2 w2) as (evs & Hevs).
      rewrite Hevs, Htr. exists (rest ++ evs).
      by rewrite <- !app_assoc.
    + by exists rest.
    + by exists rest.
  - eexists. split.
    + rewrite stage_of_started, decide_True by done. by rewrite Hs1.
    + by repeat split.
Qed.

Lemma loop_body_done (n : string) (st : StageStatus) m w :
  cooperative env -> n ∈ STAGE_ORDER -> stage_of m n = Some st ->
  exists m' w',
    loop_body env n m w = (Ok (Some m'), w')
    /\ done_in m' n /\ same_elsewhere m m' n
    /\ (disk w = m -> disk w' = m')
    /\ (~ done_in m n ->
        _next_stage n = Ok (current_stage (pipeline m'))).
Proof.
  intros (Hval & Hraise & Hgate) Hin Hn.
  destruct (ResumeFacts.stage_name_known n Hin) as [Hload [nxt Hnxt]].
  unfold loop_body. unfold bind at 1, lift at 1, get_stage. rewrite Hn.
  destruct (completed_and_approved st) eqn:Hca.
  { apply completed_and_approved_done in Hca as [Hs Hg].
    exists m, w. split; [done|].
    assert (Hd : done_in m n) by (by exists st).
    by repeat split. }
  destruct (completed_awaiting_gate st) eqn:Haw.
  - apply GateFacts.awaiting_true in Haw as [Hs Hg].
    unfold bind, ask_gate, bind, emit, ret, approve_stage, bind, lift,
      read_clock, save_manifest, ret.
    rewrite Hgate, Hnxt. cbn [disk clock trace].
    do 2 eexists. split; [reflexivity|]. cbn [disk].
    split; [|split; [|split]]; [| |done|done].
    + eexists. split.
      * rewrite OrchestratorFacts.stage_of_set_current,
          OrchestratorFacts.stage_of_update, decide_True, Hn by done.
        reflexivity.
      * by split.
    + intros a Ha.
      rewrite OrchestratorFacts.stage_of_set_current,
        OrchestratorFacts.stage_of_update.
      by rewrite decide_False by congruence.
  - unfold run_stage, approve_stage, ask_gate.
    unfold bind, lift, ret, raise, emit, save_manifest, read_clock.
    rewrite Hload, Hval. cbn [disk clock trace].
    rewrite Hraise, Hgate, Hnxt. cbn [disk clock trace].
    do 2 eexists. split; [reflexivity|]. cbn [disk].
    split; [|split; [|split]]; [| |done|done].
    + destruct (checkpoint (run env n _)); eexists;
        (split;
         [repeat first
            [ rewrite OrchestratorFacts.stage_of_set_current
            | rewrite OrchestratorFacts.stage_of_update
            | rewrite decide_True by reflexivity
            | rewrite Hn ];
          reflexivity
         | by split]).
    + intros a Ha.
      destruct (checkpoint (run env n _));
        repeat first
          [ rewrite OrchestratorFacts.stage_of_set_current
          | rewrite OrchestratorFacts.stage_of_update
          | rewrite decide_False by congruence ];
        reflexivity.
Qed.

Lemma done_elsewhere m m' (n a : string) :
  same_elsewhere m m' n -> a <> n -> (done_in m' a <-> done_in m a).
Proof.
  intros Hsame Ha. unfold done_in. by rewrite (Hsame a Ha).
Qed.

Lemma run_stages_done (names : list string) :
  forall m w,
    cooperative env -> NoDup names ->
    Forall (fun n => n ∈ STAGE_ORDER /\ is_Some (stage_of m n)) names ->
    exists m' w',
      run_stages env names m w = (Ok tt, w')
      /\ Forall (done_in m') names
      /\ (forall a, a ∉ names -> stage_of m' a = stage_of m a)
      /\ (disk w = m -> disk w' = m')
      /\ (names = [] -> m' = m)
      /\ (forall pre s, names = pre ++ [s] -> ~ done_in m s ->
            _next_stage s = Ok (current_stage (pipeline m'))).
Proof.
  induction names as [|n names IH]; intros m w Hcoop Hnd Hall.
  - exists m, w. repeat split; try done.
    intros pre s H. by destruct pre.
  - apply NoDup_cons in Hnd as [Hn Hnd].
    apply Forall_cons in Hall as [[Hin [st Hst]] Hall].
    destruct (loop_body_done n st m w Hcoop Hin Hst)
      as (m1 & w1 & Hbody & Hdone & Hsame & Hdisk & Hcur).
    destruct (IH m1 w1 Hcoop Hnd)
      as (m' & w' & Hrun & Hd & Hother & Hdk & Hnil & Hc).
    { apply Forall_forall. intros a Ha.
      pose proof (proj1 (Forall_forall _ _) Hall a Ha) as [Hia Hsa].
      split; [done|]. rewrite (Hsame a); [done|]. by intros ->. }
    exists m', w'. cbn [run_stages]. unfold bind at 1. rewrite Hbody.
    split; [done|]. split; [|split; [|split; [|split]]].
    + constructor; [|done].
      destruct Hdone as (st1 & Hst1 & ?). exists st1. split; [|done].
      by rewrite (Hother n Hn).
    + intros a Ha. apply not_elem_of_cons in Ha as [Hne Ha].
      by rewrite (Hother a Ha), (Hsame a Hne).
    + intros Hw. apply Hdk. by apply Hdisk.
    + discriminate.
    + intros pre s Heq Hnot.
      destruct pre as [|p pre]; simplify_eq/=.
      * rewrite (Hnil eq_refl). by apply Hcur.
      * apply (Hc pre s eq_refl). intros Hd1. apply Hnot.
        apply (done_elsewhere m m1 p s Hsame); [|done].
        intros ->. apply Hn. apply elem_of_app. right. by left.
Qed.

(** X16. With valid inputs, modules that do not raise and every gate
    approved at the prompt, one [run_pipeline] on a manifest that has all
    four stages finishes the episode: it returns normally, every stage
    ends completed with [gate_approved = true], the persisted manifest is
    the final one, and [current_stage] is [complete] unless mastering was
    already approved before the run. *)
Theorem run_pipeline_completes w :
  cooperative env ->
  Forall (fun n => is_Some (stage_of (disk w) n)) STAGE_ORDER ->
  exists w',
    run_pipeline env None w = (Ok tt, w')
    /\ Forall (done_in (disk w')) STAGE_ORDER
    /\ (~ done_in (disk w) "mastering" ->
        current_stage (pipeline (disk w')) = "complete").
Proof.
  intros Hcoop Hall.
  rewrite OrchestratorFacts.run_pipeline_unfold. cbn [start_index drop].
  destruct (run_stages_done STAGE_ORDER (disk w) w Hcoop)
    as (m' & w' & Hrun & Hdone & _ & Hdisk & _ & Hcur).
  { by apply (bool_decide_unpack _); vm_compute. }
  { apply Forall_forall. intros n Hn. split; [done|].
    by apply (proj1 (Forall_forall _ _) Hall). }
  exists w'. rewrite (Hdisk eq_refl). split; [done|]. split; [done|].
  intros Hnot.
  specialize (Hcur ["ingestion"; "editing"; "mixing"] "mastering"
                eq_refl Hnot).
  by injection Hcur.
Qed.
End WithManifest.

Lemma quiet_env_cooperative : cooperative quiet_env.
Proof. by repeat split. Qed.

Lemma fresh_manifest_stages :
  Forall (fun n => is_Some (stage_of fresh_manifest n)) STAGE_ORDER.
Proof.
  unfold STAGE_ORDER.
  repeat (apply Forall_cons; split;
          [eexists; vm_compute; reflexivity|]).
  constructor.
Qed.

(** A new project with approving collaborators runs to [complete]. *)
Lemma run_pipeline_completes_witness :
  cooperative quiet_env
  /\ Forall (fun n => is_Some (stage_of fresh_manifest n)) STAGE_ORDER
  /\ exists w',
       run_pipeline quiet_env None (start_world fresh_manifest) = (Ok tt, w')
       /\ current_stage (pipeline (disk w')) = "complete".
Proof.
  split; [exact quiet_env_cooperative|].
  split; [exact fresh_manifest_stages|].
  destruct (run_pipeline_completes quiet_env (start_world fresh_manifest)
              quiet_env_cooperative fresh_manifest_stages)
    as (w' & Hrun & _ & Hcur).
  exists w'. split; [exact Hrun|]. apply Hcur.
  intros (st & Hst & Hs & _). vm_compute in Hst.
  injection Hst as <-. discriminate Hs.
Defined.

Lemma editing_awaiting_ingestion_done :
  Forall (done_in editing_awaiting) ["ingestion"].
Proof.
  repeat constructor.
  exists approved_stage_record. split; [by vm_compute | by split].
Qed.

(** The specification's scenario: the editing gate is rejected with the
    note "too aggressive"; the next run starts editing again. *)
Lemma reject_then_run_reruns_witness :
  Forall (done_in editing_awaiting) ["ingestion"]
  /\ awaiting completed_stage
  /\ fst (reject_gate (Some "too aggressive")
            (start_world editing_awaiting)) = Ok tt.
Proof.
  split; [exact editing_awaiting_ingestion_done|].
  split; [by split|].
  apply (reject_then_run_reruns quiet_env (Some "too aggressive")
           ["ingestion"] ["mixing"; "mastering"] "editing" completed_stage
           (start_world editing_awaiting) eq_refl
           editing_awaiting_ingestion_done eq_refl (conj eq_refl eq_refl)
           (fun _ => eq_refl)).
Defined.
End RunFacts.

(** ** Gate decisions in sequence *)

Module GateSequenceFacts.
Import ManifestModel Runtime Orchestrator Gate PipelineProps.

Section WithManifest.
Context {Files Config : Type}.
Implicit Type m : Manifest Files Config.
Implicit Type w : World Files Config.
Variable env : Env Files Config.

Lemma rejected_stage_not_awaiting (notes : option string)
    (st : StageStatus) : ~ awaiting (rejected_stage notes st).
Proof. intros [H _]. discriminate H. Qed.

(** X17. After a rejection there is nothing left to decide: when the
    rejected stage was the only one awaiting review, a following
    [approve_gate] or [reject_gate] raises the no-gate-pending error and
    changes nothing, until the stage has been run again. *)
Theorem reject_then_no_gate (notes notes' : option string)
    (pre post : list string) (s : string) (st : StageStatus) w :
  GATE_ORDER = pre ++ s :: post ->
  first_awaiting (disk w) pre s st ->
  none_awaiting (disk w) post ->
  let w1 := snd (reject_gate notes w) in
  fst (reject_gate notes w) = Ok tt
  /\ approve_gate env notes' w1
     = (Raise (RuntimeError "No gate pending approval"), w1)
  /\ reject_gate notes' w1
     = (Raise (RuntimeError "No gate pending review"), w1).
Proof.
  intros Hord Hfirst Hpost w1.
  assert (Hrej : reject_gate notes w
                 = (Ok tt,
                    mkWorld (with_stage (disk w) s (rejected_stage notes st) s)
                      (clock w)
                      (trace w
                       ++ [EvSave (with_stage (disk w) s
                                     (rejected_stage notes st) s)]))).
  { unfold reject_gate, bind, load_manifest. rewrite Hord.
    by apply GateFacts.reject_loop_first. }
  unfold w1. rewrite Hrej. cbn [fst snd].
  assert (Hnone : none_awaiting
                    (with_stage (disk w) s (rejected_stage notes st) s)
                    GATE_ORDER).
  { rewrite Hord. destruct Hfirst as (Hpre & Hs & Haw).
    apply Forall_app. split; [|apply Forall_cons; split].
    - apply GateFacts.none_awaiting_with_stage;
        [apply rejected_stage_not_awaiting | done].
    - exists (rejected_stage notes st). split.
      + rewrite GateFacts.stage_of_with_stage. by case_decide.
      + apply rejected_stage_not_awaiting.
    - apply GateFacts.none_awaiting_with_stage;
        [apply rejected_stage_not_awaiting | done]. }
  split; [done|]. split.
  - unfold approve_gate, bind, load_manifest. cbn [disk].
    by apply GateFacts.approve_loop_none.
  - unfold reject_gate, bind, load_manifest. cbn [disk].
    by apply GateFacts.reject_loop_none.
Qed.
End WithManifest.

Lemma ingestion_done_rest_not_awaiting :
  none_awaiting ingestion_done ["editing"; "mixing"; "mastering"].
Proof.
  repeat (apply Forall_cons; split;
          [exists default_stage; split;
             [by vm_compute | intros [H _]; discriminate H]|]).
  constructor.
Qed.

Lemma reject_then_no_gate_witness :
  first_awaiting ingestion_done [] "ingestion" completed_stage
  /\ none_awaiting ingestion_done ["editing"; "mixing"; "mastering"]
  /\ fst (approve_gate quiet_env None
            (snd (reject_gate (Some "redo") (start_world ingestion_done))))
     = Raise (RuntimeError "No gate pending approval").
Proof.
  split; [exact GateFacts.ingestion_done_first_awaiting|].
  split; [exact ingestion_done_rest_not_awaiting|].
  destruct (reject_then_no_gate quiet_env (Some "redo") None []
              ["editing"; "mixing"; "mastering"] "ingestion"
              completed_stage (start_world ingestion_done) eq_refl
              GateFacts.ingestion_done_first_awaiting
              ingestion_done_rest_not_awaiting) as (_ & Happ & _).
  by rewrite Happ.
Defined.
End GateSequenceFacts.

(** ** Regions and their extraction *)

Module RegionFacts.
Import Runtime Timeline Extract MixingModule MixingProps RegionProps.

(** *** The region mapper *)

(** X18. [build_timeline] returns one region per keep edit of the EDL,
    in ascending order of [record_start]. *)
Theorem build_timeline_sorted (edl : Edl.EDLSidecar)
    (alignment : Alignment.AlignmentMap) (track_map : gmap string string) :
  let regions := build_timeline edl alignment track_map in
  StronglySorted (fun r r' => (record_start r <= record_start r')%Q) regions
  /\ Permutation regions
       (map (region_of alignment track_map) (Edl.keep_edits edl))
  /\ length regions = length (Edl.keep_edits edl).
Proof.
  cbv zeta. unfold build_timeline. split; [|split].
  - apply sorted_by_StronglySorted.
  - apply stable_sort_perm.
  - unfold sorted_by. by rewrite stable_sort_perm, length_map.
Qed.

Lemma q_or_0_eq (q : Q) : (q_or_0 (Some q) == q)%Q.
Proof.
  unfold q_or_0. destruct (Qeq_bool q 0) eqn:E; [|reflexivity].
  apply Qeq_bool_iff in E. by rewrite E.
Qed.

Lemma tiles_chain (alignment : Alignment.AlignmentMap)
    (track_map : gmap string string) (keeps : list Edl.Edit) :
  forall first last,
    EdlProps.tiles first keeps last ->
    Forall (fun k => (0 < Edl.duration k)%Q) keeps ->
    chain (fun r r' => Qle_bool (record_start r) (record_start r'))
      (map (region_of alignment track_map) keeps).
Proof.
  induction keeps as [|k [|k' keeps] IH]; intros first last Ht Hpos;
    [done..|].
  destruct Ht as (Hs & He & Ht).
  apply Forall_cons in Hpos as [Hk Hpos].
  split; [|by apply (IH _ _ Ht)].
  destruct Ht as (Hs' & _).
  apply Qle_bool_iff. cbn [region_of record_start]. rewrite Hs, Hs'.
  rewrite !q_or_0_eq. lra.
Qed.

Section WithFormatting.
Variable fmt_0f : Q -> string.
Variable round1 : Q -> Q.

(** X19. On an EDL that [build_edl] has built, the sort of
    [build_timeline] changes nothing: the regions come in the order of
    the keep edits, region [i] for keep edit [i]. *)
Theorem build_timeline_of_build_edl (segs : list Transcript.Segment)
    (cuts : list Edl.Edit) (episode_id : string)
    (frame_rate crossfade_ms : Z) (alignment : Alignment.AlignmentMap)
    (track_map : gmap string string) :
  Forall (fun c => Edl.edit_type c = "cut") cuts ->
  let edl :=
    EdlBuilder.build_edl fmt_0f round1 segs cuts episode_id frame_rate
      crossfade_ms in
  build_timeline edl alignment track_map
  = map (region_of alignment track_map) (Edl.keep_edits edl).
Proof.
  intros Hty edl. unfold build_timeline, sorted_by.
  apply stable_sort_chain.
  unfold edl. rewrite (EdlShapeFacts.sidecar_keeps fmt_0f round1) by done.
  destruct (EdlShapeFacts.keep_phase_keeps_inv fmt_0f segs cuts)
    as (Ht & Hk & _).
  eapply tiles_chain; [exact Ht|].
  eapply Forall_impl; [exact Hk|]. by intros k [_ ?].
Qed.
End WithFormatting.

Lemma build_timeline_of_build_edl_witness :
  Forall (fun c => Edl.edit_type c = "cut") EdlProps.scenario_cuts
  /\ length
       (build_timeline
          (EdlBuilder.build_edl EdlProps.no_fmt EdlProps.no_round
             EdlProps.one_segment EdlProps.scenario_cuts "ep-1" 30 50)
          alice_alignment alice_tracks) = 4%nat.
Proof.
  assert (Hty : Forall (fun c => Edl.edit_type c = "cut")
                  EdlProps.scenario_cuts) by repeat constructor.
  split; [exact Hty|].
  by rewrite (build_timeline_of_build_edl EdlProps.no_fmt EdlProps.no_round
                EdlProps.one_segment EdlProps.scenario_cuts "ep-1" 30 50
                alice_alignment alice_tracks Hty).
Defined.

(** *** The speaker-to-track table *)

Lemma fold_track_map_absent (ps : list ManifestModel.Participant)
    (speaker : string) :
  forall tm : gmap string string,
    Forall (fun p => ManifestModel.participant_name p <> speaker) ps ->
    fold_left
      (fun track_map p =>
         <[ManifestModel.participant_name p
           := ManifestModel.participant_track p]> track_map) ps tm
    !! speaker = tm !! speaker.
Proof.
  induction ps as [|p ps IH]; intros tm Hall; [done|].
  apply Forall_cons in Hall as [Hp Hall]. cbn [fold_left].
  rewrite (IH _ Hall). by apply lookup_insert_ne.
Qed.

Lemma build_track_map_last (pre post : list ManifestModel.Participant)
    (p : ManifestModel.Participant) :
  Forall (fun q => ManifestModel.participant_name q
                   <> ManifestModel.participant_name p) post ->
  build_track_map (pre ++ p :: post) !! ManifestModel.participant_name p
  = Some (ManifestModel.participant_track p).
Proof.
  intros Hpost. unfold build_track_map.
  rewrite fold_left_app. cbn [fold_left].
  rewrite (fold_track_map_absent post _ _ Hpost).
  apply lookup_insert_eq.
Qed.

Lemma offset_in_first (pre post : list Alignment.AlignedTrack)
    (t : Alignment.AlignedTrack) :
  Forall (fun t' => Alignment.path t' <> Alignment.path t) pre ->
  Alignment.offset_in (pre ++ t :: post) (Alignment.path t)
  = Alignment.offset_ms t.
Proof.
  induction 1 as [|t' pre Hne _ IH]; cbn [app Alignment.offset_in].
  - by rewrite String.eqb_refl.
  - by rewrite (proj2 (String.eqb_neq _ _) Hne).
Qed.

Lemma offset_in_absent (ts : list Alignment.AlignedTrack) (p : string) :
  Forall (fun t => Alignment.path t <> p) ts ->
  Alignment.offset_in ts p = 0%Q.
Proof.
  induction 1 as [|t ts Hne _ IH]; [done|]. cbn [Alignment.offset_in].
  by rewrite (proj2 (String.eqb_neq _ _) Hne).
Qed.

(** X20. With the table [MixingModule.run] builds from the participants:
    a speaker who is no participant gives a region without track path;
    otherwise the region takes the track of the last participant of that
    name, and as offset that of the first aligned track with that path,
    or 0 when the alignment map has no such track. *)
Theorem region_of_participant (alignment : Alignment.AlignmentMap)
    (ps : list ManifestModel.Participant) (e : Edl.Edit) :
  let r := region_of alignment (build_track_map ps) e in
  (Forall (fun p => ManifestModel.participant_name p <> speaker_or_empty e)
     ps -> track_path r = "" /\ offset_ms r = 0%Q)
  /\ (forall pre p post,
        ps = pre ++ p :: post ->
        ManifestModel.participant_name p = speaker_or_empty e ->
        Forall (fun q => ManifestModel.participant_name q
                         <> ManifestModel.participant_name p) post ->
        ManifestModel.participant_track p <> "" ->
        track_path r = ManifestModel.participant_track p
        /\ (Forall (fun t => Alignment.path t
                            <> ManifestModel.participant_track p)
              (Alignment.tracks alignment) -> offset_ms r = 0%Q)
        /\ (forall tpre t tpost,
              Alignment.tracks alignment = tpre ++ t :: tpost ->
              Alignment.path t = ManifestModel.participant_track p ->
              Forall (fun t' => Alignment.path t' <> Alignment.path t) tpre ->
              offset_ms r = Alignment.offset_ms t)).
Proof.
  cbv zeta. split.
  - intros Habs. unfold region_of, build_track_map.
    rewrite (fold_track_map_absent ps _ ∅ Habs), lookup_empty. by split.
  - intros pre p post -> Hname Hpost Htrack.
    unfold region_of. rewrite <- Hname, (build_track_map_last pre post p Hpost).
    cbn [track_path offset_ms].
    rewrite (proj2 (String.eqb_neq _ _) Htrack).
    split; [done|]. split.
    + intros Hno. unfold Alignment.get_track_offset.
      by apply offset_in_absent.
    + intros tpre t tpost Htr Hpath Hfirst.
      unfold Alignment.get_track_offset. rewrite Htr, <- Hpath.
      by apply offset_in_first.
Qed.

Lemma region_of_participant_witness :
  Forall (fun p => ManifestModel.participant_name p
                   <> speaker_or_empty alice_keep) []
  /\ track_path
       (region_of alice_alignment (build_track_map two_participants)
          alice_keep) = "tracks/alice.wav".
Proof.
  split; [constructor|].
  destruct (proj2 (region_of_participant alice_alignment two_participants
                     alice_keep)
              [] (ManifestModel.mkParticipant "Alice" "host"
                    "tracks/alice.wav")
              [ManifestModel.mkParticipant "Bob" "guest" "tracks/bob.wav"]
              eq_refl eq_refl) as [Hpath _].
  - repeat constructor. discriminate.
  - discriminate.
  - exact Hpath.
Defined.

(** *** The extraction *)

Section WithFilesystem.
Variable path_join : string -> string -> string.
Variable path_exists : string -> bool.
Variable ffmpeg : ExtractCall -> option PyExn.
Variables (project_root tmp_dir : string) (rate depth : Z).

Abbreviation step :=
  (extract_step path_join path_exists ffmpeg project_root tmp_dir rate
     depth).
Abbreviation loop :=
  (extract_loop path_join path_exists ffmpeg project_root tmp_dir rate
     depth).

Abbreviation extractable :=
  (RegionProps.extractable path_join path_exists project_root).
Abbreviation region_file := (RegionProps.region_file path_join).

Lemma extract_loop_app (l1 l2 : list AudioRegion) :
  forall st i,
    loop st i (l1 ++ l2)
    = match loop st i l1 with
      | (st', None) => loop st' (i + length l1)%nat l2
      | (st', Some e) => (st', Some e)
      end.
Proof.
  induction l1 as [|r l1 IH]; intros st i; cbn [app extract_loop length].
  - by rewrite Nat.add_0_r.
  - destruct (step st i r) as [st1 [e|]]; [done|].
    rewrite IH. by replace (S i + length l1)%nat with (i + S (length l1))%nat
      by lia.
Qed.

Lemma extract_step_ok (st : ExtractState) (i : nat) (r : AudioRegion) :
  (forall c, ffmpeg c = None) -> extractable r ->
  exists st',
    step st i r = (st', None)
    /\ extracted st'
       = (if has_track r
          then <[edit_id r := region_file tmp_dir i]> (extracted st)
          else extracted st)
    /\ length (calls st')
       = (length (calls st) + if has_track r then 1 else 0)%nat.
Proof.
  intros Hff Hex. unfold extract_step, has_track.
  destruct (String.eqb (track_path r) "") eqn:E; cbn [negb].
  - exists st. by rewrite Nat.add_0_r.
  - destruct Hex as [Hnil|Hpath].
    { rewrite Hnil in E. discriminate E. }
    rewrite Hpath. cbn [negb]. rewrite Hff.
    eexists. split; [reflexivity|]. cbn [extracted calls].
    split; [reflexivity|]. rewrite length_app. reflexivity.
Qed.

Lemma extract_step_other_id (st : ExtractState) (i : nat) (r : AudioRegion)
    (id : string) :
  edit_id r <> id \/ track_path r = "" ->
  extracted (fst (step st i r)) !! id = extracted st !! id.
Proof.
  intros H. unfold extract_step.
  destruct (String.eqb (track_path r) "") eqn:E; [done|].
  destruct H as [Hid|Hnil]; [|rewrite Hnil in E; discriminate E].
  destruct (negb _); [done|].
  match goal with |- context [ffmpeg ?c] => destruct (ffmpeg c) end;
    cbn [fst extracted]; [done|].
  by apply lookup_insert_ne.
Qed.

Lemma extract_loop_other_id (regions : list AudioRegion) (id : string) :
  forall st i,
    Forall (fun r => edit_id r <> id \/ track_path r = "") regions ->
    extracted (fst (loop st i regions)) !! id = extracted st !! id.
Proof.
  induction regions as [|r regions IH]; intros st i Hall; [done|].
  apply Forall_cons in Hall as [Hr Hall]. cbn [extract_loop].
  pose proof (extract_step_other_id st i r id Hr) as Hstep.
  destruct (step st i r) as [st1 [e|]]; cbn [fst] in *; [done|].
  by rewrite (IH st1 (S i) Hall).
Qed.

Lemma extract_loop_ok (regions : list AudioRegion) :
  (forall c, ffmpeg c = None) ->
  forall st i,
    Forall extractable regions ->
    snd (loop st i regions) = None
    /\ length (calls (fst (loop st i regions)))
       = (length (calls st) + length (List.filter has_track regions))%nat
    /\ forall k r,
         regions !! k = Some r -> has_track r = true ->
         Forall (fun r' => edit_id r' <> edit_id r \/ track_path r' = "")
           (drop (S k) regions) ->
         extracted (fst (loop st i regions)) !! edit_id r
         = Some (region_file tmp_dir (i + k)).
Proof.
  intros Hff. induction regions as [|r regions IH]; intros st i Hall.
  - cbn. split; [done|]. split; [lia|]. intros k r H. by destruct k.
  - apply Forall_cons in Hall as [Hr Hall]. cbn [extract_loop].
    destruct (extract_step_ok st i r Hff Hr) as (st1 & Hstep & Hx & Hc).
    rewrite Hstep.
    destruct (IH st1 (S i) Hall) as (Hnone & Hlen & Hlook).
    split; [done|]. split.
    + rewrite Hlen, Hc. cbn [List.filter].
      destruct (has_track r); cbn [length]; lia.
    + intros k r0 Hk Ht Hlater. destruct k as [|k].
      * injection Hk as ->.
        change (drop 1 (r0 :: regions)) with (drop 0 regions) in Hlater.
        rewrite drop_0 in Hlater.
        rewrite (extract_loop_other_id regions (edit_id r0) st1 (S i)
                   Hlater).
        rewrite Hx, Ht, Nat.add_0_r. apply lookup_insert_eq.
      * change ((r :: regions) !! S k) with (regions !! k) in Hk.
        change (drop (S (S k)) (r :: regions)) with (drop (S k) regions)
          in Hlater.
        rewrite (Hlook k r0 Hk Ht Hlater).
        by replace (S i + k)%nat with (i + S k)%nat by lia.
Qed.

(** X21. When the path [project_root / track_path], as [pathlib] joins
    it, exists for every region that has a track path, and FFmpeg never
    fails, [extract_regions] raises nothing and runs FFmpeg once for each
    such region; the region's [edit_id] is mapped to
    [tmp_dir / region-<i>.wav], where [i] is the region's position in the
    whole timeline (regions without track path are counted), provided no
    later region with a track carries the same id. *)
Theorem extract_regions_all (regions : list AudioRegion) :
  (forall c, ffmpeg c = None) -> Forall extractable regions ->
  let res :=
    extract_regions path_join path_exists ffmpeg project_root tmp_dir rate
      depth
      regions in
  snd res = None
  /\ length (calls (fst res)) = length (List.filter has_track regions)
  /\ forall k r,
       regions !! k = Some r -> has_track r = true ->
       Forall (fun r' => edit_id r' <> edit_id r \/ track_path r' = "")
         (drop (S k) regions) ->
       extracted (fst res) !! edit_id r = Some (region_file tmp_dir k).
Proof.
  intros Hff Hall. cbv zeta. unfold extract_regions.
  destruct (extract_loop_ok regions Hff (mkExtractState ∅ []) 0 Hall)
    as (Hnone & Hlen & Hlook).
  split; [done|]. split; [exact Hlen|]. exact Hlook.
Qed.

(** X22. [extract_regions] stops at the first region whose path
    [project_root / track_path], as [pathlib] joins it, does not exist: it
    raises [FileNotFoundError] naming that joined path, runs FFmpeg
    neither for that region nor for any later one, and what was extracted
    before stays as it was. *)
Theorem extract_regions_missing_track (pre post : list AudioRegion)
    (r : AudioRegion) :
  snd (extract_regions path_join path_exists ffmpeg project_root tmp_dir rate
      depth
         pre) = None ->
  track_path r <> "" ->
  path_exists (path_join project_root (track_path r)) = false ->
  extract_regions path_join path_exists ffmpeg project_root tmp_dir rate
      depth
    (pre ++ r :: post)
  = (fst (extract_regions path_join path_exists ffmpeg project_root tmp_dir rate
            depth pre),
     Some (mkExn "FileNotFoundError"
             ("Source track not found: "
              ++ path_join project_root (track_path r)))).
Proof.
  unfold extract_regions. intros Hpre Hpath Hmissing.
  rewrite extract_loop_app.
  destruct (loop (mkExtractState ∅ []) 0 pre) as [st1 o] eqn:E.
  cbn [fst snd] in *. subst o. cbn [extract_loop].
  unfold extract_step.
  rewrite (proj2 (String.eqb_neq _ _) Hpath), Hmissing. reflexivity.
Qed.

Lemma extract_step_calls (P : ExtractCall -> Prop) (st : ExtractState)
    (i : nat) (r : AudioRegion) :
  (forall start,
     (0 <= start)%Q ->
     (start == source_start r + offset_ms r / 1000)%Q \/ start = 0%Q ->
     P (mkExtractCall (path_join project_root (track_path r))
          (region_file tmp_dir i) start (duration r) rate 1 depth)) ->
  Forall P (calls st) -> Forall P (calls (fst (step st i r))).
Proof.
  intros Hnew Hold. unfold extract_step.
  destruct (String.eqb (track_path r) ""); [done|].
  destruct (negb _); [done|].
  assert (Hcall : P (mkExtractCall (path_join project_root (track_path r))
                       (region_file tmp_dir i)
                       (if Qlt_bool (source_start r + offset_ms r / 1000) 0
                        then 0%Q
                        else (source_start r + offset_ms r / 1000)%Q)
                       (duration r) rate 1 depth)).
  { apply Hnew.
    - destruct (Qlt_bool _ 0) eqn:E; [discriminate|].
      by apply Qlt_bool_false_iff in E.
    - destruct (Qlt_bool _ 0); [by right | by left]. }
  match goal with |- context [ffmpeg ?c] => destruct (ffmpeg c) end;
    cbn [fst calls]; apply Forall_app; (split; [done|]);
    by repeat constructor.
Qed.

End WithFilesystem.

(** Bob has no track, Alice's is on disk: one FFmpeg run, and Alice's
    region, second in the timeline, goes to [region-0001.wav]. *)
Lemma extract_regions_all_witness :
  Forall (extractable posix_join only_alice "/project")
    [bob_region; alice_region]
  /\ extracted
       (fst (extract_regions posix_join only_alice ffmpeg_ok "/project"
            "/project/tmp"
               48000 24 [bob_region; alice_region]))
     !! "keep-002"
     = Some "/project/tmp/region-0001.wav".
Proof.
  assert (Hall : Forall (extractable posix_join only_alice "/project")
                   [bob_region; alice_region]).
  { apply Forall_cons; split; [by left|].
    apply Forall_cons; split; [by right | constructor]. }
  split; [exact Hall|].
  destruct (extract_regions_all posix_join only_alice ffmpeg_ok "/project"
              "/project/tmp" 48000 24 [bob_region; alice_region]
              (fun _ => eq_refl) Hall) as (_ & _ & Hlook).
  apply (Hlook 1%nat alice_region eq_refl eq_refl). constructor.
Defined.

(** Carol's track is not on disk: the extraction stops there. *)
Lemma extract_regions_missing_track_witness :
  snd (extract_regions posix_join only_alice ffmpeg_ok "/project"
            "/project/tmp"
         48000 24 [bob_region; alice_region]) = None
  /\ track_path carol_region <> ""
  /\ only_alice (posix_join "/project" (track_path carol_region)) = false
  /\ snd (extract_regions posix_join only_alice ffmpeg_ok "/project"
            "/project/tmp"
            48000 24 ([bob_region; alice_region] ++ [carol_region]))
     = Some (mkExn "FileNotFoundError"
               "Source track not found: /project/tracks/carol.wav").
Proof.
  assert (H1 : snd (extract_regions posix_join only_alice ffmpeg_ok "/project"
                      "/project/tmp" 48000 24 [bob_region; alice_region])
               = None) by reflexivity.
  assert (H2 : track_path carol_region <> "") by discriminate.
  assert (H3 : only_alice (posix_join "/project" (track_path carol_region))
               = false) by reflexivity.
  split; [exact H1|]. split; [exact H2|]. split; [exact H3|].
  by rewrite (extract_regions_missing_track posix_join only_alice
                ffmpeg_ok "/project"
                "/project/tmp" 48000 24 [bob_region; alice_region] []
                carol_region H1 H2 H3).
Defined.
End RegionFacts.

(** ** False starts ([editing/filler.py]) and how they lie to the silences *)

Module DetectionFacts.
Import Edl Transcript EdlBuilder FalseStart Silence ChapterShape
  DetectionProps.

Lemma ordered_lower (segs : list Segment) :
  forall lo b,
    segments_ordered lo segs -> b ∈ segs ->
    (lo <= seg_start b)%Q /\ (seg_start b <= seg_end b)%Q.
Proof.
  induction segs as [|s rest IH]; intros lo b Hord Hin.
  - by apply elem_of_nil in Hin.
  - destruct Hord as (H1 & H2 & Hrest).
    apply elem_of_cons in Hin as [->|Hin]; [done|].
    destruct (IH _ b Hrest Hin) as [H3 H4]. split; [lra | done].
Qed.

(** In an ordered transcript an earlier segment ends before a later one
    starts. *)
Lemma ordered_lt (segs : list Segment) :
  forall lo i j a b,
    segments_ordered lo segs -> (i < j)%nat ->
    segs !! i = Some a -> segs !! j = Some b ->
    (seg_end a <= seg_start b)%Q.
Proof.
  induction segs as [|s rest IH]; intros lo i j a b Hord Hij Ha Hb;
    [done|].
  destruct Hord as (H1 & H2 & Hrest).
  destruct j as [|j]; [lia|]. cbn in Hb.
  destruct i as [|i].
  - injection Ha as ->.
    apply (ordered_lower rest (seg_end a) b Hrest).
    by eapply list_elem_of_lookup_2.
  - cbn in Ha. apply (IH (seg_end s) i j a b Hrest); [lia|done..].
Qed.

Lemma lookup_decomposition (pre post : list Segment) (seg next : Segment) :
  (pre ++ seg :: next :: post) !! length pre = Some seg
  /\ (pre ++ seg :: next :: post) !! S (length pre) = Some next.
Proof.
  split.
  - by rewrite list_lookup_middle.
  - rewrite lookup_app_r by lia.
    by replace (S (length pre) - length pre)%nat with 1%nat by lia.
Qed.

Section WithStrings.
Variable fmt_0f : Q -> string.
Variable split : string -> list string.
Variable min_gap_ms : Q.

Abbreviation fs_loop := (false_start_loop fmt_0f split min_gap_ms).

(** What the loop appends, with the segments before [segs] as [pre]. *)
Lemma false_start_loop_edits (segs : list Segment) :
  forall pre n,
    Forall
      (fun e =>
         edit_type e = "cut" /\ auto_applied e = true
         /\ confidence e = Some (85 # 100) /\ reason e = Some "false_start"
         /\ exists pre' seg next post,
              pre ++ segs = pre' ++ seg :: next :: post
              /\ is_false_start split min_gap_ms seg next
              /\ source_start e = seg_start seg
              /\ source_end e = seg_end seg
              /\ segments e = [seg_id seg])
      (fs_loop segs n).
Proof.
  induction segs as [|seg [|next rest] IH]; intros pre n; [constructor..|].
  cbn [false_start_loop].
  specialize (IH (pre ++ [seg])). rewrite <- app_assoc in IH.
  destruct (String.eqb (seg_speaker seg) (seg_speaker next)) eqn:Esp;
    cbn [negb]; [|apply IH].
  destruct (3 <? word_count split seg)%nat eqn:Ewc; [apply IH|].
  destruct (Qlt_bool _ min_gap_ms) eqn:Egap; [apply IH|].
  constructor; [|apply IH].
  apply String.eqb_eq in Esp. apply Nat.ltb_ge in Ewc.
  apply Qlt_bool_false_iff in Egap.
  repeat split; try reflexivity.
  exists pre, seg, next, rest. by repeat split.
Qed.

(** The edits are numbered in the order in which they are found. *)
Lemma false_start_loop_ids (segs : list Segment) :
  forall n k e,
    fs_loop segs n !! k = Some e ->
    edit_id e = ("false-start-" ++ fmt_03d (n + S k))%string.
Proof.
  induction segs as [|seg [|next rest] IH]; intros n k e Hk; [done..|].
  cbn [false_start_loop] in Hk.
  destruct (negb _); [by apply IH|].
  destruct (3 <? _)%nat; [by apply IH|].
  destruct (Qlt_bool _ _); [by apply IH|].
  destruct k as [|k].
  - injection Hk as <-. cbn [false_start_edit edit_id].
    by rewrite Nat.add_1_r.
  - cbn in Hk. rewrite (IH _ _ _ Hk).
    by replace (S n + S k)%nat with (n + S (S k))%nat by lia.
Qed.

(** No false start is missed. *)
Lemma false_start_loop_complete (pre post : list Segment)
    (seg next : Segment) :
  is_false_start split min_gap_ms seg next ->
  forall n,
    exists e,
      e ∈ fs_loop (pre ++ seg :: next :: post) n
      /\ source_start e = seg_start seg /\ source_end e = seg_end seg
      /\ segments e = [seg_id seg].
Proof.
  intros (Hsp & Hwc & Hgap).
  induction pre as [|p pre IH]; intros n.
  - cbn [app false_start_loop].
    rewrite (proj2 (String.eqb_eq _ _) Hsp). cbn [negb].
    rewrite (proj2 (Nat.ltb_ge _ _) Hwc).
    rewrite (proj2 (Qlt_bool_false_iff _ _) Hgap).
    eexists. split; [apply list_elem_of_here|]. by repeat split.
  - change ((p :: pre) ++ seg :: next :: post)
      with (p :: (pre ++ seg :: next :: post)).
    destruct (pre ++ seg :: next :: post) as [|x rest] eqn:E.
    { by destruct pre. }
    cbn [false_start_loop].
    destruct (negb _); [apply IH|].
    destruct (3 <? _)%nat; [apply IH|].
    destruct (Qlt_bool _ _); [apply IH|].
    destruct (IH (S n)) as (e & Hin & He).
    exists e. split; [by apply list_elem_of_further | done].
Qed.


Section WithSilences.
Variable fmt_0f' : Q -> string.
Variables min_duration_ms keep_ms speaker_turn_pause_ms : Q.

(** X25. On a transcript whose segments are in temporal order, with
    non-negative keep and pause lengths, no cut of [detect_false_starts]
    overlaps a cut of [detect_silences]: the first removes segments, the
    second only parts of the gaps between them. *)
Theorem false_starts_disjoint_from_silences (lo : Q)
    (segs : list Segment) (enabled : bool) (f s : Edit) :
  segments_ordered lo segs ->
  (0 <= keep_ms)%Q -> (0 <= speaker_turn_pause_ms)%Q ->
  f ∈ detect_false_starts fmt_0f split segs min_gap_ms enabled ->
  s ∈ detect_silences fmt_0f' segs min_duration_ms keep_ms
        speaker_turn_pause_ms ->
  disjoint_spans f s.
Proof.
  intros Hord Hk Hp Hf Hs.
  unfold detect_false_starts in Hf.
  destruct enabled; cbn [negb] in Hf; [|by apply elem_of_nil in Hf].
  pose proof (false_start_loop_edits segs [] 0%nat) as Hfs.
  pose proof (SilenceFacts.silence_loop_edits fmt_0f' min_duration_ms
                keep_ms speaker_turn_pause_ms segs [] 0%nat) as Hss.
  destruct (proj1 (Forall_forall _ _) Hfs f Hf)
    as (_ & _ & _ & _ & pre & seg & next & post & E & _ & Hfs1 & Hfe & _).
  destruct (proj1 (Forall_forall _ _) Hss s Hs)
    as (_ & _ & _ & _ & _ & pre' & seg' & next' & post' & E' & Hse & _
        & Hs1).
  cbn [app] in E, E'.
  destruct (lookup_decomposition pre post seg next) as [Hi _].
  destruct (lookup_decomposition pre' post' seg' next') as [Hj Hj'].
  rewrite <- E in Hi. rewrite <- E' in Hj, Hj'.
  set (tgt := if negb _ then _ else _) in Hs1.
  assert (Ht : (0 <= tgt / 1000)%Q).
  { apply Qle_shift_div_l; [reflexivity|]. unfold tgt.
    destruct (negb _); lra. }
  set (q := (tgt / 1000)%Q) in *.
  assert (Hseg' : (seg_start seg' <= seg_end seg')%Q).
  { apply (ordered_lower segs lo seg' Hord).
    by eapply list_elem_of_lookup_2. }
  assert (Hnext' : (seg_start next' <= seg_end next')%Q).
  { apply (ordered_lower segs lo next' Hord).
    by eapply list_elem_of_lookup_2. }
  unfold disjoint_spans. rewrite Hfs1, Hfe, Hse, Hs1.
  destruct (Nat.lt_trichotomy (length pre) (length pre')) as [Hlt|[He|Hgt]].
  - left.
    pose proof (ordered_lt segs lo _ _ seg seg' Hord Hlt Hi Hj). lra.
  - left. rewrite He in Hi. assert (seg = seg') by congruence. subst seg'.
    lra.
  - right.
    destruct (decide (length pre = S (length pre'))) as [He|Hne].
    + rewrite He in Hi. assert (seg = next') by congruence. subst next'.
      lra.
    + assert (Hlt : (S (length pre') < length pre)%nat) by lia.
      pose proof (ordered_lt segs lo _ _ next' seg Hord Hlt Hj' Hi). lra.
Qed.
End WithSilences.
End WithStrings.


(** On Alice's restart the false-start cut [0, 1] and the silence cuts
    [1.3, 2] and [10.5, 12] stay apart. *)
Lemma false_starts_disjoint_from_silences_witness :
  segments_ordered 0 restart_segments
  /\ Forall
       (fun f =>
          Forall (disjoint_spans f)
            (detect_silences EdlProps.no_fmt restart_segments 800 300 500))
       (detect_false_starts EdlProps.no_fmt no_split restart_segments 500
          true)
  /\ length (detect_silences EdlProps.no_fmt restart_segments 800 300 500)
     = 2%nat.
Proof.
  assert (Hord : segments_ordered 0 restart_segments).
  { simpl. repeat split; discriminate. }
  split; [exact Hord|]. split; [|reflexivity].
  apply Forall_forall. intros f Hf. apply Forall_forall. intros s Hs.
  apply (false_starts_disjoint_from_silences EdlProps.no_fmt no_split 500
           EdlProps.no_fmt 800 300 500 0 restart_segments true f s Hord);
    [discriminate | discriminate | exact Hf | exact Hs].
Defined.
End DetectionFacts.

(** ** Timecodes ([_seconds_to_tc]) *)

Module TimecodeFacts.
Import Timecode TimecodeProps.

Section WithArith.
Context {F : Type} {arith : Fp.Arith F}.

(** X26. When the frame count [int(seconds * fps)] is not negative and
    the frame rate is positive, [_seconds_to_tc] returns [HH:MM:SS:FF]
    with minutes and seconds below 60 and frames below [fps], and the
    four fields count exactly that many frames:
    [((HH*60 + MM)*60 + SS)*fps + FF = int(seconds * fps)]. Hours are
    not wrapped at 24. The product is the float product, rounded as the
    arithmetic rounds it. *)
Theorem seconds_to_tc_fields (seconds : F) (fps total_frames : Z) :
  Fp.trunc (Fp.mul seconds (Fp.of_int fps)) = Some total_frames ->
  (0 <= total_frames)%Z -> (0 < fps)%Z ->
  exists hh mm ss ff,
    tc_fields seconds fps = Some (hh, mm, ss, ff)
    /\ _seconds_to_tc seconds fps
       = Some (fmt_02d hh ++ ":" ++ fmt_02d mm ++ ":" ++ fmt_02d ss ++ ":"
               ++ fmt_02d ff)%string
    /\ (0 <= hh)%Z /\ (0 <= mm < 60)%Z /\ (0 <= ss < 60)%Z
    /\ (0 <= ff < fps)%Z
    /\ (((hh * 60 + mm) * 60 + ss) * fps + ff = total_frames)%Z.
Proof.
  intros Htr H0 Hfps.
  unfold _seconds_to_tc, tc_fields. rewrite Htr.
  set (T := total_frames) in *.
  rewrite (proj2 (Z.eqb_neq fps 0)) by lia.
  set (secs := (T / fps)%Z).
  assert (HS : (0 <= secs)%Z) by (apply Z.div_pos; lia).
  pose proof (Z.div_mod T fps ltac:(lia)) as E1.
  pose proof (Z.mod_pos_bound T fps Hfps) as B1.
  pose proof (Z.div_mod secs 60 ltac:(lia)) as E2.
  pose proof (Z.mod_pos_bound secs 60 ltac:(lia)) as B2.
  pose proof (Z.div_mod (secs / 60) 60 ltac:(lia)) as E3.
  pose proof (Z.mod_pos_bound (secs / 60) 60 ltac:(lia)) as B3.
  assert (E4 : (secs / 3600 = secs / 60 / 60)%Z)
    by (by rewrite Z.div_div by lia).
  assert (H4 : (0 <= secs / 3600)%Z) by (apply Z.div_pos; lia).
  fold secs in E1.
  exists (secs / 3600)%Z, ((secs / 60) mod 60)%Z, (secs mod 60)%Z,
    (T mod fps)%Z.
  split; [reflexivity|]. split; [reflexivity|].
  split; [done|]. split; [done|]. split; [done|]. split; [done|].
  rewrite E4. nia.
Qed.
End WithArith.

(** In binary64, 3725.5 seconds at 30 frames per second are frame 111765,
    [01:02:05:15]; and the float nearest to 1/24 second at 24 frames per
    second is frame 1, since the product rounds to 1.0. *)
Lemma seconds_to_tc_fields_witness :
  Fp.trunc (Fp.mul seconds_3725_5 (Fp.of_int 30)) = Some 111765%Z
  /\ tc_fields seconds_3725_5 30 = Some (1, 2, 5, 15)%Z
  /\ tc_fields one_24th 24 = Some (0, 0, 0, 1)%Z
  /\ exists hh mm ss ff,
       tc_fields seconds_3725_5 30 = Some (hh, mm, ss, ff)
       /\ (((hh * 60 + mm) * 60 + ss) * 30 + ff = 111765)%Z.
Proof.
  assert (H1 : Fp.trunc (Fp.mul seconds_3725_5 (Fp.of_int 30))
               = Some 111765%Z)
    by (vm_compute; reflexivity).
  split; [exact H1|].
  split; [vm_compute; reflexivity|]. split; [vm_compute; reflexivity|].
  destruct (seconds_to_tc_fields seconds_3725_5 30 111765 H1
              ltac:(lia) ltac:(lia))
    as (hh & mm & ss & ff & E & _ & _ & _ & _ & _ & Hsum).
  exists hh, mm, ss, ff. by split.
Defined.
End TimecodeFacts.

(** ** The rationale log ([_build_rationale]) *)

Module RationaleFacts.
Import Edl EditingModule Rationale.

Lemma count_if_filter (p : Edit -> bool) (l : list Edit) :
  count_if p l = length (List.filter p l).
Proof.
  unfold count_if.
  assert (H : forall a,
            fold_left (fun n e => if p e then S n else n) l a
            = (a + length (List.filter p l))%nat).
  { induction l as [|e l IH]; intros a; cbn [fold_left List.filter].
    - cbn. lia.
    - rewrite IH. destruct (p e); cbn [length]; lia. }
  apply (H 0%nat).
Qed.

Lemma filter_split_length (p : Edit -> bool) (l : list Edit) :
  (length (List.filter p l)
   + length (List.filter (fun e => negb (p e)) l))%nat = length l.
Proof.
  induction l as [|e l IH]; [done|].
  cbn [List.filter]. destruct (p e); cbn [negb length]; lia.
Qed.

Lemma cap_length (d : Q) (cuts : list Edit) :
  length (cap_auto_cuts d cuts) = length cuts.
Proof.
  symmetry. eapply Forall2_length, CapDownstreamFacts.cap_same_span.
Qed.

Section WithFormatting.
Variable fmt_1f : Q -> string.

(** X27. In the rationale log that [EditingModule.run] writes, every edit
    is counted once as auto-applied or once as flagged, the per-detector
    counts add up to [total_edits], also when the safety cap has demoted
    cuts, and the log lists one entry per edit. *)
Theorem run_rationale_summary (d : Q)
    (fillers false_starts silences tangents : list Edit) :
  let log := run_rationale fmt_1f d fillers false_starts silences tangents in
  let s := summary log in
  total_edits s = (auto_applied_count s + flagged_for_review s)%nat
  /\ total_edits s
     = (count (filler_removal s) + count (false_start_removal s)
        + count (silence_removal s) + count (tangent_removal s))%nat
  /\ length (rationale_edits log) = total_edits s.
Proof.
  cbv zeta. unfold run_rationale, _build_rationale.
  cbn [summary total_edits auto_applied_count flagged_for_review
       filler_removal false_start_removal silence_removal tangent_removal
       rationale_edits breakdown_of count].
  split.
  { rewrite !count_if_filter. symmetry. apply filter_split_length. }
  split.
  { rewrite cap_length, !length_app. lia. }
  by rewrite length_map.
Qed.
End WithFormatting.
End RationaleFacts.
